(** * GPS track extraction from Novatek dashcam videos

    A shallow embedding of [nvtk_mp42gpx_v3.py]: the MP4 and MPEG-TS container
    scanners, the payload decoder with its module-level decode state, the
    geometry helpers and the two track filters, followed by the properties
    stated about them.

    Conventions of the embedding.
    - A Python [int] is a [Z]; a [bytes] value is a [list byte].
    - A Python [float] is a real number: arithmetic is exact, [math.sin],
      [math.cos], [math.asin], [math.atan2] and [math.sqrt] are the functions
      of analysis.  Rounding, signed zeros, infinities and NaN are outside
      this reading; a binary32 field holding an infinity or a NaN ends the
      decode with the outcome [Raise NonFinite], which marks the edge of the
      model and is not a Python exception.
    - The module-level variables ([previousLatitude], [previousLongitude],
      [videoStartTs], [videoStartTsInfo], [videoStartWrongAtoms]) are the
      record [Globals], passed into and returned from every function that
      reads or writes them.  A function that can raise returns an [outcome]
      together with the globals as they are when it returns or raises.
    - A [datetime] is its position on the proleptic Gregorian time line in
      seconds ([ymd2ord] days, as CPython counts them); a [timedelta] is a
      number of seconds.
    - The script runs on Python 3: a dictionary keeps its keys in the
      order of insertion, [bytes] and [str] values never compare equal, and
      [int] reads text as CPython 3 does.
    - Writes to standard output are not modelled. *)

From Stdlib Require Import ZArith List String Ascii Bool Lia Reals Lra.
From Stdlib Require Import Permutation Sorted.
From Stdlib Require Import Strings.Byte.
Import ListNotations.
Open Scope Z_scope.

(* ================================================================== *)
(** * Part I: the program *)
(* ================================================================== *)

(** ** Bytes, slices and [struct] *)

Definition bytes := list byte.

Definition byte_val (b : byte) : Z := Z.of_N (Byte.to_N b).

Definition len {A : Type} (l : list A) : Z := Z.of_nat (List.length l).

(** [ztake n l] is [l[:n]] and [zskip n l] is [l[n:]] for [0 <= n]; both
    recurse on the list, so a 32-bit count costs nothing on a short file. *)
Fixpoint ztake {A : Type} (n : Z) (l : list A) : list A :=
  match l with
  | [] => []
  | x :: t => if n <=? 0 then [] else x :: ztake (n - 1) t
  end.

Fixpoint zskip {A : Type} (n : Z) (l : list A) : list A :=
  match l with
  | [] => []
  | _ :: t => if n <=? 0 then l else zskip (n - 1) t
  end.

(** [l[a:b]] for [0 <= a]. *)
Definition slice {A : Type} (a b : Z) (l : list A) : list A :=
  ztake (b - a) (zskip a l).

(** [l[-n:]] for [0 < n]. *)
Definition last_bytes {A : Type} (n : Z) (l : list A) : list A :=
  zskip (len l - n) l.

(** The [n] bytes [struct.unpack_from] reads at [offset]; [None] stands for
    [struct.error] (buffer too small, or offset out of range).  A negative
    offset counts from the end, as in Python. *)
Definition bytes_at (n offset : Z) (data : bytes) : option bytes :=
  let off := if offset <? 0 then offset + len data else offset in
  if (0 <=? off) && (off + n <=? len data)
  then Some (ztake n (zskip off data))
  else None.

Definition be32 (a b c d : byte) : Z :=
  ((byte_val a * 256 + byte_val b) * 256 + byte_val c) * 256 + byte_val d.

Definition le32 (a b c d : byte) : Z := be32 d c b a.

(** The number an IEEE-754 binary32 word stands for when its exponent
    field is not all ones. *)
Definition f32_real (w : Z) : R :=
  let e := (w / 2 ^ 23) mod 256 in
  let m := w mod 2 ^ 23 in
  let mag := if e =? 0
             then (IZR m * powerRZ 2 (-149))%R
             else (IZR (m + 2 ^ 23) * powerRZ 2 (e - 150))%R in
  if Z.testbit w 31 then (- mag)%R else mag.

(** The value of a binary32 word, when it is finite. *)
Definition f32_value (w : Z) : option R :=
  if (w / 2 ^ 23) mod 256 =? 255 then None else Some (f32_real w).

(** ['<III'] *)
Definition unpack_III_le (bs : bytes) : option (Z * Z * Z) :=
  match bs with
  | [a0; a1; a2; a3; b0; b1; b2; b3; c0; c1; c2; c3] =>
      Some (le32 a0 a1 a2 a3, le32 b0 b1 b2 b3, le32 c0 c1 c2 c3)
  | _ => None
  end.

(** ['<ff'], as binary32 words. *)
Definition unpack_ff_le (bs : bytes) : option (Z * Z) :=
  match bs with
  | [a0; a1; a2; a3; b0; b1; b2; b3] =>
      Some (le32 a0 a1 a2 a3, le32 b0 b1 b2 b3)
  | _ => None
  end.

(** ['<sss'] *)
Definition unpack_sss (bs : bytes) : option (byte * byte * byte) :=
  match bs with
  | [a; b; c] => Some (a, b, c)
  | _ => None
  end.

(** [struct.unpack_from(fmt, data, offset)] for a format of [n] bytes that
    [parse] reads; [None] stands for [struct.error]. *)
Definition unpack_from {A : Type} (n : Z) (parse : bytes -> option A)
    (data : bytes) (offset : Z) : option A :=
  match bytes_at n offset data with
  | Some bs => parse bs
  | None => None
  end.

(** [bytes.decode()] of a one-byte value: UTF-8 accepts exactly the bytes
    below 0x80; [None] stands for [UnicodeDecodeError]. *)
Definition decode1 (b : byte) : option string :=
  if byte_val b <? 128
  then Some (String (ascii_of_byte b) EmptyString)
  else None.

(** ** Exceptions and outcomes *)

Inductive exn : Type :=
| StructError
| ValueError
| OverflowError
| UnboundLocalError
| NonFinite.

Inductive outcome (A : Type) : Type :=
| Return (a : A)
| Raise (e : exn)
| Diverge
| OutOfFuel.

Arguments Return {A} a.
Arguments Raise {A} e.
Arguments Diverge {A}.
Arguments OutOfFuel {A}.

(** ** [datetime] *)

Definition is_leap (y : Z) : bool :=
  (y mod 4 =? 0) && (negb (y mod 100 =? 0) || (y mod 400 =? 0)).

Definition days_in_month (y m : Z) : Z :=
  if m =? 2 then (if is_leap y then 29 else 28)
  else if (m =? 4) || (m =? 6) || (m =? 9) || (m =? 11) then 30
  else 31.

Definition DAYS_BEFORE_MONTH : list Z :=
  [0; 0; 31; 59; 90; 120; 151; 181; 212; 243; 273; 304; 334].

Definition days_before_year (y : Z) : Z :=
  let p := y - 1 in p * 365 + p / 4 - p / 100 + p / 400.

Definition days_before_month (y m : Z) : Z :=
  nth (Z.to_nat m) DAYS_BEFORE_MONTH 0
  + (if (2 <? m) && is_leap y then 1 else 0).

Definition ymd2ord (y m d : Z) : Z :=
  days_before_year y + days_before_month y m + d.

Definition INT_MAX : Z := 2147483647.
Definition INT_MIN : Z := -2147483648.

Definition fits_int (x : Z) : bool := (INT_MIN <=? x) && (x <=? INT_MAX).

(** [datetime.datetime(y, mo, d, h, mi, s, 0)]: the arguments are converted to
    C ints first, then range-checked. *)
Definition datetime (y mo d h mi s : Z) : exn + Z :=
  if negb (fits_int y && fits_int mo && fits_int d
           && fits_int h && fits_int mi && fits_int s)
  then inl OverflowError
  else if (1 <=? y) && (y <=? 9999) && (1 <=? mo) && (mo <=? 12)
          && (1 <=? d) && (d <=? days_in_month y mo)
          && (0 <=? h) && (h <=? 23) && (0 <=? mi) && (mi <=? 59)
          && (0 <=? s) && (s <=? 59)
  then inr (ymd2ord y mo d * 86400 + h * 3600 + mi * 60 + s)
  else inl ValueError.

(** The first instant a [datetime] can hold, 0001-01-01T00:00:00. *)
Definition DATETIME_MIN : Z := 86400.

(** [dt - datetime.timedelta(0, n)] *)
Definition datetime_sub (dt n : Z) : exn + Z :=
  if dt - n <? DATETIME_MIN then inl OverflowError else inr (dt - n).

(** CPython's [_ord2ymd]. *)
Definition ord2ymd (ordinal : Z) : Z * Z * Z :=
  let n := ordinal - 1 in
  let n400 := n / 146097 in
  let n := n mod 146097 in
  let n100 := n / 36524 in
  let n := n mod 36524 in
  let n4 := n / 1461 in
  let n := n mod 1461 in
  let n1 := n / 365 in
  let n := n mod 365 in
  let year := n400 * 400 + 1 + n100 * 100 + n4 * 4 + n1 in
  if (n1 =? 4) || (n100 =? 4) then (year - 1, 12, 31)
  else
    let leapyear := (n1 =? 3) && (negb (n4 =? 24) || (n100 =? 3)) in
    let month := (n + 50) / 32 in
    let preceding := nth (Z.to_nat month) DAYS_BEFORE_MONTH 0
                     + (if (2 <? month) && leapyear then 1 else 0) in
    if n <? preceding
    then
      let month' := month - 1 in
      let dim := (if month' =? 2 then 28
                  else if (month' =? 4) || (month' =? 6) || (month' =? 9) || (month' =? 11)
                       then 30 else 31)
                 + (if (month' =? 2) && leapyear then 1 else 0) in
      (year, month', n - (preceding - dim) + 1)
    else (year, month, n - preceding + 1).

Definition digit_char (d : Z) : ascii := ascii_of_nat (48 + Z.to_nat (d mod 10)).

Definition pad2 (n : Z) : string :=
  String (digit_char (n / 10)) (String (digit_char n) EmptyString).

Definition pad4 (n : Z) : string :=
  String (digit_char (n / 1000)) (String (digit_char (n / 100)) (pad2 n)).

(** [dt.strftime("%Y-%m-%dT%H:%M:%SZ")]; the years that occur have four
    digits. *)
Definition strftime (dt : Z) : string :=
  let '(y, m, d) := ord2ymd (dt / 86400) in
  let r := dt mod 86400 in
  (pad4 y ++ "-" ++ pad2 m ++ "-" ++ pad2 d ++ "T"
   ++ pad2 (r / 3600) ++ ":" ++ pad2 (r / 60 mod 60) ++ ":" ++ pad2 (r mod 60)
   ++ "Z")%string.

(** 1970-01-01T00:00:00 on the same time line. *)
Definition UNIX_EPOCH : Z := 719163 * 86400.

(** ** [int(str)] on text

    The characters are given by their code points, all below 256 here.  White
    space is stripped on both sides, one sign is allowed, and the digits may
    be separated by single underscores. *)

Definition is_py_space (c : Z) : bool :=
  ((9 <=? c) && (c <=? 13)) || (c =? 32) || (c =? 133) || (c =? 160).

Definition digit_of (c : Z) : option Z :=
  if (48 <=? c) && (c <=? 57) then Some (c - 48) else None.

Fixpoint strip_space (l : list Z) : list Z :=
  match l with
  | c :: t => if is_py_space c then strip_space t else l
  | [] => []
  end.

(** Called just after a digit: the rest of the digits, and what follows. *)
Fixpoint scan_digits (acc : Z) (l : list Z) : option (Z * list Z) :=
  match l with
  | [] => Some (acc, [])
  | c :: t =>
      match digit_of c with
      | Some d => scan_digits (acc * 10 + d) t
      | None =>
          if c =? 95
          then match t with
               | c2 :: t2 =>
                   match digit_of c2 with
                   | Some d2 => scan_digits (acc * 10 + d2) t2
                   | None => None
                   end
               | [] => None
               end
          else Some (acc, l)
      end
  end.

Definition py_int_unsigned (l : list Z) : option Z :=
  match l with
  | c :: t =>
      match digit_of c with
      | Some d =>
          match scan_digits d t with
          | Some (v, rest) =>
              match strip_space rest with
              | [] => Some v
              | _ => None
              end
          | None => None
          end
      | None => None
      end
  | [] => None
  end.

(** [int(s)]; [None] stands for [ValueError]. *)
Definition py_int (s : list Z) : option Z :=
  match strip_space s with
  | c :: t =>
      if c =? 43 then py_int_unsigned t
      else if c =? 45 then option_map Z.opp (py_int_unsigned t)
      else py_int_unsigned (c :: t)
  | [] => None
  end.

(** ** Floats read as reals *)

(** [x % y] on floats, for [0 < y]: the result has the sign of [y]. *)
Definition py_fmod (x y : R) : R := (x - y * IZR (Int_part (x / y)))%R.

(** [math.radians] and [math.degrees] *)
Definition radians (x : R) : R := (x * (PI / 180))%R.
Definition degrees (x : R) : R := (x * (180 / PI))%R.

(** [math.atan2 y x] *)
Definition atan2 (y x : R) : R :=
  if Rlt_dec 0 x then atan (y / x)
  else if Rlt_dec x 0
       then (if Rle_dec 0 y then atan (y / x) + PI else atan (y / x) - PI)%R
       else if Rlt_dec 0 y then (PI / 2)%R
            else if Rlt_dec y 0 then (- (PI / 2))%R
                 else 0%R.

(** ** Coordinates, speed and bearing *)

Definition fix_coordinates (hemisphere : string) (coordinate : R) (deobfuscate : bool) : R :=
  let coordinate :=
    if negb deobfuscate
    then
      let minutes := py_fmod coordinate 100 in
      let degrees := (coordinate - minutes)%R in
      (degrees / 100 + minutes / 60)%R
    else coordinate in
  if (hemisphere =? "S")%string || (hemisphere =? "W")%string
  then (-1 * coordinate)%R
  else coordinate.

Definition fix_speed (speed : R) : R := (speed * 0.514444)%R.

(** [correct_bearing] on integers, as the command line gives the correction
    and as the bearing is in the obfuscated variant. *)
Definition correct_bearing (bearing bearingCorrection : Z) : Z :=
  (bearing + bearingCorrection) mod 360.

(** The same function when the bearing is a float, as in the standard
    variant, in exact arithmetic: the result lies in [0, 360).  On floats
    the sum of a tiny negative remainder and 360 rounds to 360.0, so the
    program's result lies in [0, 360]; statements about the program use
    the closed bound. *)
Definition correct_bearing_float (bearing : R) (bearingCorrection : Z) : R :=
  py_fmod (bearing + IZR bearingCorrection) 360.

Definition deobfuscate_coord (latitude longitude : R) : R * R :=
  (((latitude - 187.98217) / 3)%R, ((longitude - 2199.19876) * 0.5)%R).

(** The module constants [R] (radius of the Earth, km) and [d] (one metre,
    km); the names are taken in Rocq by the reals and by binders. *)
Definition R_earth : R := 6378.1%R.
Definition d_km : R := 0.001%R.

Definition distance_position_if_bearingCorrection
    (lat1 lon1 bearing : R) (bearingCorrection : Z) : R * R :=
  if bearingCorrection =? 0 then (lat1, lon1)
  else
    let bearing2 := py_fmod (bearing + 180) 360 in
    let lat1rad := radians lat1 in
    let lon1rad := radians lon1 in
    let lat2rad :=
      asin (sin lat1rad * cos (d_km / R_earth)
            + cos lat1rad * sin (d_km / R_earth) * cos (radians bearing2))%R in
    let lon2rad :=
      (lon1rad + atan2 (sin (radians bearing2) * sin (d_km / R_earth) * cos lat1rad)
                       (cos (d_km / R_earth) - sin lat1rad * sin lat2rad))%R in
    let bearing3 := py_fmod (bearing + IZR bearingCorrection) 360 in
    let lat3rad :=
      asin (sin lat2rad * cos (d_km / R_earth)
            + cos lat2rad * sin (d_km / R_earth) * cos (radians bearing3))%R in
    let lon3rad :=
      (lon2rad + atan2 (sin (radians bearing3) * sin (d_km / R_earth) * cos lat2rad)
                       (cos (d_km / R_earth) - sin lat2rad * sin lat3rad))%R in
    (degrees lat3rad, degrees lon3rad).

(** ** The module-level decode state *)

Record Globals : Type := mkGlobals {
  previousLatitude : R;
  previousLongitude : R;
  videoStartTs : option Z;
  (** the start instant and the lead in seconds that the message is
      formatted from; [None] is the empty string *)
  videoStartTsInfo : option (Z * Z);
  videoStartWrongAtoms : Z
}.

(** The values the module gives its variables when it is loaded. *)
Definition initial_globals : Globals :=
  mkGlobals 0%R 0%R None None 0.

Definition set_previous (lat lon : R) (g : Globals) : Globals :=
  mkGlobals lat lon (videoStartTs g) (videoStartTsInfo g) (videoStartWrongAtoms g).

Definition set_videoStart (ts : Z) (g : Globals) : Globals :=
  mkGlobals (previousLatitude g) (previousLongitude g)
            (Some ts) (Some (ts, videoStartWrongAtoms g)) (videoStartWrongAtoms g).

Definition incr_wrong_atoms (g : Globals) : Globals :=
  mkGlobals (previousLatitude g) (previousLongitude g)
            (videoStartTs g) (videoStartTsInfo g) (videoStartWrongAtoms g + 1).

(** Computations over the globals that may raise. *)
Definition M (A : Type) : Type := Globals -> outcome A * Globals.

Definition ret {A : Type} (a : A) : M A := fun g => (Return a, g).

Definition raise {A : Type} (e : exn) : M A := fun g => (Raise e, g).

Definition bind {A B : Type} (m : M A) (k : A -> M B) : M B :=
  fun g =>
    match m g with
    | (Return a, g') => k a g'
    | (Raise e, g') => (Raise e, g')
    | (Diverge, g') => (Diverge, g')
    | (OutOfFuel, g') => (OutOfFuel, g')
    end.

Notation "x <- m ;; k" := (bind m (fun x => k))
  (at level 61, m at next level, right associativity).
Notation "' p <- m ;; k" := (bind m (fun x => let p := x in k))
  (at level 61, p pattern, m at next level, right associativity).

(** A [struct] read: [None] raises [struct.error]. *)
Definition unpacked {A : Type} (o : option A) : M A :=
  match o with
  | Some a => ret a
  | None => raise StructError
  end.

(** A [datetime] operation: its exception propagates. *)
Definition dated (r : exn + Z) : M Z :=
  match r with
  | inr t => ret t
  | inl e => raise e
  end.

(** A binary32 field: a finite value, or the edge of the model. *)
Definition finite (w : Z) : M R :=
  match f32_value w with
  | Some r => ret r
  | None => raise NonFinite
  end.

(** ** The far-enough filter *)

Definition minimalDistance : R := 0.005%R.

(** The distance in km that [isFrameFarEnoughFromPrevious] computes between
    two positions given in degrees. *)
Definition haversine_km (latA lonA latB lonB : R) : R :=
  let lat1 := radians latA in
  let lon1 := radians lonA in
  let lat2 := radians latB in
  let lon2 := radians lonB in
  let dlon := (lon2 - lon1)%R in
  let dlat := (lat2 - lat1)%R in
  let a := ((sin (dlat / 2)) ^ 2 + cos lat1 * cos lat2 * (sin (dlon / 2)) ^ 2)%R in
  let c := (2 * atan2 (sqrt a) (sqrt (1 - a)))%R in
  (R_earth * c)%R.

Definition isFrameFarEnoughFromPrevious (latitude longitude : R) : M string :=
  fun g =>
    if Req_dec_T (previousLatitude g) 0
    then (Return "Y"%string, set_previous latitude longitude g)
    else
      if Rgt_dec (haversine_km (previousLatitude g) (previousLongitude g)
                               latitude longitude) minimalDistance
      then (Return "Y"%string, set_previous latitude longitude g)
      else (Return "N"%string, g).

(** ** The decoded sample and the settings *)

(** The [gps] mapping that [get_gps_data] returns, with one field per leaf of
    the nested dictionary. *)
Record GPS : Type := mkGPS {
  Epoch : Z;
  Year : Z;
  Month : Z;
  Day : Z;
  Hour : Z;
  Minute : Z;
  Second : Z;
  DT : string;
  LatRaw : R;
  LatHemi : string;
  LatFloat : R;
  LonRaw : R;
  LonHemi : string;
  LonFloat : R;
  Speed : R;
  Bearing : R;
  FrameTimePosition : Z;
  FrameIsFarEnough : string
}.

(** The command-line options that reach the decoder and the filters, and
    the time zone of the machine, which [time.mktime] takes from the
    environment: [utc_offset dt] is the offset in seconds of the zone's
    standard time from UTC that is in force at the local time [dt].  A
    zone may change its standard offset, so the offset depends on the
    time. *)
Record Settings : Type := mkSettings {
  deobfuscate : bool;
  bearingCorrection : Z;
  doNotBearingDistance : bool;
  del_outliers : bool;
  del_duplicates : bool;
  utc_offset : Z -> Z
}.

(** [convert_to_epoch] of the text [strftime dt]: [time.strptime] reads back
    the six fields of a four-digit year with [tm_isdst = 0], and
    [time.mktime] takes them as local standard time at that date. *)
Definition convert_to_epoch (cfg : Settings) (dt : Z) : Z :=
  dt - UNIX_EPOCH - utc_offset cfg dt.

(** ** The payload decoder *)

Fixpoint bytes_eqb (a b : bytes) : bool :=
  match a, b with
  | [], [] => true
  | x :: a', y :: b' => Byte.eqb x y && bytes_eqb a' b'
  | _, _ => false
  end.

(** ['A'], then ['N'] or ['S'], then ['E'] or ['W']: the test of the loop in
    [get_gps_offset] on the three bytes it has unpacked.  A byte that does
    not decode stays a [bytes] value and equals no text. *)
Definition is_marker (active lon_hemi lat_hemi : byte) : bool :=
  match decode1 active, decode1 lon_hemi, decode1 lat_hemi with
  | Some a, Some n, Some e =>
      (a =? "A")%string
      && ((n =? "N")%string || (n =? "S")%string)
      && ((e =? "E")%string || (e =? "W")%string)
  | _, _, _ => false
  end.

(** The [while pointer > beginning] loop of [get_gps_offset]: the pointer
    at which it breaks, or [None] when it runs to its [else]. *)
Fixpoint scan_marker (data : bytes) (pointer : nat) : outcome (option Z) :=
  match pointer with
  | O => Return None
  | S p =>
      match unpack_from 3 unpack_sss data (Z.of_nat pointer) with
      | Some (active, lon_hemi, lat_hemi) =>
          if is_marker active lon_hemi lat_hemi
          then Return (Some (Z.of_nat pointer))
          else scan_marker data p
      | None => Raise StructError
      end
  end.

Definition get_gps_offset (data : bytes) : M Z :=
  fun g =>
    let pointer := len data - 20 in
    match scan_marker data (Z.to_nat pointer) with
    | Return (Some p) => (Return (p - 24), g)
    | Return None =>
        (Return (-1),
         match videoStartTs g with
         | None => incr_wrong_atoms g
         | Some _ => g
         end)
    | Raise e => (Raise e, g)
    | Diverge => (Diverge, g)
    | OutOfFuel => (OutOfFuel, g)
    end.

Definition xor_AA (b : byte) : Z := Z.lxor (byte_val b) 170.

(** [decode_azdome].  [videoStartTs] is assigned in the body without a
    [global] declaration, so it names a local variable there: once the date
    fields have parsed and formed a date, the test [videoStartTs is None]
    raises [UnboundLocalError], which [except ValueError] does not catch.
    The statements after that test are never reached; the function returns
    [None] or raises and does not touch the globals. *)
Definition decode_azdome (data : bytes) : outcome (option GPS) :=
  let payload := map xor_AA data in
  match py_int (slice 14 18 payload), py_int (slice 18 20 payload),
        py_int (slice 20 22 payload), py_int (slice 22 24 payload),
        py_int (slice 24 26 payload), py_int (slice 26 28 payload) with
  | Some y, Some mo, Some d, Some h, Some mi, Some s =>
      match datetime (y + 2000) mo d h mi s with
      | inr _ => Raise UnboundLocalError
      | inl ValueError => Return None
      | inl e => Raise e
      end
  | _, _, _, _, _, _ => Return None
  end.

(** The branch [if not azdome and offset >= 0] of [get_gps_data]. *)
Definition decode_standard (data : bytes) (offset : Z) (cfg : Settings)
  : M (option GPS) :=
  '(hour, minute, second) <-
     unpacked (unpack_from 12 unpack_III_le data offset) ;;
  let offset := offset + 3 * 4 in
  '(year, month, day) <-
     unpacked (unpack_from 12 unpack_III_le data offset) ;;
  let offset := offset + 3 * 4 in
  '(active, lat_hemi, lon_hemi) <-
     unpacked (unpack_from 3 unpack_sss data offset) ;;
  let offset := offset + 4 in
  '(lat_w, lon_w) <-
     unpacked (unpack_from 8 unpack_ff_le data offset) ;;
  lat_raw <- finite lat_w ;;
  lon_raw <- finite lon_w ;;
  let offset := offset + 2 * 4 in
  '(speed_w, bearing_w) <-
     unpacked (unpack_from 8 unpack_ff_le data offset) ;;
  speed <- finite speed_w ;;
  bearing <- finite bearing_w ;;
  match decode1 active, decode1 lat_hemi, decode1 lon_hemi with
  | Some _, Some lat_hemi, Some lon_hemi =>
      let '(lat_raw, lon_raw) :=
        if deobfuscate cfg then deobfuscate_coord lat_raw lon_raw
        else (lat_raw, lon_raw) in
      videoCurrentTs <- dated (datetime (year + 2000) month day hour minute second) ;;
      videoCurrentTs <- dated (datetime_sub videoCurrentTs 1) ;;
      start <- (fun g =>
                  match videoStartTs g with
                  | Some t => (Return t, g)
                  | None =>
                      match datetime_sub videoCurrentTs (videoStartWrongAtoms g) with
                      | inr t => (Return t, set_videoStart t g)
                      | inl e => (Raise e, g)
                      end
                  end) ;;
      let lat := fix_coordinates lat_hemi lat_raw (deobfuscate cfg) in
      let lon := fix_coordinates lon_hemi lon_raw (deobfuscate cfg) in
      far <- isFrameFarEnoughFromPrevious lat lon ;;
      let '(lat, lon) :=
        if negb (doNotBearingDistance cfg)
        then distance_position_if_bearingCorrection lat lon bearing (bearingCorrection cfg)
        else (lat, lon) in
      ret (Some {|
        Epoch := convert_to_epoch cfg videoCurrentTs;
        Year := year; Month := month; Day := day;
        Hour := hour; Minute := minute; Second := second;
        DT := strftime videoCurrentTs;
        LatRaw := lat_raw; LatHemi := lat_hemi; LatFloat := lat;
        LonRaw := lon_raw; LonHemi := lon_hemi; LonFloat := lon;
        Speed := fix_speed speed;
        Bearing := correct_bearing_float bearing (bearingCorrection cfg);
        FrameTimePosition := videoCurrentTs - start;
        FrameIsFarEnough := far |})
  | _, _, _ => ret None
  end.

Definition is_azdome_marker (b : byte) : bool :=
  Byte.eqb b x05 || Byte.eqb b xf0.

Definition get_gps_data (data : bytes) (cfg : Settings) : M (option GPS) :=
  offset <- get_gps_offset data ;;
  b0 <- unpacked (match data with b :: _ => Some b | [] => None end) ;;
  azdome <-
    (if is_azdome_marker b0
     then fun g =>
            match decode_azdome data with
            | Return (Some _) => (Return true, g)
            | Return None => (Return false, g)
            | Raise e => (Raise e, g)
            | Diverge => (Diverge, g)
            | OutOfFuel => (OutOfFuel, g)
            end
     else ret false) ;;
  if negb azdome && (0 <=? offset)
  then decode_standard data offset cfg
  else ret None.

(** ** The track filters *)

(** [calculate_speed]; [hav_h ** 0.5] is the square root, and dividing by a
    zero time difference raises the [ZeroDivisionError] that the function
    turns into [0.0]. *)
Definition calculate_speed (coord_dt1 coord_dt2 : R * R * Z) : R :=
  let '(lat1, lon1, dt1) := coord_dt1 in
  let '(lat2, lon2, dt2) := coord_dt2 in
  let lat1 := radians lat1 in
  let lon1 := radians lon1 in
  let lat2 := radians lat2 in
  let lon2 := radians lon2 in
  let earth_r := 6378100%R in
  let hav_lat := ((1 - cos (lat2 - lat1)) / 2)%R in
  let hav_lon := ((1 - cos (lon2 - lon1)) / 2)%R in
  let hav_h := (hav_lat + cos lat1 * cos lat2 * hav_lon)%R in
  let distance := (2 * earth_r * asin (sqrt hav_h))%R in
  if Z.abs (dt2 - dt1) =? 0 then 0%R
  else (distance / IZR (Z.abs (dt2 - dt1)))%R.

(** [list.sort()] on floats and on integers: insertion into an ordered
    list.  Equal numbers are the same value, so the result is the one a
    stable sort gives. *)
Fixpoint insert_R (x : R) (l : list R) : list R :=
  match l with
  | [] => [x]
  | y :: t => if Rle_dec x y then x :: l else y :: insert_R x t
  end.

Definition sort_R (l : list R) : list R := fold_right insert_R [] l.

Fixpoint insert_Z (x : Z) (l : list Z) : list Z :=
  match l with
  | [] => [x]
  | y :: t => if x <=? y then x :: l else y :: insert_Z x t
  end.

Definition sort_Z (l : list Z) : list Z := fold_right insert_Z [] l.

Definition point_of (p : GPS) : R * R * Z := (LatFloat p, LonFloat p, Epoch p).

(** The reference point of [remove_outliers]: the middle elements of the
    three sorted lists. *)
Definition mid_point (gps_data : list GPS) : R * R * Z :=
  let lats := sort_R (fold_left (fun acc item => acc ++ [LatFloat item]) gps_data []) in
  let lons := sort_R (fold_left (fun acc item => acc ++ [LonFloat item]) gps_data []) in
  let epochs := sort_Z (fold_left (fun acc item => acc ++ [Epoch item]) gps_data []) in
  (nth (List.length lats / 2) lats 0%R,
   nth (List.length lons / 2) lons 0%R,
   nth (List.length epochs / 2) epochs 0).

(** [remove_outliers].  Every item is a complete sample, so the [TypeError]
    handlers are not entered. *)
Definition remove_outliers (gps_data : list GPS) : list GPS :=
  match gps_data with
  | [] => gps_data
  | _ =>
      let mid := mid_point gps_data in
      fold_left
        (fun gps_data_filtered data_point =>
           let speed := calculate_speed mid (point_of data_point) in
           if Rgt_dec speed 1000 then gps_data_filtered
           else gps_data_filtered ++ [data_point])
        gps_data []
  end.

(** [GetCenterFromDegrees], for arrays of one length.  [merge_duplicates]
    calls it with two points or more; the branch for an empty array is not
    reached, and the division by the number of points has no meaning
    there. *)
Definition GetCenterFromDegrees (latArr lonArr : list R) : R * R :=
  let num_coords := INR (List.length latArr) in
  let '(X, Y, Z) :=
    fold_left
      (fun '(X, Y, Z) '(latd, lond) =>
         let lat := (latd * PI / 180)%R in
         let lon := (lond * PI / 180)%R in
         let a := (cos lat * cos lon)%R in
         let b := (cos lat * sin lon)%R in
         let c := sin lat in
         ((X + a)%R, (Y + b)%R, (Z + c)%R))
      (combine latArr lonArr) (0%R, 0%R, 0%R) in
  let X := (X / num_coords)%R in
  let Y := (Y / num_coords)%R in
  let Z := (Z / num_coords)%R in
  let lon := atan2 Y X in
  let hyp := sqrt (X * X + Y * Y) in
  let lat := atan2 Z hyp in
  ((lat * 180 / PI)%R, (lon * 180 / PI)%R).

(** [sum(l)] *)
Definition py_sum (l : list R) : R := fold_left Rplus l 0%R.

(** The dictionary of [merge_duplicates], in insertion order: the first
    loop appends the point to the list under its timestamp, or opens a new
    entry at the end. *)
Fixpoint dict_add (key : string) (data_point : GPS)
    (d : list (string * list GPS)) : list (string * list GPS) :=
  match d with
  | [] => [(key, [data_point])]
  | (k, values) :: rest =>
      if (k =? key)%string
      then (k, values ++ [data_point]) :: rest
      else (k, values) :: dict_add key data_point rest
  end.

Definition gps_data_dict (gps_data : list GPS) : list (string * list GPS) :=
  fold_left (fun d data_point => dict_add (DT data_point) data_point d) gps_data [].

(** The [else] branch of the second loop: the first member of the group
    with its position, speed, bearing and flag replaced. *)
Definition merge_group (center_data_point : GPS) (values : list GPS) : GPS :=
  let latArr := fold_left (fun acc v => acc ++ [LatFloat v]) values [] in
  let lonArr := fold_left (fun acc v => acc ++ [LonFloat v]) values [] in
  let speedArr := fold_left (fun acc v => acc ++ [Speed v]) values [] in
  let bearingArr := fold_left (fun acc v => acc ++ [Bearing v]) values [] in
  let frameIsFarEnough :=
    fold_left (fun f v => if (FrameIsFarEnough v =? "Y")%string then "Y"%string else f)
              values "N"%string in
  let '(latCenter, lonCenter) := GetCenterFromDegrees latArr lonArr in
  {| Epoch := Epoch center_data_point;
     Year := Year center_data_point; Month := Month center_data_point;
     Day := Day center_data_point; Hour := Hour center_data_point;
     Minute := Minute center_data_point; Second := Second center_data_point;
     DT := DT center_data_point;
     LatRaw := LatRaw center_data_point; LatHemi := LatHemi center_data_point;
     LatFloat := latCenter;
     LonRaw := LonRaw center_data_point; LonHemi := LonHemi center_data_point;
     LonFloat := lonCenter;
     Speed := (py_sum speedArr / INR (List.length speedArr))%R;
     Bearing := (py_sum bearingArr / INR (List.length bearingArr))%R;
     FrameTimePosition := FrameTimePosition center_data_point;
     FrameIsFarEnough := frameIsFarEnough |}.

(** [merge_duplicates].  Every entry of the dictionary holds at least one
    point, so the second loop meets no empty list. *)
Definition merge_duplicates (gps_data : list GPS) : list GPS :=
  match gps_data with
  | [] => gps_data
  | _ =>
      fold_left
        (fun gps_data_filtered '(key, values) =>
           match values with
           | [v] => gps_data_filtered ++ [v]
           | v0 :: _ => gps_data_filtered ++ [merge_group v0 values]
           | [] => gps_data_filtered
           end)
        (gps_data_dict gps_data) []
  end.

(** ** The container scanners

    The file object is its content; every [read] of the source follows a
    [seek] to the position given here, or a [read] that ended there, so the
    position needs no state of its own. *)

(** [in_fh.seek(pos, 0)] then [in_fh.read(n)] *)
Definition pread (content : bytes) (pos n : Z) : bytes :=
  ztake n (zskip pos content).

Definition b_moov : bytes := list_byte_of_string "moov".
Definition b_gps : bytes := list_byte_of_string "gps ".
Definition b_free : bytes := list_byte_of_string "free".
Definition b_GPS : bytes := list_byte_of_string "GPS ".

(** [get_atom_info]: the size and the four type bytes, or [(0, '')] on
    [struct.error].  The decoded type equals an ASCII literal exactly when
    its bytes do, and ['UNKNOWN'] equals neither ['moov'] nor ['gps ']; the
    model keeps the bytes. *)
Definition get_atom_info (eight_bytes : bytes) : Z * bytes :=
  match eight_bytes with
  | [s0; s1; s2; s3; t0; t1; t2; t3] => (be32 s0 s1 s2 s3, [t0; t1; t2; t3])
  | _ => (0, [])
  end.

(** [get_gps_atom_info]; [None] stands for the [struct.error] it lets
    through. *)
Definition get_gps_atom_info (eight_bytes : bytes) : option (Z * Z) :=
  match eight_bytes with
  | [p0; p1; p2; p3; s0; s1; s2; s3] => Some (be32 p0 p1 p2 p3, be32 s0 s1 s2 s3)
  | _ => None
  end.

(** ['>I4s4s'] at the start of a buffer *)
Definition unpack_I4s4s (data : bytes) : option (Z * bytes * bytes) :=
  match data with
  | s0 :: s1 :: s2 :: s3 :: t0 :: t1 :: t2 :: t3 :: m0 :: m1 :: m2 :: m3 :: _ =>
      Some (be32 s0 s1 s2 s3, [t0; t1; t2; t3], [m0; m1; m2; m3])
  | _ => None
  end.

Definition get_gps_atom (gps_atom_info : Z * Z) (content : bytes) (cfg : Settings)
  : M (option GPS) :=
  let '(atom_pos, atom_size) := gps_atom_info in
  if (atom_size =? 0) || (atom_pos =? 0) then ret None
  else
    let data := pread content atom_pos atom_size in
    '(atom_size1, atom_type, magic) <- unpacked (unpack_I4s4s data) ;;
    if negb (atom_size =? atom_size1) || negb (bytes_eqb atom_type b_free)
       || negb (bytes_eqb magic b_GPS)
    then ret None
    else get_gps_data (zskip 12 data) cfg.

(** The three loops of [parse_moov].  Each takes the number of rounds it
    may still run; [parse_moov] gives them more than a file of that length
    can use. *)
Fixpoint gps_entries (fuel : nat) (content : bytes) (cfg : Settings)
    (gps_offset stop : Z) (gps_data : list (option GPS)) : M (list (option GPS)) :=
  if gps_offset <? stop
  then
    match fuel with
    | O => fun g => (OutOfFuel, g)
    | S fuel' =>
        info <- unpacked (get_gps_atom_info (pread content gps_offset 8)) ;;
        data <- get_gps_atom info content cfg ;;
        gps_entries fuel' content cfg (gps_offset + 8) stop (gps_data ++ [data])
    end
  else ret gps_data.

(** A sub-atom of size zero leaves [sub_offset] and the file position where
    they were: the loop reads the same header for ever. *)
Fixpoint sub_atoms (fuel : nat) (content : bytes) (cfg : Settings)
    (sub_offset stop : Z) (gps_data : list (option GPS)) : M (list (option GPS)) :=
  if sub_offset <? stop
  then
    match fuel with
    | O => fun g => (OutOfFuel, g)
    | S fuel' =>
        let '(sub_atom_size, sub_atom_type) := get_atom_info (pread content sub_offset 8) in
        gps_data <-
          (if bytes_eqb sub_atom_type b_gps
           then gps_entries (S (List.length content)) content cfg
                            (16 + sub_offset) (sub_offset + sub_atom_size) gps_data
           else ret gps_data) ;;
        if sub_atom_size =? 0 then fun g => (Diverge, g)
        else sub_atoms fuel' content cfg (sub_offset + sub_atom_size) stop gps_data
    end
  else ret gps_data.

Fixpoint top_atoms (fuel : nat) (content : bytes) (cfg : Settings)
    (offset : Z) (gps_data : list (option GPS)) (is_moov : bool)
  : M (list (option GPS) * bool) :=
  let '(atom_size, atom_type) := get_atom_info (pread content offset 8) in
  if atom_size =? 0 then ret (gps_data, is_moov)
  else
    match fuel with
    | O => fun g => (OutOfFuel, g)
    | S fuel' =>
        '(gps_data, is_moov) <-
          (if bytes_eqb atom_type b_moov
           then
             gps_data <- sub_atoms (S (List.length content)) content cfg
                                   (offset + 8) (offset + atom_size) gps_data ;;
             ret (gps_data, true)
           else ret (gps_data, is_moov)) ;;
        top_atoms fuel' content cfg (offset + atom_size) gps_data is_moov
    end.

Definition parse_moov (content : bytes) (cfg : Settings)
  : M (list (option GPS) * bool) :=
  top_atoms (S (List.length content)) content cfg 0 [] false.

(** The packet loop of [parse_ts]. *)
Fixpoint ts_packets (fuel : nat) (content : bytes) (cfg : Settings)
    (position : Z) (partial : bytes) (gps_data : list (option GPS))
  : M (list (option GPS)) :=
  match fuel with
  | O => fun g => (OutOfFuel, g)
  | S fuel' =>
      let header := pread content position 4 in
      '(gps_data, partial) <-
        (if bytes_eqb (slice 1 3 header) [x43; x00]
            || bytes_eqb (slice 1 3 header) [x03; x00]
         then
           let frame := pread content (position + 4) 184 in
           if bytes_eqb (ztake 4 frame) [x00; x00; x01; xbf]
           then
             data <- get_gps_data frame cfg ;;
             match data with
             | Some _ => ret (gps_data ++ [data], partial)
             | None => ret (gps_data, last_bytes 14 frame)
             end
           else
             match partial with
             | [] => ret (gps_data, partial)
             | _ =>
                 first <- unpacked (match frame with b :: _ => Some b | [] => None end) ;;
                 let jump := byte_val first + 1 in
                 data <- get_gps_data (partial ++ zskip jump frame) cfg ;;
                 ret (gps_data ++ [data], [])
             end
         else ret (gps_data, partial)) ;;
      match header with
      | [] => ret gps_data
      | _ => ts_packets fuel' content cfg (position + 188) partial gps_data
      end
  end.

Definition parse_ts (content : bytes) (cfg : Settings)
  : M (list (option GPS) * bool) :=
  let test_sync_1 := pread content 0 1 in
  let test_sync_2 := pread content 188 1 in
  let test_sync_3 := pread content 376 1 in
  if bytes_eqb test_sync_1 test_sync_2 && bytes_eqb test_sync_2 test_sync_3
     && bytes_eqb test_sync_3 [x47]
  then
    gps_data <- ts_packets (S (S (List.length content))) content cfg 0 [] [] ;;
    ret (gps_data, true)
  else ret ([], false).

(** [list(filter(None, gps_data))] *)
Fixpoint filter_none (gps_data : list (option GPS)) : list GPS :=
  match gps_data with
  | [] => []
  | Some p :: t => p :: filter_none t
  | None :: t => filter_none t
  end.

Definition process_file (content : bytes) (cfg : Settings) : M (list GPS) :=
  '(gps_data, is_moov) <- parse_moov content cfg ;;
  gps_data <-
    (if is_moov then ret gps_data
     else '(gps_data, _) <- parse_ts content cfg ;; ret gps_data) ;;
  let out := filter_none gps_data in
  let out := if del_outliers cfg then remove_outliers out else out in
  let out := if del_duplicates cfg then merge_duplicates out else out in
  ret out.

(** The loop of [main] over the input files, in the order it takes them:
    the track of each file.  With [-m] each track is written to a file of
    its own; without it the tracks are concatenated. *)
Fixpoint process_files (in_files : list bytes) (cfg : Settings) : M (list (list GPS)) :=
  match in_files with
  | [] => ret []
  | in_file :: rest =>
      track <- process_file in_file cfg ;;
      tracks <- process_files rest cfg ;;
      ret (track :: tracks)
  end.

(** [sort_gps_data_by_dt]: [list.sort] with the key [Epoch].  The sort is
    stable, which fixes its result: the samples in ascending order of
    [Epoch], those with one [Epoch] in the order they had. *)
Fixpoint insert_by_epoch (p : GPS) (l : list GPS) : list GPS :=
  match l with
  | [] => [p]
  | q :: t => if Epoch p <=? Epoch q then p :: q :: t else q :: insert_by_epoch p t
  end.

Definition sort_gps_data_by_dt (gps_data : list GPS) : list GPS :=
  fold_right insert_by_epoch [] gps_data.

(** The branch of [main] without [-m]: the tracks of the input files, in
    the order the loop takes them, are concatenated, sorted when [-s d] is
    given, and written when there is a sample to write.  The result is the
    track handed to [write_if_gps_data] and the success it reports. *)
Definition main_single (in_files : list bytes) (cfg : Settings) (sort_by_d : bool)
  : M (list GPS * bool) :=
  tracks <- process_files in_files cfg ;;
  let gps_data := List.concat tracks in
  let gps_data := if sort_by_d then sort_gps_data_by_dt gps_data else gps_data in
  ret (gps_data, match gps_data with [] => false | _ => true end).

(** ** Sample inputs

    Builders for the byte layouts the scanner and the decoder read, and the
    files the worked examples run on. *)

Definition byte_of_Z (n : Z) : byte :=
  match Byte.of_N (Z.to_N (n mod 256)) with
  | Some b => b
  | None => x00
  end.

Definition le32_bytes (n : Z) : bytes :=
  [byte_of_Z n; byte_of_Z (n / 256); byte_of_Z (n / 65536); byte_of_Z (n / 16777216)].

Definition be32_bytes (n : Z) : bytes := rev (le32_bytes n).

(** A record of the standard variant: six little-endian integers, the
    marker, one byte of padding and four binary32 words. *)
Definition std_record (hour minute second year month day : Z) (marker : string)
    (lat_w lon_w speed_w bearing_w : Z) : bytes :=
  (le32_bytes hour ++ le32_bytes minute ++ le32_bytes second
   ++ le32_bytes year ++ le32_bytes month ++ le32_bytes day
   ++ list_byte_of_string marker ++ [x00]
   ++ le32_bytes lat_w ++ le32_bytes lon_w
   ++ le32_bytes speed_w ++ le32_bytes bearing_w)%list.

(** A ['free'] atom carrying the magic and one region. *)
Definition free_atom (region : bytes) : bytes :=
  (be32_bytes (12 + len region) ++ b_free ++ b_GPS ++ region)%list.

(** The entries of a gps descriptor for atoms laid out one after another
    from [pos]. *)
Fixpoint descriptor_entries (pos : Z) (atoms : list bytes) : bytes :=
  match atoms with
  | [] => []
  | a :: rest =>
      (be32_bytes pos ++ be32_bytes (len a) ++ descriptor_entries (pos + len a) rest)%list
  end.

(** An MP4 file: a ['moov'] atom holding one ['gps '] descriptor, then the
    atoms the descriptor names. *)
Definition mp4_file (atoms : list bytes) : bytes :=
  let n := len atoms in
  (be32_bytes (24 + 8 * n) ++ b_moov
   ++ be32_bytes (16 + 8 * n) ++ b_gps ++ le32_bytes 0 ++ be32_bytes n
   ++ descriptor_entries (24 + 8 * n) atoms
   ++ List.concat atoms)%list.

(** binary32 words of 4530.0, 1200.0, 1000.0, 10.0 and 90.0 *)
Definition w_4530 : Z := 0x458d9000.
Definition w_1200 : Z := 0x44960000.
Definition w_1000 : Z := 0x447a0000.
Definition w_10 : Z := 0x41200000.
Definition w_90 : Z := 0x42b40000.

(** 2023-07-24 12:00:30 at 45 deg 30' N, 12 deg E *)
Definition region_A : bytes :=
  std_record 12 0 30 23 7 24 "ANE" w_4530 w_1200 w_10 w_90.

(** One minute later at the same place *)
Definition region_B : bytes :=
  std_record 12 1 30 23 7 24 "ANE" w_4530 w_1200 w_10 w_90.

(** On the equator: 0 deg N, 10 deg E *)
Definition region_equator : bytes :=
  std_record 12 0 30 23 7 24 "ANE" 0 w_1000 w_10 w_90.

(** One second later at the same place on the equator *)
Definition region_equator_later : bytes :=
  std_record 12 0 31 23 7 24 "ANE" 0 w_1000 w_10 w_90.

(** A standard record whose hour is 5, so that its first byte is 0x05 *)
Definition region_five : bytes :=
  std_record 5 0 30 23 7 24 "ANE" w_4530 w_1200 w_10 w_90.

(** Forty-four bytes that start with 0x05 and hold no marker *)
Definition region_five_blank : bytes := x05 :: repeat x00 43.

(** Forty-four bytes with no marker in them *)
Definition region_blank : bytes := repeat x00 44.

Definition file_A : bytes := mp4_file [free_atom region_A].
Definition file_B : bytes := mp4_file [free_atom region_B].

(** Two samples at one place on the equator *)
Definition file_equator_twice : bytes :=
  mp4_file [free_atom region_equator; free_atom region_equator_later].

(** A file whose first region has no marker and whose second is [region_A] *)
Definition file_blank_A : bytes := mp4_file [free_atom region_blank; free_atom region_A].

(** A file whose descriptor names an eight-byte atom that is not ['free']:
    its size field reads 16 and its type ['mdat']. *)
Definition file_short_atom : bytes :=
  (be32_bytes 32 ++ b_moov
   ++ be32_bytes 24 ++ b_gps ++ le32_bytes 0 ++ be32_bytes 1
   ++ be32_bytes 32 ++ be32_bytes 8
   ++ be32_bytes 16 ++ list_byte_of_string "mdat")%list.

(** An atom like [free_atom region_A] but with the magic ['GPX '] *)
Definition wrong_magic_atom : bytes :=
  (be32_bytes (12 + len region_A) ++ b_free ++ list_byte_of_string "GPX "
   ++ region_A)%list.

(** A file whose first atom has the wrong magic and whose second is good *)
Definition file_wrong_magic_A : bytes :=
  mp4_file [wrong_magic_atom; free_atom region_A].

(** A sample with the given position, epoch, timestamp text, speed,
    bearing and flag; the fields no filter reads are zero. *)
Definition sample_at (lat lon : R) (epoch : Z) (dt : string)
    (speed bearing : R) (far : string) : GPS :=
  {| Epoch := epoch; Year := 0; Month := 0; Day := 0;
     Hour := 0; Minute := 0; Second := 0; DT := dt;
     LatRaw := 0%R; LatHemi := "N"; LatFloat := lat;
     LonRaw := 0%R; LonHemi := "E"; LonFloat := lon;
     Speed := speed; Bearing := bearing;
     FrameTimePosition := 0; FrameIsFarEnough := far |}.

(** Three samples whose latitudes and longitudes are ordered differently *)
Definition track_crossed : list GPS :=
  [ sample_at 1 30 100 "t1" 0 0 "Y";
    sample_at 2 10 200 "t2" 0 0 "Y";
    sample_at 3 20 300 "t3" 0 0 "Y" ]%R.

(** Two samples with one timestamp on either side of the antimeridian,
    and a third with a timestamp of its own *)
Definition track_antimeridian : list GPS :=
  [ sample_at 0 170 100 "t" 10 90 "N";
    sample_at 0 (-170) 100 "t" 20 100 "Y";
    sample_at 1 2 101 "u" 30 110 "N" ]%R.

(** The bytes that the XOR of [decode_azdome] turns into a text *)
Definition obfuscated (s : string) : bytes :=
  map (fun b => byte_of_Z (Z.lxor (byte_val b) 170)) (list_byte_of_string s).

(** A region with the marker byte 0x05 whose obfuscated date fields read
    2023-07-24 12:00:30 *)
Definition region_obfuscated_date : bytes :=
  (x05 :: repeat x00 13 ++ obfuscated "00230724120030")%list.

(** A standard record whose month field is 13 *)
Definition region_month_13 : bytes :=
  std_record 12 0 30 23 13 24 "ANE" w_4530 w_1200 w_10 w_90.

(** A file that ends after the header of its ['moov'] atom *)
Definition file_moov_header_only : bytes := (be32_bytes 1000 ++ b_moov)%list.

(** No bearing correction, no filters, local time UTC *)
Definition plain_settings : Settings :=
  mkSettings false 0 false false false (fun _ => 0).

(** A file whose one ['free'] atom is well formed and has no bytes after
    its magic: the region handed to the decoder is empty *)
Definition file_empty_region : bytes := mp4_file [free_atom []].

(** Forty-four bytes with the marker ten bytes in, too early for a
    record to lie before it *)
Definition region_early_marker : bytes :=
  (repeat x00 10 ++ list_byte_of_string "ANE" ++ repeat x00 31)%list.

(** A transport stream of three packets that carry no navigation data *)
Definition ts_idle_packet : bytes := x47 :: repeat x00 187.
Definition file_ts_idle : bytes :=
  (ts_idle_packet ++ ts_idle_packet ++ ts_idle_packet)%list.





(** ** Vocabulary of the properties *)

Definition southern_or_western (h : string) : bool :=
  ((h =? "S") || (h =? "W"))%string.

(** The largest angle of a hemisphere: 90 degrees of latitude, 180 of
    longitude. *)
Definition hemisphere_limit (h : string) : R :=
  if ((h =? "N") || (h =? "S"))%string then 90%R else 180%R.






(** The samples of a track that carry the timestamp text [k], in their
    order. *)
Definition members (k : string) (l : list GPS) : list GPS :=
  filter (fun p => (DT p =? k)%string) l.

(** The distinct elements of a list in the order of their first
    occurrence. *)
Fixpoint first_occurrences (ks : list string) : list string :=
  match ks with
  | [] => []
  | k :: t => k :: filter (fun x => negb (x =? k)%string) (first_occurrences t)
  end.

(** The distinct timestamp texts of a track. *)
Definition distinct_times (l : list GPS) : list string :=
  first_occurrences (map DT l).

(** What a group of samples with one timestamp becomes. *)
Definition merge_members (values : list GPS) : list GPS :=
  match values with
  | [] => []
  | [v] => [v]
  | v0 :: _ => [merge_group v0 values]
  end.

(** The point of the unit sphere at a latitude and a longitude given in
    degrees. *)
Definition unit_vector (latd lond : R) : R * R * R :=
  let lat := (latd * PI / 180)%R in
  let lon := (lond * PI / 180)%R in
  ((cos lat * cos lon)%R, (cos lat * sin lon)%R, sin lat).

Definition sum_R (l : list R) : R := fold_right Rplus 0%R l.

Definition mean (l : list R) : R := (sum_R l / INR (List.length l))%R.

(** The spherical centroid of positions in degrees: the mean of their
    unit vectors, turned back into a latitude and a longitude. *)
Definition spherical_centroid (pts : list (R * R)) : R * R :=
  let vs := map (fun pt => unit_vector (fst pt) (snd pt)) pts in
  let X := mean (map (fun v => fst (fst v)) vs) in
  let Y := mean (map (fun v => snd (fst v)) vs) in
  let Z := mean (map (fun v => snd v) vs) in
  ((atan2 Z (sqrt (X * X + Y * Y)) * 180 / PI)%R, (atan2 Y X * 180 / PI)%R).

Definition position (v : GPS) : R * R := (LatFloat v, LonFloat v).

(** Some member of the group is flagged far enough. *)
Definition any_far (values : list GPS) : bool :=
  existsb (fun v => (FrameIsFarEnough v =? "Y")%string) values.

(** [days_consistent count n]: on each of the [count] days from ordinal
    [n] on, [ord2ymd] gives a date of the calendar whose ordinal is that
    day. *)
Fixpoint days_consistent (count : nat) (n : Z) : bool :=
  match count with
  | O => true
  | S c =>
      (let '(y, m, d) := ord2ymd n in
       (ymd2ord y m d =? n) && (1 <=? m) && (m <=? 12)
       && (1 <=? d) && (d <=? days_in_month y m))
      && days_consistent c (n + 1)
  end.

(** The start of the video is kept from one state to a later one: once
    [videoStartTs] is set, it, its message and the count of failed regions
    stay as they are; before that the count does not go down. *)
Definition start_kept (g g' : Globals) : Prop :=
  match videoStartTs g with
  | Some t =>
      videoStartTs g' = Some t
      /\ videoStartTsInfo g' = videoStartTsInfo g
      /\ videoStartWrongAtoms g' = videoStartWrongAtoms g
  | None => videoStartWrongAtoms g <= videoStartWrongAtoms g'
  end.

(** A computation whose final state, whatever its outcome, is related to
    the state it started in. *)
Definition keeps (rel : Globals -> Globals -> Prop) {A : Type} (m : M A) : Prop :=
  forall g, rel g (snd (m g)).

(** The samples of a track with a given epoch, in their order. *)
Definition at_epoch (e : Z) (l : list GPS) : list GPS :=
  filter (fun p => Epoch p =? e) l.

(** A track in ascending order of epoch. *)
Definition by_epoch (p q : GPS) : Prop := Epoch p <= Epoch q.

(** A computation that never raises a given exception. *)
Definition never_raises (e : exn) {A : Type} (m : M A) : Prop :=
  forall g, fst (m g) <> Raise e.

(** The regions of a file decoded one after another, each from the state
    the one before left. *)
Fixpoint decode_regions (regions : list bytes) (cfg : Settings)
  : M (list (option GPS)) :=
  match regions with
  | [] => ret []
  | region :: rest =>
      data <- get_gps_data region cfg ;;
      more <- decode_regions rest cfg ;;
      ret (data :: more)
  end.



(** [laid_out content off pos regions]: from [off] on, the file holds one
    descriptor entry of eight bytes for each region, and from [pos] on,
    the ['free'] atoms the entries name, one after another. *)
Fixpoint laid_out (content : bytes) (off pos : Z) (regions : list bytes) : Prop :=
  match regions with
  | [] => True
  | region :: rest =>
      pread content off 8
      = (be32_bytes pos ++ be32_bytes (12 + len region))%list
      /\ pread content pos (12 + len region) = free_atom region
      /\ 0 < pos /\ pos + 12 + len region < 2 ^ 32
      /\ laid_out content (off + 8) (pos + 12 + len region) rest
  end.

(** A position on the globe in degrees. *)
Definition valid_position (p : GPS) : Prop :=
  (-90 <= LatFloat p <= 90)%R /\ (-180 <= LonFloat p <= 180)%R.

(** The settings with both track filters switched off. *)
Definition without_filters (cfg : Settings) : Settings :=
  mkSettings (deobfuscate cfg) (bearingCorrection cfg) (doNotBearingDistance cfg)
             false false (utc_offset cfg).

(** The track filters the settings ask for, outliers first. *)
Definition filtered (cfg : Settings) (track : list GPS) : list GPS :=
  let out := if del_outliers cfg then remove_outliers track else track in
  if del_duplicates cfg then merge_duplicates out else out.

(** [atom_chain content start off]: stepping from [start] by the size
    each atom header gives, none of them zero, one comes to [off].  This
    is the walk of the loops of [parse_moov] over the atoms of one
    level. *)
Inductive atom_chain (content : bytes) : Z -> Z -> Prop :=
| chain_here (off : Z) : atom_chain content off off
| chain_next (start off : Z) :
    fst (get_atom_info (pread content start 8)) <> 0 ->
    atom_chain content (start + fst (get_atom_info (pread content start 8))) off ->
    atom_chain content start off.

(** The scan meets a sub-atom of size zero: walking the top-level atoms
    from the start of the file it comes to a ['moov'] atom, and walking
    the sub-atoms of that atom it comes, before the end the atom's size
    gives, to a header whose size reads as zero. *)
Definition zero_size_sub_atom (content : bytes) : Prop :=
  exists offset atom_size off,
    atom_chain content 0 offset
    /\ get_atom_info (pread content offset 8) = (atom_size, b_moov)
    /\ atom_size <> 0
    /\ atom_chain content (offset + 8) off
    /\ off < offset + atom_size
    /\ fst (get_atom_info (pread content off 8)) = 0.

(** A computation that never loops for ever. *)
Definition halts {A : Type} (m : M A) : Prop :=
  forall g, fst (m g) <> Diverge.

(** A computation that never ends for lack of rounds. *)
Definition no_fuel {A : Type} (m : M A) : Prop :=
  forall g, fst (m g) <> OutOfFuel.

(** The byte of a region at a position. *)
Definition byte_at (data : bytes) (p : Z) : option byte :=
  if p <? 0 then None else nth_error data (Z.to_nat p).

(** The pattern the search looks for, read off the bytes: ['A'] at [p],
    ['N'] or ['S'] at [p + 1], ['E'] or ['W'] at [p + 2]. *)
Definition pattern_at (data : bytes) (p : Z) : bool :=
  match byte_at data p, byte_at data (p + 1), byte_at data (p + 2) with
  | Some a, Some n, Some e =>
      Byte.eqb a "A" && (Byte.eqb n "N" || Byte.eqb n "S")
      && (Byte.eqb e "E" || Byte.eqb e "W")
  | _, _, _ => false
  end.

(** The start of the video once a sample with time [ts] has been decoded:
    the start already recorded, or [ts] less the wrong atoms counted so
    far. *)
Definition started (g : Globals) (ts : Z) : Z :=
  match videoStartTs g with
  | Some t => t
  | None => ts - videoStartWrongAtoms g
  end.

(** The globals after a search that found nothing. *)
Definition after_failed_search (g : Globals) : Globals :=
  match videoStartTs g with
  | None => incr_wrong_atoms g
  | Some _ => g
  end.

(** ** Evaluating the decoder on given bytes

    [run] computes everything but the real numbers; the tests on reals that
    [isFrameFarEnoughFromPrevious] makes are then settled by the lemmas of
    the next section. *)

Ltac run :=
  lazy -[f32_real fix_coordinates fix_speed correct_bearing_float haversine_km
         isFrameFarEnoughFromPrevious deobfuscate_coord
         Rplus Rmult Ropp Rinv Rminus Rdiv IZR].

(** [run_file] computes a scan up to the calls of [get_gps_data];
    [decode_region tac] then evaluates the first such call, with [tac]
    settling the far-enough test, and puts its result in place. *)
Ltac run_file :=
  lazy -[get_gps_data f32_real fix_coordinates fix_speed correct_bearing_float
         haversine_km isFrameFarEnoughFromPrevious deobfuscate_coord
         Rplus Rmult Ropp Rinv Rminus Rdiv IZR].

Ltac decode_region tac :=
  match goal with
  | |- context [get_gps_data ?d ?c ?g] =>
      let H := fresh "H" in
      eassert (H : get_gps_data d c g = _);
      [ run; tac; run; reflexivity
      | rewrite H; clear H; run_file ]
  end.

(** Puts the names of the sample words back after a computation. *)
Ltac name_words :=
  try change (f32_real 1166905344) with (f32_real w_4530);
  try change (f32_real 1150681088) with (f32_real w_1200);
  try change (f32_real 1148846080) with (f32_real w_1000);
  try change (f32_real 1092616192) with (f32_real w_10);
  try change (f32_real 1119092736) with (f32_real w_90).

Ltac f32_eval :=
  cbv -[IZR powerRZ Rmult Ropp Rinv pow];
  cbv [powerRZ]; simpl Pos.to_nat; simpl pow; lra.

(* ================================================================== *)
(** * Part II: properties *)
(* ================================================================== *)

(** ** Arithmetic on reals used below *)

Lemma Int_part_shift (z : Z) (f : R) :
  (0 <= f < 1)%R -> Int_part (IZR z + f) = z.
Proof.
  intros Hf. symmetry. apply Int_part_spec. lra.
Qed.

Lemma py_fmod_small (y : R) (z : Z) (r : R) :
  (0 <= r < y)%R -> py_fmod (IZR z * y + r) y = r.
Proof.
  intros Hr. unfold py_fmod.
  assert (Hy : (0 < y)%R) by lra.
  replace ((IZR z * y + r) / y)%R with (IZR z + r / y)%R by (field; lra).
  rewrite Int_part_shift.
  - ring.
  - split.
    + apply Rmult_le_pos; [lra | left; apply Rinv_0_lt_compat; lra].
    + apply Rmult_lt_reg_r with y; [lra |].
      unfold Rdiv. rewrite Rmult_assoc, Rinv_l by lra. lra.
Qed.

Lemma py_fmod_range (x y : R) :
  (0 < y)%R -> (0 <= py_fmod x y < y)%R.
Proof.
  intros Hy. unfold py_fmod.
  destruct (base_Int_part (x / y)) as [H1 H2].
  assert (Hx : (x = x / y * y)%R) by (field; lra).
  set (q := IZR (Int_part (x / y))) in *.
  assert (H3 : (q * y <= x / y * y)%R) by (apply Rmult_le_compat_r; lra).
  assert (H4 : (x / y * y < (q + 1) * y)%R) by (apply Rmult_lt_compat_r; lra).
  rewrite <- Hx in H3, H4. lra.
Qed.

(** ** The calendar *)

(** From 1999-12-31, the day before the first date the decoder can
    assemble, to 2100-12-31, the date that [strftime] prints for a day is
    the date [datetime] builds that day from. *)
Lemma ord2ymd_inverts_ymd2ord :
  ymd2ord 1999 12 31 = 730119
  /\ ymd2ord 2100 12 31 = 730119 + 36890
  /\ days_consistent (Z.to_nat 36891) 730119 = true.
Proof. split; [| split]; vm_compute; reflexivity. Qed.

Example strftime_unix_epoch : strftime UNIX_EPOCH = "1970-01-01T00:00:00Z"%string.
Proof. reflexivity. Qed.

(** ** C9: bearing correction on integers *)

(** C9.  For an integer bearing [b] with [0 <= b < 360] and any integer
    correction [c], negative ones included, [correct_bearing b c] is
    [(b + c) mod 360]: the one number in [[0, 360)] that differs from
    [b + c] by a multiple of 360. *)
Theorem correct_bearing_is_modulus (b c : Z) :
  0 <= b < 360 ->
  correct_bearing b c = (b + c) mod 360
  /\ 0 <= correct_bearing b c < 360
  /\ (exists k, b + c = 360 * k + correct_bearing b c)
  /\ (forall r, 0 <= r < 360 -> (exists k, b + c = 360 * k + r) -> r = correct_bearing b c).
Proof.
  intros _. unfold correct_bearing.
  pose proof (Z.mod_pos_bound (b + c) 360 ltac:(lia)) as Hb.
  repeat split; try lia.
  - exists ((b + c) / 360). apply Z.div_mod. lia.
  - intros r Hr [k Hk].
    rewrite Hk, Z.add_comm, Z.mul_comm, Z.mod_add by lia.
    symmetry. apply Z.mod_small. lia.
Qed.

Lemma correct_bearing_is_modulus_witness :
  correct_bearing 10 (-30) = (10 + -30) mod 360
  /\ 0 <= correct_bearing 10 (-30) < 360
  /\ (exists k, 10 + -30 = 360 * k + correct_bearing 10 (-30))
  /\ (forall r, 0 <= r < 360 -> (exists k, 10 + -30 = 360 * k + r)
                -> r = correct_bearing 10 (-30)).
Proof.
  apply (correct_bearing_is_modulus 10 (-30)). lia.
Defined.

Example correct_bearing_rear_camera : correct_bearing 350 180 = 170.
Proof. reflexivity. Qed.

Example correct_bearing_negative : correct_bearing 10 (-30) = 340.
Proof. reflexivity. Qed.

(** On a bearing that is a whole number the float version computes the
    same value. *)
Lemma correct_bearing_float_integer (b c : Z) :
  correct_bearing_float (IZR b) c = IZR (correct_bearing b c).
Proof.
  unfold correct_bearing_float, correct_bearing.
  rewrite <- plus_IZR.
  rewrite (Z.div_mod (b + c) 360) at 1 by lia.
  pose proof (Z.mod_pos_bound (b + c) 360 ltac:(lia)) as Hb.
  rewrite plus_IZR, mult_IZR, (Rmult_comm (IZR 360)).
  apply py_fmod_small.
  split; [apply IZR_le | apply IZR_lt]; lia.
Qed.

(** ** C4: coordinate conversion *)

Lemma fix_coordinates_plain (h : string) (x : R) :
  fix_coordinates h x false
  = (if southern_or_western h
     then (- ((x - py_fmod x 100) / 100 + py_fmod x 100 / 60))%R
     else ((x - py_fmod x 100) / 100 + py_fmod x 100 / 60)%R).
Proof.
  unfold fix_coordinates, southern_or_western. cbn [negb].
  destruct ((h =? "S")%string || (h =? "W")%string); lra.
Qed.

(** C4, as stated, fails at 90 degrees 30 minutes north: the degrees are
    within [0, 90] and the minutes within [0, 60), and the function returns
    90.5. *)
Lemma fix_coordinates_beyond_pole :
  In "N"%string ["N"; "S"; "E"; "W"]%string
  /\ 0 <= 90 <= 90
  /\ (0 <= 30 < 60)%R
  /\ fix_coordinates "N" (IZR 90 * 100 + 30) false = 90.5%R
  /\ ~ (-90 <= fix_coordinates "N" (IZR 90 * 100 + 30) false <= 90)%R.
Proof.
  assert (H : fix_coordinates "N" (IZR 90 * 100 + 30) false = 90.5%R).
  { rewrite fix_coordinates_plain, py_fmod_small by lra.
    change (southern_or_western "N") with false. cbv iota. lra. }
  split; [left; reflexivity |].
  split; [lia |].
  split; [lra |].
  split; [exact H |].
  rewrite H. lra.
Qed.

(** C4, amended.  For a hemisphere letter and a raw value
    [DDD * 100 + MM] with [DDD] a non-negative whole number of degrees,
    [0 <= MM < 60] and the angle [DDD + MM / 60] within the range of the
    hemisphere, [fix_coordinates] without deobfuscation takes
    [raw mod 100] as the minutes and [raw - raw mod 100] as the degrees,
    returns [degrees / 100 + minutes / 60] negated exactly for ['S'] and
    ['W'], and the result lies in [[-90, 90]] for a latitude and in
    [[-180, 180]] for a longitude with the sign of the hemisphere. *)
Theorem fix_coordinates_in_range (h : string) (DDD : Z) (MM : R) :
  In h ["N"; "S"; "E"; "W"]%string ->
  0 <= DDD ->
  (0 <= MM < 60)%R ->
  (IZR DDD + MM / 60 <= hemisphere_limit h)%R ->
  let raw := (IZR DDD * 100 + MM)%R in
  let value := ((raw - py_fmod raw 100) / 100 + py_fmod raw 100 / 60)%R in
  py_fmod raw 100 = MM
  /\ (raw - py_fmod raw 100)%R = (IZR DDD * 100)%R
  /\ fix_coordinates h raw false
     = (if southern_or_western h then (- value)%R else value)
  /\ (- hemisphere_limit h <= fix_coordinates h raw false <= hemisphere_limit h)%R
  /\ (if southern_or_western h
      then (fix_coordinates h raw false <= 0)%R
      else (0 <= fix_coordinates h raw false)%R).
Proof.
  intros Hh HD HM Hlim raw value.
  assert (Hmod : py_fmod raw 100 = MM) by (apply py_fmod_small; lra).
  assert (Hval : value = (IZR DDD + MM / 60)%R).
  { unfold value. rewrite Hmod. unfold raw. field. }
  assert (Hpos : (0 <= value)%R).
  { rewrite Hval. apply IZR_le in HD. lra. }
  assert (Hfix : fix_coordinates h raw false
                 = (if southern_or_western h then (- value)%R else value)).
  { apply fix_coordinates_plain. }
  split; [exact Hmod |].
  split; [rewrite Hmod; unfold raw; ring |].
  split; [exact Hfix |].
  rewrite Hfix, <- Hval in *.
  assert (Hl : (0 <= hemisphere_limit h)%R) by lra.
  destruct (southern_or_western h); split; try split; lra.
Qed.

Lemma fix_coordinates_in_range_witness :
  let raw := (IZR 45 * 100 + 30)%R in
  let value := ((raw - py_fmod raw 100) / 100 + py_fmod raw 100 / 60)%R in
  py_fmod raw 100 = 30%R
  /\ (raw - py_fmod raw 100)%R = (IZR 45 * 100)%R
  /\ fix_coordinates "S" raw false
     = (if southern_or_western "S" then (- value)%R else value)
  /\ (- hemisphere_limit "S" <= fix_coordinates "S" raw false <= hemisphere_limit "S")%R
  /\ (if southern_or_western "S"
      then (fix_coordinates "S" raw false <= 0)%R
      else (0 <= fix_coordinates "S" raw false)%R).
Proof.
  apply (fix_coordinates_in_range "S" 45 30).
  - right; left; reflexivity.
  - lia.
  - lra.
  - unfold hemisphere_limit. simpl. lra.
Defined.

(** ** The numbers in the sample records *)

Lemma f32_real_zero : f32_real 0 = 0%R.
Proof. unfold f32_real. f32_eval. Qed.

Lemma f32_real_1000 : f32_real w_1000 = 1000%R.
Proof. unfold f32_real, w_1000. f32_eval. Qed.

Lemma f32_real_1200 : f32_real w_1200 = 1200%R.
Proof. unfold f32_real, w_1200. f32_eval. Qed.

Lemma f32_real_4530 : f32_real w_4530 = 4530%R.
Proof. unfold f32_real, w_4530. f32_eval. Qed.

Lemma latitude_equator : fix_coordinates "N" (f32_real 0) false = 0%R.
Proof.
  rewrite f32_real_zero, fix_coordinates_plain.
  pose proof (py_fmod_small 100 0 0 ltac:(lra)) as H.
  replace (IZR 0 * 100 + 0)%R with 0%R in H by lra.
  rewrite H.
  change (southern_or_western "N") with false. cbv iota. lra.
Qed.

Lemma longitude_ten_east : fix_coordinates "E" (f32_real w_1000) false = 10%R.
Proof.
  rewrite f32_real_1000, fix_coordinates_plain.
  replace 1000%R with (IZR 10 * 100 + 0)%R by lra.
  rewrite py_fmod_small by lra.
  change (southern_or_western "E") with false. cbv iota. lra.
Qed.

Lemma latitude_45_30_north : fix_coordinates "N" (f32_real w_4530) false = 45.5%R.
Proof.
  rewrite f32_real_4530, fix_coordinates_plain.
  replace 4530%R with (IZR 45 * 100 + 30)%R by lra.
  rewrite py_fmod_small by lra.
  change (southern_or_western "N") with false. cbv iota. lra.
Qed.

Lemma longitude_12_east : fix_coordinates "E" (f32_real w_1200) false = 12%R.
Proof.
  rewrite f32_real_1200, fix_coordinates_plain.
  replace 1200%R with (IZR 12 * 100 + 0)%R by lra.
  rewrite py_fmod_small by lra.
  change (southern_or_western "E") with false. cbv iota. lra.
Qed.

(** ** C5: the far-enough filter *)

Lemma atan2_zero_one : atan2 0 1 = 0%R.
Proof.
  unfold atan2. destruct (Rlt_dec 0 1) as [_ | n]; [| exfalso; lra].
  replace (0 / 1)%R with 0%R by field. apply atan_0.
Qed.

(** The distance from a position to itself is zero. *)
Lemma haversine_km_same (lat lon : R) : haversine_km lat lon lat lon = 0%R.
Proof.
  unfold haversine_km.
  replace (radians lat - radians lat)%R with 0%R by ring.
  replace (radians lon - radians lon)%R with 0%R by ring.
  replace (0 / 2)%R with 0%R by field.
  rewrite sin_0.
  replace (0 ^ 2 + cos (radians lat) * cos (radians lat) * 0 ^ 2)%R with 0%R by ring.
  rewrite sqrt_0, Rminus_0_r, sqrt_1, atan2_zero_one. ring.
Qed.

(** While [previousLatitude] is zero the sample is flagged and adopted. *)
Lemma far_enough_first (lat lon : R) (g : Globals) :
  previousLatitude g = 0%R ->
  isFrameFarEnoughFromPrevious lat lon g
  = (Return "Y"%string, set_previous lat lon g).
Proof.
  intros H. unfold isFrameFarEnoughFromPrevious.
  destruct (Req_dec_T (previousLatitude g) 0) as [_ | n]; [reflexivity | contradiction].
Qed.

(** Once [previousLatitude] is not zero, the flag is ["Y"] exactly when the
    haversine distance from the previous accepted position exceeds
    [minimalDistance]; the position is adopted then and kept otherwise. *)
Lemma far_enough_next (lat lon : R) (g : Globals) :
  previousLatitude g <> 0%R ->
  let distance := haversine_km (previousLatitude g) (previousLongitude g) lat lon in
  ((distance > minimalDistance)%R ->
     isFrameFarEnoughFromPrevious lat lon g
     = (Return "Y"%string, set_previous lat lon g))
  /\ (~ (distance > minimalDistance)%R ->
     isFrameFarEnoughFromPrevious lat lon g = (Return "N"%string, g)).
Proof.
  intros H distance. unfold isFrameFarEnoughFromPrevious. fold distance.
  destruct (Req_dec_T (previousLatitude g) 0) as [e | _]; [contradiction |].
  destruct (Rgt_dec distance minimalDistance) as [d | d]; split; intros; tauto.
Qed.

(** A sample at the previous accepted position, off the equator, is
    flagged ["N"] and changes nothing. *)
Lemma far_enough_same_place (g : Globals) :
  previousLatitude g <> 0%R ->
  isFrameFarEnoughFromPrevious (previousLatitude g) (previousLongitude g) g
  = (Return "N"%string, g).
Proof.
  intros H. apply far_enough_next; [exact H |].
  rewrite haversine_km_same. unfold minimalDistance. lra.
Qed.

(** C5, where the code departs from it.  A file with two samples one second
    apart at 0 deg N, 10 deg E: the first is flagged ["Y"], and so is the
    second, at distance zero from the first, because the latitude it
    left in [previousLatitude] is the value that means "no previous
    position". *)
Theorem far_enough_repeats_on_equator :
  exists s1 s2 g,
    process_file file_equator_twice plain_settings initial_globals
    = (Return [s1; s2], g)
    /\ LatFloat s1 = 0%R /\ LonFloat s1 = 10%R
    /\ LatFloat s2 = 0%R /\ LonFloat s2 = 10%R
    /\ FrameIsFarEnough s1 = "Y"%string
    /\ FrameIsFarEnough s2 = "Y"%string
    /\ haversine_km (LatFloat s1) (LonFloat s1) (LatFloat s2) (LonFloat s2) = 0%R.
Proof.
  do 3 eexists. split.
  - run_file.
    decode_region ltac:(rewrite far_enough_first by reflexivity).
    decode_region ltac:(rewrite far_enough_first by exact latitude_equator).
    reflexivity.
  - cbn [LatFloat LonFloat FrameIsFarEnough]. name_words.
    rewrite latitude_equator, longitude_ten_east, haversine_km_same.
    repeat split; reflexivity.
Qed.

(** ** C2: the marker search *)

Lemma zskip_nth_error {A : Type} (l : list A) :
  forall n k, 0 <= n -> nth_error (zskip n l) k = nth_error l (Z.to_nat n + k).
Proof.
  induction l as [| x t IH]; intros n k Hn.
  - cbn. destruct k, (Z.to_nat n + _)%nat; reflexivity.
  - cbn [zskip]. destruct (n <=? 0) eqn:E.
    + apply Z.leb_le in E. replace n with 0 by lia. reflexivity.
    + apply Z.leb_gt in E. rewrite IH by lia.
      replace (Z.to_nat n) with (S (Z.to_nat (n - 1))) by lia. reflexivity.
Qed.

Lemma ztake_three {A : Type} (l : list A) (a b c : A) :
  nth_error l 0 = Some a -> nth_error l 1 = Some b -> nth_error l 2 = Some c ->
  ztake 3 l = [a; b; c].
Proof.
  destruct l as [| x [| y [| z t]]]; cbn; try discriminate.
  intros [= ->] [= ->] [= ->]. destruct t; reflexivity.
Qed.

Lemma byte_at_some (data : bytes) (p : Z) :
  0 <= p < len data -> exists b, byte_at data p = Some b.
Proof.
  intros H. unfold byte_at, len in *.
  destruct (p <? 0) eqn:E; [apply Z.ltb_lt in E; lia |].
  destruct (nth_error data (Z.to_nat p)) eqn:N; [eauto |].
  apply nth_error_None in N. lia.
Qed.

(** What the search unpacks at a pointer inside the region. *)
Lemma unpack_sss_at (data : bytes) (p : Z) :
  0 <= p -> p + 3 <= len data ->
  exists a n e,
    byte_at data p = Some a /\ byte_at data (p + 1) = Some n
    /\ byte_at data (p + 2) = Some e
    /\ unpack_from 3 unpack_sss data p = Some (a, n, e).
Proof.
  intros H0 H3.
  destruct (byte_at_some data p ltac:(lia)) as [a Ha].
  destruct (byte_at_some data (p + 1) ltac:(lia)) as [n Hn].
  destruct (byte_at_some data (p + 2) ltac:(lia)) as [e He].
  exists a, n, e. repeat split; try assumption.
  unfold unpack_from, bytes_at.
  replace (p <? 0) with false by (symmetry; apply Z.ltb_ge; lia).
  replace ((0 <=? p) && (p + 3 <=? len data)) with true
    by (symmetry; apply andb_true_iff; split; apply Z.leb_le; lia).
  unfold byte_at in *.
  replace (p <? 0) with false in Ha by (symmetry; apply Z.ltb_ge; lia).
  replace (p + 1 <? 0) with false in Hn by (symmetry; apply Z.ltb_ge; lia).
  replace (p + 2 <? 0) with false in He by (symmetry; apply Z.ltb_ge; lia).
  rewrite (ztake_three (zskip p data) a n e); [reflexivity | | |];
    rewrite zskip_nth_error by lia.
  - rewrite Nat.add_0_r. exact Ha.
  - replace (Z.to_nat p + 1)%nat with (Z.to_nat (p + 1)) by lia. exact Hn.
  - replace (Z.to_nat p + 2)%nat with (Z.to_nat (p + 2)) by lia. exact He.
Qed.

(** The test on decoded text agrees with the test on bytes. *)
Lemma is_marker_bytes (a n e : byte) :
  is_marker a n e
  = Byte.eqb a "A" && (Byte.eqb n "N" || Byte.eqb n "S")
    && (Byte.eqb e "E" || Byte.eqb e "W").
Proof.
  assert (HA : forall b, match decode1 b with
                         | Some t => (t =? "A")%string | None => false end
                         = Byte.eqb b "A") by (intros b; destruct b; reflexivity).
  assert (HN : forall b, match decode1 b with
                         | Some t => ((t =? "N") || (t =? "S"))%string | None => false end
                         = (Byte.eqb b "N" || Byte.eqb b "S"))
    by (intros b; destruct b; reflexivity).
  assert (HE : forall b, match decode1 b with
                         | Some t => ((t =? "E") || (t =? "W"))%string | None => false end
                         = (Byte.eqb b "E" || Byte.eqb b "W"))
    by (intros b; destruct b; reflexivity).
  unfold is_marker. rewrite <- (HA a), <- (HN n), <- (HE e).
  destruct (decode1 a), (decode1 n), (decode1 e); cbn;
    rewrite ?andb_false_r; reflexivity.
Qed.

(** The loop returns the highest pointer at or below its start that holds
    the pattern, or runs out; it never raises. *)
Lemma scan_marker_highest (data : bytes) :
  forall n : nat,
    n = O \/ Z.of_nat n + 3 <= len data ->
    ((forall q, 0 < q <= Z.of_nat n -> pattern_at data q = false)
     /\ scan_marker data n = Return None)
    \/ (exists p, 0 < p <= Z.of_nat n
                  /\ pattern_at data p = true
                  /\ (forall q, p < q <= Z.of_nat n -> pattern_at data q = false)
                  /\ scan_marker data n = Return (Some p)).
Proof.
  induction n as [| n IH]; intros Hn.
  - left. split; [intros q Hq; lia | reflexivity].
  - destruct Hn as [Hn | Hn]; [discriminate |].
    destruct (unpack_sss_at data (Z.of_nat (S n)) ltac:(lia) Hn)
      as (a & b & c & Ha & Hb & Hc & Hu).
    assert (Hpat : pattern_at data (Z.of_nat (S n)) = is_marker a b c).
    { unfold pattern_at. rewrite Ha, Hb, Hc. symmetry. apply is_marker_bytes. }
    cbn [scan_marker]. rewrite Hu.
    destruct (is_marker a b c) eqn:E.
    + right. exists (Z.of_nat (S n)).
      split; [lia |]. split; [rewrite Hpat; reflexivity |].
      split; [intros q Hq; lia | reflexivity].
    + destruct (IH ltac:(lia)) as [[Hall Hs] | (p & Hp & Hpp & Hq & Hs)].
      * left. split; [| exact Hs].
        intros q Hq. destruct (Z.eq_dec q (Z.of_nat (S n))) as [-> | Hne];
          [assumption | apply Hall; lia].
      * right. exists p.
        split; [lia |]. split; [exact Hpp |]. split; [| exact Hs].
        intros q Hq'. destruct (Z.eq_dec q (Z.of_nat (S n))) as [-> | Hne];
          [assumption | apply Hq; lia].
Qed.

Lemma search_start (data : bytes) :
  Z.to_nat (len data - 20) = O
  \/ Z.of_nat (Z.to_nat (len data - 20)) + 3 <= len data.
Proof. lia. Qed.

Lemma get_gps_offset_found (data : bytes) (g : Globals) (p : Z) :
  0 < p <= len data - 20 ->
  pattern_at data p = true ->
  (forall q, p < q <= len data - 20 -> pattern_at data q = false) ->
  get_gps_offset data g = (Return (p - 24), g).
Proof.
  intros Hp Hpat Hhigh. unfold get_gps_offset.
  destruct (scan_marker_highest data _ (search_start data))
    as [[Hall Hs] | (p' & Hp' & Hpat' & Hq & Hs)]; rewrite Hs.
  - rewrite Hall in Hpat by lia. discriminate.
  - assert (p' = p).
    { destruct (Z.lt_trichotomy p p') as [H | [H | H]]; [| auto |].
      - rewrite Hhigh in Hpat' by lia. discriminate.
      - rewrite Hq in Hpat by lia. discriminate. }
    subst. reflexivity.
Qed.

Lemma get_gps_offset_not_found (data : bytes) (g : Globals) :
  (forall q, 0 < q <= len data - 20 -> pattern_at data q = false) ->
  get_gps_offset data g = (Return (-1), after_failed_search g).
Proof.
  intros Hnone. unfold get_gps_offset.
  destruct (scan_marker_highest data _ (search_start data))
    as [[Hall Hs] | (p' & Hp' & Hpat' & Hq & Hs)]; rewrite Hs.
  - reflexivity.
  - rewrite Hnone in Hpat' by lia. discriminate.
Qed.

(** The search always returns. *)
Lemma get_gps_offset_returns (data : bytes) (g : Globals) :
  exists offset g', get_gps_offset data g = (Return offset, g').
Proof.
  unfold get_gps_offset.
  destruct (scan_marker_highest data _ (search_start data))
    as [[Hall Hs] | (p' & Hp' & Hpat' & Hq & Hs)]; rewrite Hs; eauto.
Qed.

(** On a region of the standard variant [get_gps_data] is the search
    followed by the standard decode at a non-negative offset. *)
Lemma get_gps_data_standard (b : byte) (rest : bytes) (cfg : Settings)
    (g g' : Globals) (offset : Z) :
  is_azdome_marker b = false ->
  get_gps_offset (b :: rest) g = (Return offset, g') ->
  get_gps_data (b :: rest) cfg g
  = if 0 <=? offset then decode_standard (b :: rest) offset cfg g'
    else (Return None, g').
Proof.
  intros Hb Ho. unfold get_gps_data, bind at 1. rewrite Ho.
  unfold unpacked, bind at 1, ret at 1.
  rewrite Hb. unfold bind at 1, ret at 1. cbn [negb andb].
  destruct (0 <=? offset); reflexivity.
Qed.

(** What the search does on every region: it finds the highest position
    [p] in the scanned range [0 < p <= len - 20] that holds ['A'], then
    ['N'] or ['S'], then ['E'] or ['W'], and returns [p - 24]; a region of
    the standard variant is then decoded from offset [p - 24].  When no
    position in the range holds the pattern the search returns -1 and the
    wrong-atom counter grows by one exactly when [videoStartTs] is still
    unset; a region that has a first byte, of the standard variant, then
    yields no sample, without an exception.  The region with no byte is
    the subject of [empty_region_is_fatal]. *)
Theorem marker_search (data : bytes) (cfg : Settings) (g : Globals) :
  (forall p,
      0 < p <= len data - 20 ->
      pattern_at data p = true ->
      (forall q, p < q <= len data - 20 -> pattern_at data q = false) ->
      get_gps_offset data g = (Return (p - 24), g)
      /\ (forall b rest, data = b :: rest -> is_azdome_marker b = false ->
            24 <= p ->
            get_gps_data data cfg g = decode_standard data (p - 24) cfg g))
  /\ ((forall q, 0 < q <= len data - 20 -> pattern_at data q = false) ->
      get_gps_offset data g = (Return (-1), after_failed_search g)
      /\ (videoStartWrongAtoms (after_failed_search g) = videoStartWrongAtoms g + 1
          <-> videoStartTs g = None)
      /\ (videoStartTs g <> None -> after_failed_search g = g)
      /\ (forall b rest, data = b :: rest -> is_azdome_marker b = false ->
            get_gps_data data cfg g = (Return None, after_failed_search g)))
  /\ (exists offset g', get_gps_offset data g = (Return offset, g')).
Proof.
  split; [| split].
  - intros p Hp Hpat Hhigh.
    pose proof (get_gps_offset_found data g p Hp Hpat Hhigh) as Ho.
    split; [exact Ho |].
    intros b rest -> Hb H24.
    rewrite (get_gps_data_standard b rest cfg g g (p - 24) Hb Ho).
    replace (0 <=? p - 24) with true by (symmetry; apply Z.leb_le; lia).
    reflexivity.
  - intros Hnone.
    pose proof (get_gps_offset_not_found data g Hnone) as Ho.
    split; [exact Ho |]. split; [| split].
    + unfold after_failed_search. destruct (videoStartTs g); cbn; split;
        intros; try discriminate; try lia; reflexivity.
    + unfold after_failed_search. destruct (videoStartTs g); [reflexivity | congruence].
    + intros b rest -> Hb.
      rewrite (get_gps_data_standard b rest cfg g _ (-1) Hb Ho). reflexivity.
  - apply get_gps_offset_returns.
Qed.

(** Reading the loop backwards: what it returns says where the pattern
    is. *)
Lemma no_pattern_by_scan (data : bytes) :
  scan_marker data (Z.to_nat (len data - 20)) = Return None ->
  forall q, 0 < q <= len data - 20 -> pattern_at data q = false.
Proof.
  intros Hs q Hq.
  destruct (scan_marker_highest data _ (search_start data))
    as [[Hall _] | (p & _ & _ & _ & Hs')].
  - apply Hall. lia.
  - rewrite Hs in Hs'. discriminate.
Qed.

Lemma highest_pattern_by_scan (data : bytes) (p : Z) :
  scan_marker data (Z.to_nat (len data - 20)) = Return (Some p) ->
  0 < p <= len data - 20
  /\ pattern_at data p = true
  /\ (forall q, p < q <= len data - 20 -> pattern_at data q = false).
Proof.
  intros Hs.
  destruct (scan_marker_highest data _ (search_start data))
    as [[_ Hs'] | (p' & Hp & Hpat & Hq & Hs')]; rewrite Hs in Hs'.
  - discriminate.
  - injection Hs' as <-. repeat split; try lia; try assumption.
    intros q Hq'. apply Hq. lia.
Qed.

Lemma marker_search_witness :
  (get_gps_offset region_A initial_globals = (Return (24 - 24), initial_globals)
   /\ get_gps_data region_A plain_settings initial_globals
      = decode_standard region_A (24 - 24) plain_settings initial_globals)
  /\ (get_gps_offset region_blank initial_globals
      = (Return (-1), after_failed_search initial_globals)
      /\ videoStartWrongAtoms (after_failed_search initial_globals) = 1
      /\ get_gps_data region_blank plain_settings initial_globals
         = (Return None, after_failed_search initial_globals)).
Proof.
  split.
  - destruct (marker_search region_A plain_settings initial_globals) as [HA _].
    destruct (highest_pattern_by_scan region_A 24 eq_refl) as (Hp & Hpat & Hq).
    destruct (HA 24 Hp Hpat Hq) as [Ho Hd].
    split; [exact Ho |].
    exact (Hd _ _ eq_refl eq_refl ltac:(lia)).
  - destruct (marker_search region_blank plain_settings initial_globals)
      as [_ [HB _]].
    destruct (HB (no_pattern_by_scan region_blank eq_refl)) as (Ho & _ & _ & Hd).
    split; [exact Ho |]. split; [reflexivity |].
    exact (Hd _ _ eq_refl eq_refl).
Defined.

(** ** Reading a returned value backwards through the monad *)

Lemma bind_return {A B : Type} (m : M A) (k : A -> M B) (g : Globals)
    (b : B) (g' : Globals) :
  bind m k g = (Return b, g') ->
  exists a g1, m g = (Return a, g1) /\ k a g1 = (Return b, g').
Proof.
  unfold bind. destruct (m g) as [[a | e | |] g1]; try discriminate. eauto.
Qed.

Lemma unpacked_return {A : Type} (o : option A) (g : Globals) (a : A) (g' : Globals) :
  unpacked o g = (Return a, g') -> o = Some a /\ g' = g.
Proof.
  destruct o; cbn; unfold ret, raise; intros [= ]; subst; auto.
Qed.

Lemma dated_return (r : exn + Z) (g : Globals) (t : Z) (g' : Globals) :
  dated r g = (Return t, g') -> r = inr t /\ g' = g.
Proof.
  destruct r; cbn; unfold ret, raise; intros [= ]; subst; auto.
Qed.

Lemma finite_return (w : Z) (g : Globals) (r : R) (g' : Globals) :
  finite w g = (Return r, g') -> f32_value w = Some r /\ g' = g.
Proof.
  unfold finite.
  destruct (f32_value w); cbn; unfold ret, raise; intros [= ]; subst; auto.
Qed.

Ltac bind_step H :=
  let a := fresh "a" in
  let g := fresh "g" in
  let H1 := fresh "H" in
  apply bind_return in H as (a & g & H1 & H);
  first [ apply unpacked_return in H1 as [H1 ->]
        | apply dated_return in H1 as [H1 ->]
        | apply finite_return in H1 as [H1 ->]
        | idtac ].

(** The filter always returns, and touches only the previous position. *)
Lemma far_enough_returns (lat lon : R) (g : Globals) :
  exists far g',
    isFrameFarEnoughFromPrevious lat lon g = (Return far, g')
    /\ videoStartTs g' = videoStartTs g
    /\ videoStartTsInfo g' = videoStartTsInfo g
    /\ videoStartWrongAtoms g' = videoStartWrongAtoms g.
Proof.
  unfold isFrameFarEnoughFromPrevious.
  destruct (Req_dec_T _ _); [| destruct (Rgt_dec _ _)]; eauto 10.
Qed.

(** ** C3: timestamps of the standard variant *)

(** What a sample returned by the standard decode says about the bytes it
    was read from and about the start of the video. *)
Lemma decode_standard_some (data : bytes) (offset : Z) (cfg : Settings)
    (g : Globals) (s : GPS) (g' : Globals) :
  decode_standard data offset cfg g = (Return (Some s), g') ->
  exists ts,
    unpack_from 12 unpack_III_le data offset = Some (Hour s, Minute s, Second s)
    /\ unpack_from 12 unpack_III_le data (offset + 12) = Some (Year s, Month s, Day s)
    /\ datetime (Year s + 2000) (Month s) (Day s) (Hour s) (Minute s) (Second s)
       = inr (ts + 1)
    /\ DT s = strftime ts
    /\ videoStartTs g' = Some (started g ts)
    /\ FrameTimePosition s = ts - started g ts
    /\ videoStartWrongAtoms g' = videoStartWrongAtoms g.
Proof.
  intros H. unfold decode_standard in H.
  bind_step H. destruct a as [[hour minute] second].
  bind_step H. destruct a as [[year month] day].
  bind_step H. destruct a as [[active lat_hemi] lon_hemi].
  bind_step H. destruct a as [lat_w lon_w].
  bind_step H. bind_step H.
  bind_step H. destruct a1 as [speed_w bearing_w].
  bind_step H. bind_step H.
  destruct (decode1 active), (decode1 lat_hemi), (decode1 lon_hemi);
    try (unfold ret in H; discriminate H).
  destruct (if deobfuscate cfg then _ else _) as [lat_raw lon_raw].
  bind_step H. bind_step H. bind_step H.
  bind_step H.
  destruct (far_enough_returns
              (fix_coordinates s1 lat_raw (deobfuscate cfg))
              (fix_coordinates s2 lon_raw (deobfuscate cfg)) g0)
    as (far & g2 & Hfar & Hts & _ & Hwa).
  rewrite Hfar in H12. injection H12 as <- <-.
  destruct (if negb (doNotBearingDistance cfg) then _ else _) as [lat lon].
  unfold ret in H. injection H as <- <-.
  cbn [Year Month Day Hour Minute Second DT FrameTimePosition].
  unfold datetime_sub in H10.
  destruct (a3 - 1 <? DATETIME_MIN); [discriminate |]. injection H10 as <-.
  exists (a3 - 1).
  replace (a3 - 1 + 1) with a3 by lia.
  replace (offset + 3 * 4) with (offset + 12) in H1 by lia.
  rewrite Hts, Hwa. unfold started.
  destruct (videoStartTs g) as [t0 |] eqn:Eg.
  - injection H11 as <- <-. rewrite Eg. repeat split; auto.
  - unfold datetime_sub in H11.
    destruct (a3 - 1 - videoStartWrongAtoms g <? DATETIME_MIN); [discriminate |].
    injection H11 as <- <-. repeat split; auto.
Qed.

(** A sample comes out of [get_gps_data] only through the standard decode,
    from the offset 24 bytes before the highest marker. *)
Lemma get_gps_data_some (data : bytes) (cfg : Settings)
    (g : Globals) (s : GPS) (g' : Globals) :
  get_gps_data data cfg g = (Return (Some s), g') ->
  exists p,
    24 <= p <= len data - 20
    /\ pattern_at data p = true
    /\ (forall q, p < q <= len data - 20 -> pattern_at data q = false)
    /\ decode_standard data (p - 24) cfg g = (Return (Some s), g').
Proof.
  intros H. unfold get_gps_data in H.
  bind_step H. bind_step H. bind_step H.
  destruct (negb a1 && (0 <=? a)) eqn:E; [| unfold ret in H; discriminate H].
  apply andb_true_iff in E as [_ E]. apply Z.leb_le in E.
  assert (g1 = g0).
  { destruct (is_azdome_marker a0); [| unfold ret in H2; congruence].
    destruct (decode_azdome data) as [[?|] | | |]; congruence. }
  subst g1. clear H2.
  unfold get_gps_offset in H0.
  destruct (scan_marker data (Z.to_nat (len data - 20))) as [[p |] | | |] eqn:Hs;
    try discriminate.
  - injection H0 as <- <-.
    destruct (highest_pattern_by_scan data p Hs) as (Hp & Hpat & Hq).
    exists p.
    split; [lia |]. split; [exact Hpat |]. split; [exact Hq | exact H].
  - injection H0 as <- <-. lia.
Qed.

(** C3, as stated, fails on a file whose first region holds no marker:
    the sample decoded from the second region has frame time position +1
    second, and not -1, after one wrong atom. *)
Lemma first_sample_after_blank_region :
  exists s g,
    process_file file_blank_A plain_settings initial_globals = (Return [s], g)
    /\ videoStartWrongAtoms g = 1
    /\ FrameTimePosition s = 1
    /\ FrameTimePosition s <> - videoStartWrongAtoms g.
Proof.
  do 2 eexists. split.
  - run_file.
    decode_region ltac:(idtac).
    decode_region ltac:(rewrite far_enough_first by reflexivity).
    reflexivity.
  - cbn. repeat split; lia.
Qed.

(** C3, amended.  A sample of the standard variant carries the date and
    time assembled from the decoded fields, the year counted from 2000,
    less one second.  The first sample decoded in a stream sets
    [videoStartTs] to its own time less [videoStartWrongAtoms] seconds.
    The frame time position of every sample is its time less
    [videoStartTs]; for the first sample that is
    [+ videoStartWrongAtoms] seconds, zero when no region failed before
    it. *)
Theorem standard_sample_times (data : bytes) (cfg : Settings)
    (g : Globals) (s : GPS) (g' : Globals) :
  get_gps_data data cfg g = (Return (Some s), g') ->
  exists p ts,
    24 <= p <= len data - 20
    /\ pattern_at data p = true
    /\ unpack_from 12 unpack_III_le data (p - 24) = Some (Hour s, Minute s, Second s)
    /\ unpack_from 12 unpack_III_le data (p - 12) = Some (Year s, Month s, Day s)
    /\ datetime (Year s + 2000) (Month s) (Day s) (Hour s) (Minute s) (Second s)
       = inr (ts + 1)
    /\ DT s = strftime ts
    /\ (videoStartTs g = None ->
        videoStartTs g' = Some (ts - videoStartWrongAtoms g)
        /\ FrameTimePosition s = videoStartWrongAtoms g)
    /\ (forall t0, videoStartTs g = Some t0 ->
        videoStartTs g' = Some t0 /\ FrameTimePosition s = ts - t0)
    /\ (exists start, videoStartTs g' = Some start
                      /\ FrameTimePosition s = ts - start).
Proof.
  intros H.
  destruct (get_gps_data_some data cfg g s g' H) as (p & Hp & Hpat & _ & Hd).
  destruct (decode_standard_some data (p - 24) cfg g s g' Hd)
    as (ts & Ht & Hy & Hdt & Hfmt & Hstart & Hftp & _).
  exists p, ts.
  replace (p - 24 + 12) with (p - 12) in Hy by lia.
  unfold started in *.
  split; [lia |]. split; [exact Hpat |]. split; [exact Ht |]. split; [exact Hy |].
  split; [exact Hdt |]. split; [exact Hfmt |].
  split; [| split].
  - intros E. rewrite E in Hstart, Hftp. split; [exact Hstart | lia].
  - intros t0 E. rewrite E in Hstart, Hftp. split; assumption.
  - eauto.
Qed.

Lemma standard_sample_times_witness :
  exists s g',
    get_gps_data region_A plain_settings (after_failed_search initial_globals)
    = (Return (Some s), g')
    /\ exists p ts,
        24 <= p <= len region_A - 20
        /\ pattern_at region_A p = true
        /\ unpack_from 12 unpack_III_le region_A (p - 24) = Some (Hour s, Minute s, Second s)
        /\ unpack_from 12 unpack_III_le region_A (p - 12) = Some (Year s, Month s, Day s)
        /\ datetime (Year s + 2000) (Month s) (Day s) (Hour s) (Minute s) (Second s)
           = inr (ts + 1)
        /\ DT s = strftime ts
        /\ (videoStartTs (after_failed_search initial_globals) = None ->
            videoStartTs g'
            = Some (ts - videoStartWrongAtoms (after_failed_search initial_globals))
            /\ FrameTimePosition s
               = videoStartWrongAtoms (after_failed_search initial_globals))
        /\ (forall t0, videoStartTs (after_failed_search initial_globals) = Some t0 ->
            videoStartTs g' = Some t0 /\ FrameTimePosition s = ts - t0)
        /\ (exists start, videoStartTs g' = Some start
                          /\ FrameTimePosition s = ts - start).
Proof.
  assert (H : exists s g',
             get_gps_data region_A plain_settings (after_failed_search initial_globals)
             = (Return (Some s), g')).
  { do 2 eexists. run. rewrite far_enough_first by reflexivity. run. reflexivity. }
  destruct H as (s & g' & H).
  exists s, g'. split; [exact H |].
  exact (standard_sample_times _ _ _ _ _ H).
Defined.

(** ** C10: a region that carries the marker byte of the obfuscated variant *)

(** When the obfuscated decode gives up with [None], a region that starts
    with 0x05 or 0xF0 is decoded as a standard record from the offset the
    search returned. *)
Lemma get_gps_data_fallback (b : byte) (rest : bytes) (cfg : Settings)
    (g g1 : Globals) (offset : Z) :
  is_azdome_marker b = true ->
  decode_azdome (b :: rest) = Return None ->
  get_gps_offset (b :: rest) g = (Return offset, g1) ->
  0 <= offset ->
  get_gps_data (b :: rest) cfg g = decode_standard (b :: rest) offset cfg g1.
Proof.
  intros Hb Haz Ho Hoff. unfold get_gps_data, bind at 1. rewrite Ho.
  unfold unpacked, bind at 1, ret at 1.
  rewrite Hb, Haz. unfold bind at 1. cbn [negb andb].
  replace (0 <=? offset) with true by (symmetry; apply Z.leb_le; lia).
  reflexivity.
Qed.

(** The search runs first on every region, and its count stands whatever
    the first byte is and whatever the obfuscated decode does. *)
Lemma get_gps_data_counts (data : bytes) (cfg : Settings) (g : Globals) :
  (forall q, 0 < q <= len data - 20 -> pattern_at data q = false) ->
  snd (get_gps_data data cfg g) = after_failed_search g.
Proof.
  intros Hnone. unfold get_gps_data, bind at 1.
  rewrite (get_gps_offset_not_found data g Hnone).
  destruct data as [| b rest]; [reflexivity |].
  unfold unpacked, bind at 1, ret at 1.
  destruct (is_azdome_marker b).
  - unfold bind. destruct (decode_azdome (b :: rest)) as [[? |] | | |]; reflexivity.
  - reflexivity.
Qed.

(** C10.  [region_five] starts with 0x05; the obfuscated decode fails on
    its date fields and returns [None], the search has found the marker 24
    bytes into the region, and [get_gps_data] returns the sample of the
    standard record the region holds.  In general a marked region on which
    the obfuscated decode returns [None] is decoded as a standard record,
    and the search with its count runs on marked regions as on any
    other: on [region_five_blank] the count goes from 0 to 1. *)
Theorem marked_region_falls_back :
  (exists s g',
      hd_error region_five = Some x05
      /\ is_azdome_marker x05 = true
      /\ decode_azdome region_five = Return None
      /\ get_gps_offset region_five initial_globals = (Return 0, initial_globals)
      /\ get_gps_data region_five plain_settings initial_globals
         = (Return (Some s), g')
      /\ (Hour s, Minute s, Second s) = (5, 0, 30)
      /\ (Year s, Month s, Day s) = (23, 7, 24)
      /\ DT s = "2023-07-24T05:00:29Z"%string
      /\ (LatHemi s, LonHemi s) = ("N", "E")%string
      /\ LatFloat s = 45.5%R /\ LonFloat s = 12%R)
  /\ (forall b rest cfg g g1 offset,
        is_azdome_marker b = true ->
        decode_azdome (b :: rest) = Return None ->
        get_gps_offset (b :: rest) g = (Return offset, g1) ->
        0 <= offset ->
        get_gps_data (b :: rest) cfg g = decode_standard (b :: rest) offset cfg g1)
  /\ (forall b rest cfg g,
        is_azdome_marker b = true ->
        (forall q, 0 < q <= len (b :: rest) - 20 -> pattern_at (b :: rest) q = false) ->
        snd (get_gps_data (b :: rest) cfg g) = after_failed_search g)
  /\ (hd_error region_five_blank = Some x05
      /\ get_gps_data region_five_blank plain_settings initial_globals
         = (Return None, after_failed_search initial_globals)
      /\ videoStartWrongAtoms (after_failed_search initial_globals) = 1).
Proof.
  split; [| split; [| split]].
  - do 2 eexists.
    split; [reflexivity |]. split; [reflexivity |]. split; [reflexivity |].
    split; [reflexivity |].
    split.
    + run. rewrite far_enough_first by reflexivity. run. reflexivity.
    + cbn [Hour Minute Second Year Month Day DT LatHemi LonHemi LatFloat LonFloat].
      name_words.
      rewrite latitude_45_30_north, longitude_12_east.
      repeat split; reflexivity.
  - intros. apply get_gps_data_fallback; assumption.
  - intros b rest cfg g _ Hnone. apply get_gps_data_counts. exact Hnone.
  - repeat split; reflexivity.
Qed.

(** ** C6: structural checks of the MP4 scanner *)

Lemma bytes_eqb_eq (a b : bytes) : bytes_eqb a b = true <-> a = b.
Proof.
  revert b. induction a as [| x a IH]; intros [| y b]; cbn; try (split; congruence).
  rewrite andb_true_iff, IH. split.
  - intros [H ->]. apply Byte.byte_dec_bl in H. congruence.
  - intros [= -> ->]. split; [apply Byte.byte_dec_lb |]; reflexivity.
Qed.

(** An entry whose position or size is zero is skipped before any read. *)
Lemma get_gps_atom_zero (atom_pos atom_size : Z) (content : bytes)
    (cfg : Settings) (g : Globals) :
  atom_size = 0 \/ atom_pos = 0 ->
  get_gps_atom (atom_pos, atom_size) content cfg g = (Return None, g).
Proof.
  intros H. unfold get_gps_atom.
  replace ((atom_size =? 0) || (atom_pos =? 0)) with true; [reflexivity |].
  symmetry. apply orb_true_iff. destruct H; [left | right]; apply Z.eqb_eq; assumption.
Qed.

(** When the twelve bytes of size, type and magic have been read and one
    of them is not what the descriptor and the format ask for, the entry
    yields [None] and nothing is raised. *)
Lemma get_gps_atom_mismatch (atom_pos atom_size : Z) (content : bytes)
    (cfg : Settings) (g : Globals) (atom_size1 : Z) (atom_type magic : bytes) :
  unpack_I4s4s (pread content atom_pos atom_size) = Some (atom_size1, atom_type, magic) ->
  atom_size <> atom_size1 \/ atom_type <> b_free \/ magic <> b_GPS ->
  get_gps_atom (atom_pos, atom_size) content cfg g = (Return None, g).
Proof.
  intros Hu Hm. unfold get_gps_atom.
  destruct ((atom_size =? 0) || (atom_pos =? 0)); [reflexivity |].
  rewrite Hu. unfold unpacked, bind, ret.
  replace (negb (atom_size =? atom_size1) || negb (bytes_eqb atom_type b_free)
           || negb (bytes_eqb magic b_GPS)) with true; [reflexivity |].
  symmetry. rewrite !orb_true_iff, !negb_true_iff.
  destruct Hm as [H | [H | H]].
  - left; left. apply Z.eqb_neq. exact H.
  - left; right. destruct (bytes_eqb atom_type b_free) eqn:E; [| reflexivity].
    apply bytes_eqb_eq in E. contradiction.
  - right. destruct (bytes_eqb magic b_GPS) eqn:E; [| reflexivity].
    apply bytes_eqb_eq in E. contradiction.
Qed.

(** After an entry that yielded a value, [None] included, the loop over
    the descriptor goes on with the next entry. *)
Lemma gps_entries_continue (fuel : nat) (content : bytes) (cfg : Settings)
    (gps_offset stop : Z) (gps_data : list (option GPS)) (g g1 : Globals)
    (info : Z * Z) (data : option GPS) :
  gps_offset < stop ->
  get_gps_atom_info (pread content gps_offset 8) = Some info ->
  get_gps_atom info content cfg g = (Return data, g1) ->
  gps_entries (S fuel) content cfg gps_offset stop gps_data g
  = gps_entries fuel content cfg (gps_offset + 8) stop (gps_data ++ [data]) g1.
Proof.
  intros Hlt Hi Ha. cbn [gps_entries].
  replace (gps_offset <? stop) with true by (symmetry; apply Z.ltb_lt; lia).
  rewrite Hi. unfold unpacked, bind at 1, ret at 1. unfold bind at 1.
  rewrite Ha. reflexivity.
Qed.

Lemma ztake_length {A : Type} (l : list A) :
  forall n, 0 <= n -> len (ztake n l) = Z.min n (len l).
Proof.
  unfold len. induction l as [| x t IH]; intros n Hn; cbn [ztake].
  - cbn. lia.
  - destruct (n <=? 0) eqn:E.
    + apply Z.leb_le in E. cbn. lia.
    + apply Z.leb_gt in E. cbn [List.length]. specialize (IH (n - 1) ltac:(lia)). lia.
Qed.

Lemma zskip_length {A : Type} (l : list A) :
  forall n, 0 <= n -> len (zskip n l) = Z.max 0 (len l - n).
Proof.
  unfold len. induction l as [| x t IH]; intros n Hn; cbn [zskip].
  - cbn. lia.
  - destruct (n <=? 0) eqn:E.
    + apply Z.leb_le in E. cbn [List.length]. lia.
    + apply Z.leb_gt in E. cbn [List.length]. specialize (IH (n - 1) ltac:(lia)). lia.
Qed.

(** A read of eight bytes that the file cannot fill gives size zero. *)
Lemma get_atom_info_truncated (content : bytes) (offset : Z) :
  0 <= offset -> len content < offset + 8 ->
  get_atom_info (pread content offset 8) = (0, []).
Proof.
  intros H0 Hlen.
  assert (Hl : len (pread content offset 8) < 8).
  { unfold pread. rewrite ztake_length, zskip_length by lia. lia. }
  unfold len in Hl.
  destruct (pread content offset 8) as [| ? [| ? [| ? [| ? [| ? [| ? [| ? [| ? [| ? ?]]]]]]]]];
    cbn in Hl; try reflexivity; lia.
Qed.

(** A top-level atom whose size reads as zero ends the scan of the file
    with what was collected. *)
Lemma top_atoms_stop (fuel : nat) (content : bytes) (cfg : Settings)
    (offset : Z) (gps_data : list (option GPS)) (is_moov : bool) (g : Globals) :
  fst (get_atom_info (pread content offset 8)) = 0 ->
  top_atoms fuel content cfg offset gps_data is_moov g
  = (Return (gps_data, is_moov), g).
Proof.
  intros H. destruct fuel; cbn [top_atoms];
    destruct (get_atom_info (pread content offset 8)) as [sz ty];
    cbn in H; subst sz; reflexivity.
Qed.

Lemma top_atoms_stop_truncated (fuel : nat) (content : bytes) (cfg : Settings)
    (offset : Z) (gps_data : list (option GPS)) (is_moov : bool) (g : Globals) :
  0 <= offset -> len content < offset + 8 ->
  top_atoms fuel content cfg offset gps_data is_moov g
  = (Return (gps_data, is_moov), g).
Proof.
  intros H0 Hlen. apply top_atoms_stop.
  rewrite get_atom_info_truncated by assumption. reflexivity.
Qed.

(** An atom with the wrong magic gives no sample, and the atom after it is
    decoded. *)
Example wrong_magic_is_skipped :
  exists s g,
    parse_moov file_wrong_magic_A plain_settings initial_globals
    = (Return ([None; Some s], true), g)
    /\ DT s = "2023-07-24T12:00:29Z"%string.
Proof.
  do 2 eexists. split.
  - run_file.
    decode_region ltac:(rewrite far_enough_first by reflexivity).
    reflexivity.
  - reflexivity.
Qed.

(** C6, where the code departs from it.  The descriptor of
    [file_short_atom] names eight bytes at position 32; the atom there has
    size field 16, not 8, and type ['mdat'], not ['free'].  [get_gps_atom]
    reads the eight bytes and raises [struct.error] when it unpacks twelve,
    and the exception ends [parse_moov] and [process_file]. *)
Theorem short_atom_raises :
  get_gps_atom_info (pread file_short_atom 24 8) = Some (32, 8)
  /\ get_atom_info (pread file_short_atom 32 8) = (16, list_byte_of_string "mdat")
  /\ 16 <> 8
  /\ list_byte_of_string "mdat" <> b_free
  /\ get_gps_atom (32, 8) file_short_atom plain_settings initial_globals
     = (Raise StructError, initial_globals)
  /\ parse_moov file_short_atom plain_settings initial_globals
     = (Raise StructError, initial_globals)
  /\ process_file file_short_atom plain_settings initial_globals
     = (Raise StructError, initial_globals).
Proof.
  repeat split; try reflexivity; try lia.
  intros H. discriminate H.
Qed.

(** C2, where the code departs from it.  The empty region holds the
    pattern nowhere, so the search returns -1 and, the video start being
    unset, the wrong-atom counter goes from 0 to 1.  [get_gps_data] then
    reads the first byte of the region to tell the variant, and with no
    byte to read [struct.unpack_from] raises [struct.error], which nothing
    catches: the failed search is fatal there.  The empty region is what
    [get_gps_atom] hands over for the twelve-byte ['free'] atom of
    [file_empty_region], whose descriptor entry names position 32 and
    size 12, and the exception ends [parse_moov] and [process_file]. *)
Theorem empty_region_is_fatal :
  (forall q, 0 < q <= len (@nil byte) - 20 -> pattern_at [] q = false)
  /\ (forall cfg g,
        get_gps_offset [] g = (Return (-1), after_failed_search g)
        /\ get_gps_data [] cfg g = (Raise StructError, after_failed_search g))
  /\ videoStartWrongAtoms initial_globals = 0
  /\ videoStartWrongAtoms (after_failed_search initial_globals) = 1
  /\ get_gps_atom_info (pread file_empty_region 24 8) = Some (32, 12)
  /\ pread file_empty_region 32 12 = free_atom []
  /\ unpack_I4s4s (free_atom []) = Some (12, b_free, b_GPS)
  /\ zskip 12 (free_atom []) = []
  /\ get_gps_atom (32, 12) file_empty_region plain_settings initial_globals
     = (Raise StructError, after_failed_search initial_globals)
  /\ parse_moov file_empty_region plain_settings initial_globals
     = (Raise StructError, after_failed_search initial_globals)
  /\ process_file file_empty_region plain_settings initial_globals
     = (Raise StructError, after_failed_search initial_globals).
Proof.
  split.
  { intros q Hq. unfold len in Hq. cbn in Hq. lia. }
  split.
  { intros cfg g. split; reflexivity. }
  repeat split; reflexivity.
Qed.

(** ** C1: decode state across the files of one run *)

Ltac far_same_place :=
  idtac;
  match goal with
  | |- context [isFrameFarEnoughFromPrevious ?a ?b ?g] =>
      change (isFrameFarEnoughFromPrevious a b g)
        with (isFrameFarEnoughFromPrevious (previousLatitude g) (previousLongitude g) g);
      rewrite (far_enough_same_place g)
        by (cbn [previousLatitude]; name_words; rewrite latitude_45_30_north; lra)
  end.

(** C1, where the code departs from it.  [file_B] holds one sample, taken
    one minute after the one sample of [file_A] at the same place.
    Processed first in a run, its sample has frame time position 0 and is
    flagged ["Y"], and the video start is the time of that sample.
    Processed after [file_A], the same file gives frame time position 60
    and the flag ["N"], and the video start stays that of [file_A]: the
    globals are initialised when the module is loaded and [process_file]
    does not reset them. *)
Theorem decode_state_survives_file :
  exists sB gB sA sB' gAB,
    process_files [file_B] plain_settings initial_globals = (Return [[sB]], gB)
    /\ process_files [file_A; file_B] plain_settings initial_globals
       = (Return [[sA]; [sB']], gAB)
    /\ DT sB = DT sB'
    /\ FrameTimePosition sB = 0 /\ FrameTimePosition sB' = 60
    /\ FrameIsFarEnough sB = "Y"%string /\ FrameIsFarEnough sB' = "N"%string
    /\ videoStartTs gB = Some (63825883289)
    /\ videoStartTs gAB = Some (63825883229)
    /\ strftime 63825883289 = "2023-07-24T12:01:29Z"%string
    /\ strftime 63825883229 = "2023-07-24T12:00:29Z"%string.
Proof.
  do 5 eexists. split; [| split].
  - run_file.
    decode_region ltac:(rewrite far_enough_first by reflexivity).
    reflexivity.
  - run_file.
    decode_region ltac:(rewrite far_enough_first by reflexivity).
    decode_region ltac:(far_same_place).
    reflexivity.
  - repeat split; reflexivity.
Qed.

(** ** C8: outlier removal *)

(** A loop that appends [f x] for each [x] builds [map f]. *)
Lemma fold_left_snoc_map {A B : Type} (f : A -> B) (l : list A) :
  forall acc, fold_left (fun acc x => acc ++ [f x]) l acc = acc ++ map f l.
Proof.
  induction l as [| x t IH]; intros acc; cbn.
  - rewrite app_nil_r. reflexivity.
  - rewrite IH, <- app_assoc. reflexivity.
Qed.


Lemma fold_left_same {A B : Type} (f g : A -> B -> A) (l : list B) :
  (forall acc x, f acc x = g acc x) ->
  forall acc, fold_left f l acc = fold_left g l acc.
Proof.
  intros H. induction l as [| x t IH]; intros acc; cbn; [reflexivity |].
  rewrite H. apply IH.
Qed.

















(** ** C7: merging samples with one timestamp *)

Lemma first_occurrences_In (ks : list string) (k : string) :
  In k (first_occurrences ks) <-> In k ks.
Proof.
  induction ks as [| x t IH]; cbn; [tauto |].
  rewrite filter_In, IH, negb_true_iff.
  destruct (String.eqb_spec k x) as [-> | Hne]; [tauto |].
  split; [tauto |]. intros [H | H]; [congruence | tauto].
Qed.

Lemma first_occurrences_NoDup (ks : list string) : NoDup (first_occurrences ks).
Proof.
  induction ks as [| x t IH]; cbn; constructor.
  - rewrite filter_In, String.eqb_refl. cbn. intros [_ H]. discriminate.
  - apply NoDup_filter, IH.
Qed.

Lemma first_occurrences_snoc (ks : list string) (k : string) :
  first_occurrences (ks ++ [k])
  = first_occurrences ks ++ (if existsb (String.eqb k) ks then [] else [k]).
Proof.
  induction ks as [| x t IH]; cbn; [reflexivity |].
  rewrite IH, filter_app. f_equal. f_equal.
  destruct (existsb (String.eqb k) t); cbn.
  - rewrite orb_true_r. reflexivity.
  - rewrite orb_false_r. destruct (k =? x)%string; reflexivity.
Qed.

Lemma existsb_eqb_In (ks : list string) (k : string) :
  existsb (String.eqb k) ks = true <-> In k ks.
Proof.
  rewrite existsb_exists. split.
  - intros (x & Hin & E). apply String.eqb_eq in E. subst. exact Hin.
  - intros Hin. exists k. split; [exact Hin | apply String.eqb_refl].
Qed.

Lemma members_snoc (k : string) (l : list GPS) (p : GPS) :
  members k (l ++ [p])
  = members k l ++ (if (DT p =? k)%string then [p] else []).
Proof. unfold members. rewrite filter_app. reflexivity. Qed.

Lemma members_nil (k : string) (l : list GPS) :
  ~ In k (map DT l) -> members k l = [].
Proof.
  intros H. unfold members. induction l as [| p t IH]; cbn; [reflexivity |].
  destruct (String.eqb_spec (DT p) k) as [E | Hne].
  - exfalso. apply H. left. exact E.
  - apply IH. intros Hin. apply H. right. exact Hin.
Qed.

(** A key of the track has at least one member. *)
Lemma members_nonempty (k : string) (l : list GPS) :
  In k (map DT l) -> members k l <> [].
Proof.
  intros H. apply in_map_iff in H as (p & E & Hin).
  assert (Hm : In p (members k l)).
  { unfold members. apply filter_In. split; [exact Hin |].
    apply String.eqb_eq. exact E. }
  intros Hnil. rewrite Hnil in Hm. exact Hm.
Qed.

(** Adding a point under a key the dictionary has appends to that entry;
    under a new key it opens an entry at the end. *)
Lemma dict_add_present (keys : list string) (f : string -> list GPS)
    (k : string) (p : GPS) :
  NoDup keys -> In k keys ->
  dict_add k p (map (fun x => (x, f x)) keys)
  = map (fun x => (x, if (x =? k)%string then f x ++ [p] else f x)) keys.
Proof.
  intros Hnd. induction Hnd as [| x t Hx Hnd IH]; cbn; [tauto |].
  intros [-> | Hin].
  - rewrite String.eqb_refl. f_equal.
    apply map_ext_in. intros y Hy.
    destruct (String.eqb_spec y k) as [-> | _]; [contradiction | reflexivity].
  - destruct (String.eqb_spec x k) as [-> | _]; [contradiction |].
    rewrite IH by assumption. reflexivity.
Qed.

Lemma dict_add_absent (keys : list string) (f : string -> list GPS)
    (k : string) (p : GPS) :
  ~ In k keys ->
  dict_add k p (map (fun x => (x, f x)) keys)
  = map (fun x => (x, f x)) keys ++ [(k, [p])].
Proof.
  induction keys as [| x t IH]; cbn; intros H; [reflexivity |].
  destruct (String.eqb_spec x k) as [-> | _]; [tauto |].
  rewrite IH by tauto. reflexivity.
Qed.

(** The dictionary holds, for each distinct timestamp in the order of its
    first occurrence, the samples that carry it, in their order. *)
Lemma gps_data_dict_groups (l : list GPS) :
  gps_data_dict l = map (fun k => (k, members k l)) (distinct_times l).
Proof.
  induction l as [| p l IH] using rev_ind; [reflexivity |].
  unfold gps_data_dict in *. rewrite fold_left_app. cbn [fold_left].
  rewrite IH. unfold distinct_times. rewrite map_app. cbn [map].
  rewrite first_occurrences_snoc.
  destruct (existsb (String.eqb (DT p)) (map DT l)) eqn:E.
  - apply existsb_eqb_In in E.
    rewrite dict_add_present
      by (try apply first_occurrences_NoDup; apply first_occurrences_In; exact E).
    rewrite app_nil_r. apply map_ext. intros k.
    rewrite members_snoc, String.eqb_sym.
    destruct (DT p =? k)%string; [reflexivity | rewrite app_nil_r; reflexivity].
  - assert (Hnot : ~ In (DT p) (map DT l)).
    { intros H. apply existsb_eqb_In in H. congruence. }
    rewrite dict_add_absent by (rewrite first_occurrences_In; exact Hnot).
    rewrite map_app. cbn [map]. f_equal.
    + apply map_ext_in. intros k Hk. rewrite first_occurrences_In in Hk.
      rewrite members_snoc.
      destruct (String.eqb_spec (DT p) k) as [<- | _]; [contradiction |].
      rewrite app_nil_r. reflexivity.
    + rewrite members_snoc, String.eqb_refl, (members_nil _ _ Hnot). reflexivity.
Qed.

(** A loop that appends a list for each item builds [flat_map]. *)
Lemma fold_left_snoc_flat_map {A B : Type} (f : A -> list B) (l : list A) :
  forall acc, fold_left (fun acc x => acc ++ f x) l acc = acc ++ flat_map f l.
Proof.
  induction l as [| x t IH]; intros acc; cbn.
  - rewrite app_nil_r. reflexivity.
  - rewrite IH, app_assoc. reflexivity.
Qed.

Lemma merge_duplicates_groups (l : list GPS) :
  merge_duplicates l
  = flat_map (fun k => merge_members (members k l)) (distinct_times l).
Proof.
  destruct l as [| p t]; [reflexivity |].
  unfold merge_duplicates.
  rewrite (fold_left_same _ (fun acc kv => acc ++ merge_members (snd kv))).
  - rewrite fold_left_snoc_flat_map, gps_data_dict_groups. cbn [app].
    rewrite flat_map_concat_map, map_map, <- flat_map_concat_map. reflexivity.
  - intros acc [k [| v [| w r]]]; cbn; [rewrite app_nil_r |..]; reflexivity.
Qed.

(** [sum], a left fold in Python, adds up the list. *)
Lemma py_sum_sum_R (l : list R) : py_sum l = sum_R l.
Proof.
  unfold py_sum, sum_R. apply fold_symmetric; intros; ring.
Qed.

Lemma unit_vector_sums (pts : list (R * R)) :
  forall X Y Z,
    fold_left
      (fun '(X, Y, Z) '(latd, lond) =>
         let lat := (latd * PI / 180)%R in
         let lon := (lond * PI / 180)%R in
         let a := (cos lat * cos lon)%R in
         let b := (cos lat * sin lon)%R in
         let c := sin lat in
         ((X + a)%R, (Y + b)%R, (Z + c)%R))
      pts (X, Y, Z)
    = let vs := map (fun pt => unit_vector (fst pt) (snd pt)) pts in
      ((X + sum_R (map (fun v => fst (fst v)) vs))%R,
       (Y + sum_R (map (fun v => snd (fst v)) vs))%R,
       (Z + sum_R (map (fun v => snd v) vs))%R).
Proof.
  induction pts as [| [latd lond] t IH]; intros X Y Z; cbn.
  - rewrite !Rplus_0_r. reflexivity.
  - rewrite IH. cbn. unfold sum_R. f_equal; [f_equal |]; ring.
Qed.

Lemma combine_fst_snd {A B : Type} (l : list (A * B)) :
  combine (map fst l) (map snd l) = l.
Proof.
  induction l as [| [a b] t IH]; cbn; [| rewrite IH]; reflexivity.
Qed.

(** [GetCenterFromDegrees] computes the spherical centroid. *)
Lemma GetCenterFromDegrees_centroid (pts : list (R * R)) :
  GetCenterFromDegrees (map fst pts) (map snd pts) = spherical_centroid pts.
Proof.
  unfold GetCenterFromDegrees, spherical_centroid, mean.
  rewrite combine_fst_snd, unit_vector_sums. cbn zeta.
  rewrite !Rplus_0_l, !length_map. reflexivity.
Qed.

Lemma far_flag_loop (values : list GPS) :
  forall f,
    fold_left (fun f v => if (FrameIsFarEnough v =? "Y")%string then "Y"%string else f)
              values f
    = if any_far values then "Y"%string else f.
Proof.
  unfold any_far. induction values as [| v t IH]; intros f; cbn; [reflexivity |].
  rewrite IH. destruct (FrameIsFarEnough v =? "Y")%string; cbn; [| reflexivity].
  destruct (existsb _ t); reflexivity.
Qed.

(** The fields of a merged group. *)
Lemma merge_group_fields (v0 : GPS) (values : list GPS) :
  let m := merge_group v0 values in
  (LatFloat m, LonFloat m) = spherical_centroid (map position values)
  /\ Speed m = mean (map Speed values)
  /\ Bearing m = mean (map Bearing values)
  /\ FrameIsFarEnough m = (if any_far values then "Y" else "N")%string
  /\ DT m = DT v0 /\ Epoch m = Epoch v0
  /\ FrameTimePosition m = FrameTimePosition v0.
Proof.
  unfold merge_group.
  rewrite !fold_left_snoc_map, far_flag_loop. cbn [app].
  replace (map LatFloat values) with (map fst (map position values))
    by (rewrite map_map; reflexivity).
  replace (map LonFloat values) with (map snd (map position values))
    by (rewrite map_map; reflexivity).
  rewrite GetCenterFromDegrees_centroid.
  destruct (spherical_centroid (map position values)) as [latC lonC].
  cbn. rewrite !py_sum_sum_R. unfold mean. rewrite !length_map.
  repeat split; reflexivity.
Qed.

Lemma any_far_exists (values : list GPS) :
  any_far values = true
  <-> exists v, In v values /\ FrameIsFarEnough v = "Y"%string.
Proof.
  unfold any_far. rewrite existsb_exists.
  split; intros (v & Hin & E); exists v; split; try assumption;
    apply String.eqb_eq; assumption.
Qed.

Lemma atan2_zero_positive (x : R) : (0 < x)%R -> atan2 0 x = 0%R.
Proof.
  intros H. unfold atan2. destruct (Rlt_dec 0 x) as [_ | n]; [| contradiction].
  replace (0 / x)%R with 0%R by (field; lra). apply atan_0.
Qed.

Lemma atan2_zero_negative (x : R) : (x < 0)%R -> atan2 0 x = PI.
Proof.
  intros H. unfold atan2.
  destruct (Rlt_dec 0 x) as [Hp | _]; [lra |].
  destruct (Rlt_dec x 0) as [_ | n]; [| contradiction].
  destruct (Rle_dec 0 0) as [_ | n]; [| lra].
  replace (0 / x)%R with 0%R by (field; lra). rewrite atan_0. ring.
Qed.

(** Two points on the equator at 170 deg E and 170 deg W: their spherical
    centroid is on the antimeridian, at longitude 180, while the
    arithmetic mean of the two longitudes is 0. *)
Lemma centroid_across_antimeridian :
  spherical_centroid [(0, 170); (0, -170)]%R = (0, 180)%R
  /\ mean [170; -170]%R = 0%R.
Proof.
  split.
  - unfold spherical_centroid, mean, unit_vector, sum_R.
    cbn [map fold_right fst snd List.length INR].
    replace (0 * PI / 180)%R with 0%R by field.
    replace (-170 * PI / 180)%R with (- (170 * PI / 180))%R by field.
    rewrite cos_neg, sin_neg, cos_0, sin_0.
    set (c := cos (170 * PI / 180)). set (s := sin (170 * PI / 180)).
    assert (Hc : (c < 0)%R).
    { apply cos_lt_0; pose proof PI_RGT_0; lra. }
    replace ((1 * c + (1 * c + 0)) / (1 + 1))%R with c by field.
    replace ((1 * s + (1 * - s + 0)) / (1 + 1))%R with 0%R by field.
    replace ((0 + (0 + 0)) / (1 + 1))%R with 0%R by field.
    rewrite (atan2_zero_negative c Hc).
    rewrite atan2_zero_positive.
    + f_equal; field; pose proof PI_RGT_0; lra.
    + apply sqrt_lt_R0. nra.
  - unfold mean, sum_R. cbn. field.
Qed.

(** C7.  Duplicate merging groups the samples by their timestamp text:
    the result holds, for each distinct timestamp in the order of its
    first occurrence, what its group becomes.  A group of one sample is
    that sample.  A larger group is one sample: its position is the
    spherical centroid of the members' positions, its speed and bearing
    the arithmetic means of theirs, its flag ["Y"] exactly when a member
    has ["Y"], and its timestamp the one of the group.  The centroid is
    not the arithmetic mean of the coordinates: for 170 deg E and
    170 deg W on the equator it has longitude 180, the mean 0. *)
Theorem merge_duplicates_by_timestamp (gps_data : list GPS) :
  merge_duplicates gps_data
  = flat_map (fun k => merge_members (members k gps_data)) (distinct_times gps_data)
  /\ NoDup (distinct_times gps_data)
  /\ (forall k, In k (distinct_times gps_data)
                <-> exists p, In p gps_data /\ DT p = k)
  /\ (forall k, In k (distinct_times gps_data) -> members k gps_data <> [])
  /\ (forall v, merge_members [v] = [v])
  /\ (forall v0 v1 rest,
        let values := v0 :: v1 :: rest in
        exists m,
          merge_members values = [m]
          /\ position m = spherical_centroid (map position values)
          /\ Speed m = mean (map Speed values)
          /\ Bearing m = mean (map Bearing values)
          /\ (FrameIsFarEnough m = "Y"%string
              <-> exists v, In v values /\ FrameIsFarEnough v = "Y"%string)
          /\ (FrameIsFarEnough m = "Y"%string \/ FrameIsFarEnough m = "N"%string)
          /\ DT m = DT v0)
  /\ (spherical_centroid [(0, 170); (0, -170)]%R = (0, 180)%R
      /\ mean [170; -170]%R = 0%R).
Proof.
  split; [apply merge_duplicates_groups |].
  split; [apply first_occurrences_NoDup |].
  split.
  { intros k. unfold distinct_times. rewrite first_occurrences_In, in_map_iff.
    split; intros (p & H1 & H2); exists p; tauto. }
  split.
  { intros k Hk. apply members_nonempty.
    unfold distinct_times in Hk. rewrite first_occurrences_In in Hk. exact Hk. }
  split; [reflexivity |].
  split; [| apply centroid_across_antimeridian].
  intros v0 v1 rest values.
  destruct (merge_group_fields v0 values) as (Hpos & Hsp & Hb & Hf & Hdt & _).
  exists (merge_group v0 values).
  split; [reflexivity |]. split; [exact Hpos |]. split; [exact Hsp |].
  split; [exact Hb |]. split; [| split; [| exact Hdt]].
  - rewrite Hf, <- any_far_exists.
    destruct (any_far values); split; intros; try reflexivity; discriminate.
  - rewrite Hf. destruct (any_far values); [left | right]; reflexivity.
Qed.

Lemma merge_duplicates_by_timestamp_witness :
  exists m,
    merge_duplicates track_antimeridian
    = [m; sample_at 1 2 101 "u" 30 110 "N"]
    /\ position m = (0, 180)%R
    /\ Speed m = 15%R /\ Bearing m = 95%R
    /\ FrameIsFarEnough m = "Y"%string.
Proof.
  destruct (merge_duplicates_by_timestamp track_antimeridian)
    as (Hgroups & _ & _ & _ & _ & Hmerge & Hcentroid & _).
  destruct (Hmerge (sample_at 0 170 100 "t" 10 90 "N")
                   (sample_at 0 (-170) 100 "t" 20 100 "Y") [])
    as (m & Hm & Hpos & Hsp & Hb & Hf & _).
  exists m. split.
  - rewrite Hgroups.
    change (merge_members [sample_at 0 170 100 "t" 10 90 "N";
                           sample_at 0 (-170) 100 "t" 20 100 "Y"]
            ++ [sample_at 1 2 101 "u" 30 110 "N"]
            = [m; sample_at 1 2 101 "u" 30 110 "N"]).
    rewrite Hm. reflexivity.
  - split; [rewrite Hpos; exact Hcentroid |].
    split; [rewrite Hsp; unfold mean, sum_R; cbn; field |].
    split; [rewrite Hb; unfold mean, sum_R; cbn; field |].
    apply Hf. eexists. split; [right; left; reflexivity | reflexivity].
Defined.

(** ** The rounds given to the loops suffice

    [OutOfFuel] is not an outcome of the program: with the rounds that
    [parse_moov] and [parse_ts] give their loops, no scan ends for lack of
    them. *)

Lemma no_fuel_ret {A : Type} (a : A) : no_fuel (ret a).
Proof. intros g. cbn. discriminate. Qed.

Lemma no_fuel_raise {A : Type} (e : exn) : no_fuel (@raise A e).
Proof. intros g. cbn. discriminate. Qed.

Lemma no_fuel_bind {A B : Type} (m : M A) (k : A -> M B) :
  no_fuel m -> (forall a, no_fuel (k a)) -> no_fuel (bind m k).
Proof.
  intros Hm Hk g. unfold bind. specialize (Hm g).
  destruct (m g) as [[a | e | |] g1]; cbn in *; try discriminate.
  - apply Hk.
  - congruence.
Qed.

Lemma no_fuel_unpacked {A : Type} (o : option A) : no_fuel (unpacked o).
Proof. destruct o; [apply no_fuel_ret | apply no_fuel_raise]. Qed.

Lemma no_fuel_dated (r : exn + Z) : no_fuel (dated r).
Proof. destruct r; [apply no_fuel_raise | apply no_fuel_ret]. Qed.

Lemma no_fuel_finite (w : Z) : no_fuel (finite w).
Proof.
  unfold finite. destruct (f32_value w); [apply no_fuel_ret | apply no_fuel_raise].
Qed.

Lemma no_fuel_far_enough (lat lon : R) :
  no_fuel (isFrameFarEnoughFromPrevious lat lon).
Proof.
  intros g. destruct (far_enough_returns lat lon g) as (far & g' & H & _).
  rewrite H. discriminate.
Qed.

Lemma no_fuel_get_gps_offset (data : bytes) : no_fuel (get_gps_offset data).
Proof.
  intros g. destruct (get_gps_offset_returns data g) as (o & g' & H).
  rewrite H. discriminate.
Qed.

Ltac no_fuel_steps :=
  repeat match goal with
         | |- no_fuel (ret _) => apply no_fuel_ret
         | |- no_fuel (raise _) => apply no_fuel_raise
         | |- no_fuel (unpacked _) => apply no_fuel_unpacked
         | |- no_fuel (dated _) => apply no_fuel_dated
         | |- no_fuel (finite _) => apply no_fuel_finite
         | |- no_fuel (isFrameFarEnoughFromPrevious _ _) => apply no_fuel_far_enough
         | |- no_fuel (get_gps_offset _) => apply no_fuel_get_gps_offset
         | |- no_fuel (bind _ _) => apply no_fuel_bind; [| intros ?]
         | |- no_fuel (let '(_, _) := ?x in _) => destruct x
         | |- no_fuel (match ?x with _ => _ end) => destruct x
         end.

Lemma no_fuel_decode_standard (data : bytes) (offset : Z) (cfg : Settings) :
  no_fuel (decode_standard data offset cfg).
Proof.
  unfold decode_standard. no_fuel_steps.
  intros g. destruct (videoStartTs g); [discriminate |].
  destruct (datetime_sub _ _); discriminate.
Qed.

(** The obfuscated decode returns [None] or raises. *)
Lemma decode_azdome_outcome (data : bytes) :
  decode_azdome data = Return None \/ exists e, decode_azdome data = Raise e.
Proof.
  unfold decode_azdome.
  repeat match goal with
         | |- context [match ?x with _ => _ end] => destruct x
         end; eauto.
Qed.

Lemma no_fuel_get_gps_data (data : bytes) (cfg : Settings) :
  no_fuel (get_gps_data data cfg).
Proof.
  unfold get_gps_data.
  apply no_fuel_bind; [apply no_fuel_get_gps_offset | intros offset].
  apply no_fuel_bind; [apply no_fuel_unpacked | intros b0].
  apply no_fuel_bind.
  - destruct (is_azdome_marker b0); [| apply no_fuel_ret].
    intros g. destruct (decode_azdome_outcome data) as [E | [e E]];
      rewrite E; discriminate.
  - intros azdome.
    destruct (negb azdome && (0 <=? offset));
      [apply no_fuel_decode_standard | apply no_fuel_ret].
Qed.

Lemma no_fuel_get_gps_atom (info : Z * Z) (content : bytes) (cfg : Settings) :
  no_fuel (get_gps_atom info content cfg).
Proof.
  unfold get_gps_atom. destruct info as [atom_pos atom_size].
  destruct ((atom_size =? 0) || (atom_pos =? 0)); [apply no_fuel_ret |].
  apply no_fuel_bind; [apply no_fuel_unpacked | intros [[atom_size1 atom_type] magic]].
  destruct (_ || _); [apply no_fuel_ret | apply no_fuel_get_gps_data].
Qed.

Lemma byte_val_nonneg (b : byte) : 0 <= byte_val b.
Proof. unfold byte_val. lia. Qed.

Lemma be32_nonneg (a b c d : byte) : 0 <= be32 a b c d.
Proof.
  unfold be32.
  pose proof (byte_val_nonneg a). pose proof (byte_val_nonneg b).
  pose proof (byte_val_nonneg c). pose proof (byte_val_nonneg d). lia.
Qed.

(** Eight bytes were read only if the file has them. *)
Lemma pread_eight (content : bytes) (pos : Z) :
  0 <= pos -> List.length (pread content pos 8) = 8%nat -> pos + 8 <= len content.
Proof.
  intros H0 H8.
  assert (H : len (pread content pos 8) = 8) by (unfold len; lia).
  unfold pread in H. rewrite ztake_length, zskip_length in H by lia. lia.
Qed.

Lemma get_atom_info_read (content : bytes) (pos : Z) :
  0 <= pos -> fst (get_atom_info (pread content pos 8)) <> 0 ->
  pos + 8 <= len content /\ 0 < fst (get_atom_info (pread content pos 8)).
Proof.
  intros H0 Hs.
  destruct (pread content pos 8)
    as [| a [| b [| c [| d [| e [| f [| g [| h [| i r]]]]]]]]] eqn:E;
    cbn in Hs; try congruence.
  split.
  - apply pread_eight; [exact H0 | rewrite E; reflexivity].
  - cbn. pose proof (be32_nonneg a b c d). lia.
Qed.

Lemma get_gps_atom_info_read (content : bytes) (pos : Z) (info : Z * Z) :
  0 <= pos -> get_gps_atom_info (pread content pos 8) = Some info ->
  pos + 8 <= len content.
Proof.
  intros H0 Hs.
  destruct (pread content pos 8)
    as [| a [| b [| c [| d [| e [| f [| g [| h [| i r]]]]]]]]] eqn:E;
    cbn in Hs; try discriminate.
  apply pread_eight; [exact H0 | rewrite E; reflexivity].
Qed.

Lemma no_fuel_gps_entries (content : bytes) (cfg : Settings) (stop : Z) :
  forall fuel gps_offset gps_data,
    0 <= gps_offset -> (1 <= fuel)%nat -> len content - gps_offset < Z.of_nat fuel ->
    no_fuel (gps_entries fuel content cfg gps_offset stop gps_data).
Proof.
  induction fuel as [| fuel IH]; intros gps_offset gps_data H0 H1 Hf; [lia |].
  cbn [gps_entries]. destruct (gps_offset <? stop); [| apply no_fuel_ret].
  destruct (get_gps_atom_info (pread content gps_offset 8)) as [info |] eqn:E;
    [| intros g; unfold bind, unpacked, raise; cbn; discriminate].
  pose proof (get_gps_atom_info_read content gps_offset info H0 E) as Hlen.
  apply no_fuel_bind; [apply no_fuel_unpacked | intros ?].
  apply no_fuel_bind; [apply no_fuel_get_gps_atom | intros ?].
  apply IH; lia.
Qed.

Lemma no_fuel_sub_atoms (content : bytes) (cfg : Settings) (stop : Z) :
  forall fuel sub_offset gps_data,
    0 <= sub_offset -> (1 <= fuel)%nat -> len content - sub_offset < Z.of_nat fuel ->
    no_fuel (sub_atoms fuel content cfg sub_offset stop gps_data).
Proof.
  induction fuel as [| fuel IH]; intros sub_offset gps_data H0 H1 Hf; [lia |].
  cbn [sub_atoms]. destruct (sub_offset <? stop); [| apply no_fuel_ret].
  pose proof (get_atom_info_read content sub_offset H0) as Hread.
  destruct (get_atom_info (pread content sub_offset 8)) as [sub_atom_size sub_atom_type].
  cbn [fst] in Hread.
  apply no_fuel_bind.
  - destruct (bytes_eqb sub_atom_type b_gps); [| apply no_fuel_ret].
    apply no_fuel_gps_entries; unfold len; lia.
  - intros gps_data'. destruct (sub_atom_size =? 0) eqn:E.
    + intros g. discriminate.
    + apply Z.eqb_neq in E. destruct (Hread E) as [Hlen Hpos].
      apply IH; lia.
Qed.

Lemma no_fuel_top_atoms (content : bytes) (cfg : Settings) :
  forall fuel offset gps_data is_moov,
    0 <= offset -> len content - offset < Z.of_nat fuel ->
    no_fuel (top_atoms fuel content cfg offset gps_data is_moov).
Proof.
  induction fuel as [| fuel IH]; intros offset gps_data is_moov H0 Hf;
    pose proof (get_atom_info_read content offset H0) as Hread;
    cbn [top_atoms];
    destruct (get_atom_info (pread content offset 8)) as [atom_size atom_type];
    cbn [fst] in Hread;
    (destruct (atom_size =? 0) eqn:E; [apply no_fuel_ret |]);
    apply Z.eqb_neq in E; destruct (Hread E) as [Hlen Hpos].
  - lia.
  - apply no_fuel_bind.
    + destruct (bytes_eqb atom_type b_moov); [| apply no_fuel_ret].
      apply no_fuel_bind; [| intros; apply no_fuel_ret].
      apply no_fuel_sub_atoms; unfold len; lia.
    + intros [gps_data' is_moov']. apply IH; lia.
Qed.

Lemma no_fuel_parse_moov (content : bytes) (cfg : Settings) :
  no_fuel (parse_moov content cfg).
Proof.
  unfold parse_moov. apply no_fuel_top_atoms; unfold len; lia.
Qed.

Lemma pread_empty (content : bytes) (pos : Z) :
  0 <= pos -> pread content pos 4 = [] -> len content <= pos.
Proof.
  intros H0 E.
  assert (H : len (pread content pos 4) = 0) by (rewrite E; reflexivity).
  unfold pread in H. rewrite ztake_length, zskip_length in H by lia. lia.
Qed.

Lemma no_fuel_ts_packets (content : bytes) (cfg : Settings) :
  forall fuel position partial gps_data,
    0 <= position -> (1 <= fuel)%nat ->
    (position < len content -> len content - position < Z.of_nat fuel - 1) ->
    no_fuel (ts_packets fuel content cfg position partial gps_data).
Proof.
  induction fuel as [| fuel IH]; intros position partial gps_data H0 H1 Hf; [lia |].
  cbn [ts_packets].
  apply no_fuel_bind.
  - no_fuel_steps; apply no_fuel_get_gps_data.
  - intros [gps_data' partial'].
    destruct (pread content position 4) as [| b r] eqn:E; [apply no_fuel_ret |].
    assert (Hlt : position < len content).
    { destruct (Z.lt_ge_cases position (len content)) as [H | H]; [exact H |].
      exfalso.
      assert (Hl : len (pread content position 4) = 0)
        by (unfold pread; rewrite ztake_length, zskip_length by lia; lia).
      rewrite E in Hl. unfold len in Hl. cbn in Hl. lia. }
    apply IH; lia.
Qed.

Lemma no_fuel_parse_ts (content : bytes) (cfg : Settings) :
  no_fuel (parse_ts content cfg).
Proof.
  unfold parse_ts.
  destruct (_ && _); [| apply no_fuel_ret].
  apply no_fuel_bind; [| intros; apply no_fuel_ret].
  apply no_fuel_ts_packets; unfold len; lia.
Qed.

(** No file makes [process_file] run out of rounds: it returns, raises, or
    loops for ever on a sub-atom of size zero. *)
Theorem process_file_has_outcome (content : bytes) (cfg : Settings) (g : Globals) :
  fst (process_file content cfg g) <> OutOfFuel.
Proof.
  revert g. change (no_fuel (process_file content cfg)).
  unfold process_file.
  apply no_fuel_bind; [apply no_fuel_parse_moov | intros [gps_data is_moov]].
  apply no_fuel_bind; [| intros; apply no_fuel_ret].
  destruct is_moov; [apply no_fuel_ret |].
  apply no_fuel_bind; [apply no_fuel_parse_ts | intros [d ?]; apply no_fuel_ret].
Qed.

(* ================================================================== *)
(** * Part III: further properties of the code *)
(* ================================================================== *)

(** ** The distance of the far-enough filter *)

Lemma atan2_quadrant (y x : R) :
  (0 <= y)%R -> (0 <= x)%R -> (0 <= atan2 y x <= PI / 2)%R.
Proof.
  intros Hy Hx. pose proof PI_RGT_0 as Hpi. unfold atan2.
  destruct (Rlt_dec 0 x) as [Hp | Hnp].
  - assert (Hq : (0 <= y / x)%R).
    { apply Rmult_le_pos; [exact Hy | left; apply Rinv_0_lt_compat; exact Hp]. }
    pose proof (atan_bound (y / x)) as [_ Hub].
    split; [| lra].
    destruct Hq as [Hq | Hq].
    + pose proof (atan_increasing 0 (y / x) Hq) as H. rewrite atan_0 in H. lra.
    + rewrite <- Hq, atan_0. lra.
  - destruct (Rlt_dec x 0) as [Hn | _]; [lra |].
    destruct (Rlt_dec 0 y) as [_ | _]; [lra |].
    destruct (Rlt_dec y 0) as [Hn | _]; lra.
Qed.

(** X1.  The distance the filter computes does not depend on the direction, is
    zero from a position to itself, and lies between zero and half the
    circumference of the sphere. *)
Theorem haversine_km_metric (latA lonA latB lonB : R) :
  haversine_km latA lonA latB lonB = haversine_km latB lonB latA lonA
  /\ haversine_km latA lonA latA lonA = 0%R
  /\ (0 <= haversine_km latA lonA latB lonB <= R_earth * PI)%R.
Proof.
  split; [| split].
  - unfold haversine_km.
    replace ((radians latA - radians latB) / 2)%R
      with (- ((radians latB - radians latA) / 2))%R by field.
    replace ((radians lonA - radians lonB) / 2)%R
      with (- ((radians lonB - radians lonA) / 2))%R by field.
    rewrite !sin_neg.
    set (s1 := sin ((radians latB - radians latA) / 2)).
    set (s2 := sin ((radians lonB - radians lonA) / 2)).
    replace ((- s1) ^ 2 + cos (radians latB) * cos (radians latA) * (- s2) ^ 2)%R
      with (s1 ^ 2 + cos (radians latA) * cos (radians latB) * s2 ^ 2)%R by ring.
    reflexivity.
  - apply haversine_km_same.
  - unfold haversine_km.
    set (a := ((sin ((radians latB - radians latA) / 2)) ^ 2
               + cos (radians latA) * cos (radians latB)
                 * (sin ((radians lonB - radians lonA) / 2)) ^ 2)%R).
    pose proof (atan2_quadrant (sqrt a) (sqrt (1 - a)) (sqrt_pos _) (sqrt_pos _))
      as [Hlo Hhi].
    assert (HR : (0 < R_earth)%R) by (unfold R_earth; lra).
    split.
    + apply Rmult_le_pos; lra.
    + apply Rmult_le_compat_l; lra.
Qed.

(** X2.  A sample offered twice in a row off the equator: whatever the state
    and whatever the first answer, the second answer is ["N"] and leaves
    the state as the first call left it. *)
Theorem far_enough_repeat (lat lon : R) (g : Globals) :
  lat <> 0%R ->
  forall far g1,
    isFrameFarEnoughFromPrevious lat lon g = (Return far, g1) ->
    isFrameFarEnoughFromPrevious lat lon g1 = (Return "N"%string, g1)
    /\ (far = "Y"%string /\ previousLatitude g1 = lat /\ previousLongitude g1 = lon
        \/ far = "N"%string /\ g1 = g).
Proof.
  intros Hlat far g1 H.
  unfold isFrameFarEnoughFromPrevious in H.
  destruct (Req_dec_T (previousLatitude g) 0) as [E | Hne].
  - injection H as <- <-. split.
    + apply (far_enough_same_place (set_previous lat lon g)). exact Hlat.
    + left. repeat split; reflexivity.
  - destruct (Rgt_dec _ _) as [Hgt | Hle].
    + injection H as <- <-. split.
      * apply (far_enough_same_place (set_previous lat lon g)). exact Hlat.
      * left. repeat split; reflexivity.
    + injection H as <- <-. split.
      * apply far_enough_next; assumption.
      * right. split; reflexivity.
Qed.

Lemma far_enough_repeat_witness :
  isFrameFarEnoughFromPrevious 45.5 12 (set_previous 45.5 12 initial_globals)
  = (Return "N"%string, set_previous 45.5 12 initial_globals)
  /\ ("Y"%string = "Y"%string
      /\ previousLatitude (set_previous 45.5 12 initial_globals) = 45.5%R
      /\ previousLongitude (set_previous 45.5 12 initial_globals) = 12%R
      \/ "Y"%string = "N"%string
         /\ set_previous 45.5 12 initial_globals = initial_globals).
Proof.
  apply (far_enough_repeat 45.5 12 initial_globals).
  - lra.
  - apply far_enough_first. reflexivity.
Defined.

(** ** Ordered arrangements of a list are unique *)

Section SortedUnique.

Variable A : Type.
Variable le : A -> A -> Prop.
Hypothesis le_trans : forall x y z, le x y -> le y z -> le x z.
Hypothesis le_antisym : forall x y, le x y -> le y x -> x = y.
Hypothesis le_refl : forall x, le x x.

Lemma sorted_head_least (x : A) (t : list A) :
  Sorted le (x :: t) -> forall y, In y (x :: t) -> le x y.
Proof.
  intros Hs y Hy.
  apply Sorted_StronglySorted in Hs; [| exact le_trans].
  inversion Hs as [| ? ? _ Hall]; subst.
  destruct Hy as [<- | Hy]; [apply le_refl |].
  rewrite Forall_forall in Hall. apply Hall. exact Hy.
Qed.


End SortedUnique.



(** ** Outlier removal: what it keeps *)







(** ** Merging duplicates: the timestamps of the result *)

Lemma members_DT (k : string) (l : list GPS) (v : GPS) :
  In v (members k l) -> DT v = k.
Proof.
  unfold members. rewrite filter_In. intros [_ E].
  apply String.eqb_eq. exact E.
Qed.

(** A group that is not empty becomes one sample with the timestamp of
    its first member. *)
Lemma merge_members_DT (k : string) (values : list GPS) :
  values <> [] -> (forall v, In v values -> DT v = k) ->
  map DT (merge_members values) = [k].
Proof.
  intros Hne Hall. destruct values as [| v0 [| v1 r]]; [contradiction | |].
  - cbn. rewrite (Hall v0) by (left; reflexivity). reflexivity.
  - destruct (merge_group_fields v0 (v0 :: v1 :: r)) as (_ & _ & _ & _ & Hdt & _).
    cbn [merge_members map]. rewrite Hdt.
    rewrite (Hall v0) by (left; reflexivity). reflexivity.
Qed.

Lemma merged_groups_DT (l : list GPS) (ks : list string) :
  (forall k, In k ks -> In k (map DT l)) ->
  map DT (flat_map (fun k => merge_members (members k l)) ks) = ks.
Proof.
  induction ks as [| k t IH]; intros H; [reflexivity |].
  cbn [flat_map]. rewrite map_app, IH by (intros x Hx; apply H; right; exact Hx).
  rewrite (merge_members_DT k).
  - reflexivity.
  - apply members_nonempty, H. left. reflexivity.
  - intros v. apply members_DT.
Qed.

Lemma filter_keeps_all {A : Type} (f : A -> bool) (l : list A) :
  (forall x, In x l -> f x = true) -> filter f l = l.
Proof.
  induction l as [| x t IH]; intros H; cbn; [reflexivity |].
  rewrite (H x) by (left; reflexivity).
  rewrite IH by (intros y Hy; apply H; right; exact Hy). reflexivity.
Qed.

Lemma first_occurrences_of_NoDup (ks : list string) :
  NoDup ks -> first_occurrences ks = ks.
Proof.
  induction 1 as [| k t Hk _ IH]; cbn; [reflexivity |].
  rewrite IH, filter_keeps_all; [reflexivity |].
  intros x Hx. apply negb_true_iff.
  destruct (String.eqb_spec x k) as [-> | _]; [contradiction | reflexivity].
Qed.

(** In a track with distinct timestamps each sample is alone in its
    group. *)
Lemma members_alone (l : list GPS) :
  NoDup (map DT l) -> forall p, In p l -> members (DT p) l = [p].
Proof.
  induction l as [| q t IH]; cbn [map]; intros Hnd p Hin; [destruct Hin |].
  inversion Hnd as [| ? ? Hq Hnd']; subst.
  unfold members in *. cbn [filter].
  destruct Hin as [-> | Hin].
  - rewrite String.eqb_refl. f_equal. apply (members_nil (DT p) t Hq).
  - destruct (String.eqb_spec (DT q) (DT p)) as [E | _].
    + exfalso. apply Hq. rewrite E. apply in_map. exact Hin.
    + apply IH; assumption.
Qed.

Lemma flat_map_singletons {A : Type} (g : A -> list A) (l : list A) :
  (forall x, In x l -> g x = [x]) -> flat_map g l = l.
Proof.
  induction l as [| x t IH]; intros H; cbn; [reflexivity |].
  rewrite (H x) by (left; reflexivity).
  rewrite IH by (intros y Hy; apply H; right; exact Hy). reflexivity.
Qed.

Lemma merge_duplicates_of_distinct (l : list GPS) :
  NoDup (map DT l) -> merge_duplicates l = l.
Proof.
  intros Hnd. rewrite merge_duplicates_groups. unfold distinct_times.
  rewrite (first_occurrences_of_NoDup _ Hnd).
  rewrite flat_map_concat_map, map_map, <- flat_map_concat_map.
  apply flat_map_singletons. intros p Hp.
  rewrite (members_alone l Hnd p Hp). reflexivity.
Qed.

Lemma merge_duplicates_DT (l : list GPS) :
  map DT (merge_duplicates l) = distinct_times l.
Proof.
  rewrite merge_duplicates_groups. apply merged_groups_DT.
  intros k Hk. unfold distinct_times in Hk.
  rewrite first_occurrences_In in Hk. exact Hk.
Qed.

(** X5.  The result of merging has one sample for each distinct timestamp of
    the track, in the order of first occurrence, so no two of its samples
    share a timestamp; it is no longer than the track, and merging it
    again changes nothing. *)
Theorem merge_duplicates_idempotent (gps_data : list GPS) :
  map DT (merge_duplicates gps_data) = distinct_times gps_data
  /\ NoDup (map DT (merge_duplicates gps_data))
  /\ (List.length (merge_duplicates gps_data) <= List.length gps_data)%nat
  /\ merge_duplicates (merge_duplicates gps_data) = merge_duplicates gps_data.
Proof.
  assert (Hnd : NoDup (map DT (merge_duplicates gps_data))).
  { rewrite merge_duplicates_DT. apply first_occurrences_NoDup. }
  split; [apply merge_duplicates_DT |].
  split; [exact Hnd |].
  split; [| apply merge_duplicates_of_distinct; exact Hnd].
  rewrite <- (length_map DT (merge_duplicates gps_data)), merge_duplicates_DT.
  rewrite <- (length_map DT gps_data). unfold distinct_times.
  generalize (map DT gps_data) as ks.
  induction ks as [| k t IH]; cbn; [lia |].
  pose proof (filter_length_le (fun x => negb (x =? k)%string) (first_occurrences t)).
  lia.
Qed.

(** X6.  A track whose samples have distinct timestamps is returned as it is:
    no sample is dropped, changed or moved. *)
Theorem merge_duplicates_distinct_unchanged (gps_data : list GPS) :
  NoDup (map DT gps_data) -> merge_duplicates gps_data = gps_data.
Proof. apply merge_duplicates_of_distinct. Qed.

Lemma merge_duplicates_distinct_unchanged_witness :
  merge_duplicates track_crossed = track_crossed.
Proof.
  apply (merge_duplicates_distinct_unchanged track_crossed).
  unfold track_crossed, sample_at. cbn [map DT].
  repeat constructor; cbn; intuition discriminate.
Defined.

(** ** The decoder: what it raises *)

Lemma bytes_at_in_range (n offset : Z) (data : bytes) :
  0 <= n -> 0 <= offset -> offset + n <= len data ->
  exists bs, bytes_at n offset data = Some bs /\ len bs = n.
Proof.
  intros Hn Ho Hl. unfold bytes_at.
  replace (offset <? 0) with false by (symmetry; apply Z.ltb_ge; lia).
  replace ((0 <=? offset) && (offset + n <=? len data)) with true
    by (symmetry; apply andb_true_iff; split; apply Z.leb_le; lia).
  eexists. split; [reflexivity |].
  rewrite ztake_length, zskip_length by lia. lia.
Qed.

Lemma unpack_III_le_in_range (data : bytes) (offset : Z) :
  0 <= offset -> offset + 12 <= len data ->
  exists v, unpack_from 12 unpack_III_le data offset = Some v.
Proof.
  intros Ho Hl. unfold unpack_from.
  destruct (bytes_at_in_range 12 offset data ltac:(lia) Ho Hl) as (bs & -> & Hb).
  unfold len in Hb.
  do 13 (destruct bs as [| ? bs]; cbn in Hb; try lia).
  cbn. eauto.
Qed.

Lemma unpack_ff_le_in_range (data : bytes) (offset : Z) :
  0 <= offset -> offset + 8 <= len data ->
  exists v, unpack_from 8 unpack_ff_le data offset = Some v.
Proof.
  intros Ho Hl. unfold unpack_from.
  destruct (bytes_at_in_range 8 offset data ltac:(lia) Ho Hl) as (bs & -> & Hb).
  unfold len in Hb.
  do 9 (destruct bs as [| ? bs]; cbn in Hb; try lia).
  cbn. eauto.
Qed.

Lemma never_raises_ret (e : exn) {A : Type} (a : A) : never_raises e (ret a).
Proof. intros g. discriminate. Qed.

Lemma never_raises_bind (e : exn) {A B : Type} (m : M A) (k : A -> M B) :
  never_raises e m -> (forall a, never_raises e (k a)) -> never_raises e (bind m k).
Proof.
  intros Hm Hk g. unfold bind. specialize (Hm g).
  destruct (m g) as [[a | e' | |] g1]; cbn in *; try discriminate.
  - apply Hk.
  - intros E. apply Hm. injection E as ->. reflexivity.
Qed.

Lemma never_raises_unpacked (e : exn) {A : Type} (o : option A) :
  o <> None -> never_raises e (unpacked o).
Proof.
  intros H. destruct o; [apply never_raises_ret | contradiction].
Qed.

Lemma never_raises_dated (e : exn) (r : exn + Z) :
  r <> inl e -> never_raises e (dated r).
Proof.
  intros H. destruct r as [e' | t]; [| apply never_raises_ret].
  intros g E. apply H. cbn in E. injection E as ->. reflexivity.
Qed.

Lemma never_raises_finite (e : exn) (w : Z) :
  e <> NonFinite -> never_raises e (finite w).
Proof.
  intros H. unfold finite. destruct (f32_value w); [apply never_raises_ret |].
  intros g E. apply H. cbn in E. injection E as <-. reflexivity.
Qed.

Lemma never_raises_far_enough (e : exn) (lat lon : R) :
  never_raises e (isFrameFarEnoughFromPrevious lat lon).
Proof.
  intros g. destruct (far_enough_returns lat lon g) as (far & g' & H & _).
  rewrite H. discriminate.
Qed.

Lemma datetime_raises (y mo d h mi s : Z) (e : exn) :
  datetime y mo d h mi s = inl e -> e = ValueError \/ e = OverflowError.
Proof.
  unfold datetime. destruct (negb _); [intros [= <-]; auto |].
  destruct (_ && _); [discriminate | intros [= <-]; auto].
Qed.

Lemma datetime_sub_raises (dt n : Z) (e : exn) :
  datetime_sub dt n = inl e -> e = OverflowError.
Proof.
  unfold datetime_sub. destruct (_ <? _); [intros [= <-]; auto | discriminate].
Qed.

(** With its reads in range the standard decode raises nothing but what
    the date and the binary32 fields raise. *)
Lemma decode_standard_raises (data : bytes) (offset : Z) (cfg : Settings)
    (e : exn) :
  0 <= offset -> offset + 44 <= len data ->
  e = StructError \/ e = UnboundLocalError ->
  never_raises e (decode_standard data offset cfg).
Proof.
  intros Ho Hl He. unfold decode_standard.
  assert (Hne1 : e <> NonFinite) by (destruct He; subst; discriminate).
  assert (Hne2 : e <> ValueError) by (destruct He; subst; discriminate).
  assert (Hne3 : e <> OverflowError) by (destruct He; subst; discriminate).
  destruct (unpack_III_le_in_range data offset Ho ltac:(lia)) as [v1 H1].
  destruct (unpack_III_le_in_range data (offset + 3 * 4) ltac:(lia) ltac:(lia))
    as [v2 H2].
  destruct (unpack_sss_at data (offset + 3 * 4 + 3 * 4) ltac:(lia) ltac:(lia))
    as (a & n & c & _ & _ & _ & H3).
  destruct (unpack_ff_le_in_range data (offset + 3 * 4 + 3 * 4 + 4)
              ltac:(lia) ltac:(lia)) as [v4 H4].
  destruct (unpack_ff_le_in_range data (offset + 3 * 4 + 3 * 4 + 4 + 2 * 4)
              ltac:(lia) ltac:(lia)) as [v5 H5].
  apply never_raises_bind; [apply never_raises_unpacked; congruence |].
  intros [[hour minute] second].
  apply never_raises_bind; [apply never_raises_unpacked; congruence |].
  intros [[year month] day].
  apply never_raises_bind; [apply never_raises_unpacked; congruence |].
  intros [[active lat_hemi] lon_hemi].
  apply never_raises_bind; [apply never_raises_unpacked; congruence |].
  intros [lat_w lon_w].
  apply never_raises_bind; [apply never_raises_finite; exact Hne1 | intros lat_raw].
  apply never_raises_bind; [apply never_raises_finite; exact Hne1 | intros lon_raw].
  apply never_raises_bind; [apply never_raises_unpacked; congruence |].
  intros [speed_w bearing_w].
  apply never_raises_bind; [apply never_raises_finite; exact Hne1 | intros speed].
  apply never_raises_bind; [apply never_raises_finite; exact Hne1 | intros bearing].
  destruct (decode1 active), (decode1 lat_hemi), (decode1 lon_hemi);
    try apply never_raises_ret.
  destruct (if deobfuscate cfg then _ else _) as [lat_raw' lon_raw'].
  apply never_raises_bind.
  { apply never_raises_dated. intros E. apply datetime_raises in E.
    destruct E; congruence. }
  intros ts1.
  apply never_raises_bind.
  { apply never_raises_dated. intros E. apply datetime_sub_raises in E. congruence. }
  intros ts.
  apply never_raises_bind.
  { intros g. destruct (videoStartTs g); [discriminate |].
    destruct (datetime_sub ts (videoStartWrongAtoms g)) as [e' |] eqn:E;
      [| discriminate].
    apply datetime_sub_raises in E. cbn. congruence. }
  intros start.
  apply never_raises_bind; [apply never_raises_far_enough | intros far].
  destruct (if negb (doNotBearingDistance cfg) then _ else _) as [lat lon].
  apply never_raises_ret.
Qed.

(** The offset the search returns, when it is not negative, leaves room
    for the 44 bytes of a record, and the marker is 24 bytes into it. *)
Lemma get_gps_offset_room (data : bytes) (g : Globals) (offset : Z) (g1 : Globals) :
  get_gps_offset data g = (Return offset, g1) -> 0 <= offset ->
  offset + 44 <= len data /\ pattern_at data (offset + 24) = true /\ g1 = g.
Proof.
  intros H Ho. unfold get_gps_offset in H.
  destruct (scan_marker data (Z.to_nat (len data - 20))) as [[p |] | | |] eqn:Hs;
    try discriminate.
  - injection H as <- <-.
    destruct (highest_pattern_by_scan data p Hs) as (Hp & Hpat & _).
    replace (p - 24 + 24) with p by lia.
    split; [lia |]. split; [exact Hpat | reflexivity].
  - injection H as <- _. lia.
Qed.

(** The obfuscated decode raises [UnboundLocalError] once its date is
    valid, and [OverflowError] when a date field does not fit a C int. *)
Lemma decode_azdome_raises (data : bytes) (e : exn) :
  decode_azdome data = Raise e -> e = UnboundLocalError \/ e = OverflowError.
Proof.
  unfold decode_azdome.
  destruct (py_int _); [| discriminate].
  destruct (py_int _); [| discriminate].
  destruct (py_int _); [| discriminate].
  destruct (py_int _); [| discriminate].
  destruct (py_int _); [| discriminate].
  destruct (py_int _); [| discriminate].
  destruct (datetime _ _ _ _ _ _) as [e' | t] eqn:E.
  - apply datetime_raises in E. destruct E; subst; [discriminate |].
    intros [= <-]. auto.
  - intros [= <-]. auto.
Qed.

Lemma get_gps_data_raises (data : bytes) (cfg : Settings) (g : Globals) (e : exn) :
  e = StructError \/ e = UnboundLocalError ->
  fst (get_gps_data data cfg g) = Raise e ->
  (e = StructError /\ data = [])
  \/ (e <> StructError /\ exists b rest, data = b :: rest
        /\ is_azdome_marker b = true /\ decode_azdome data = Raise e).
Proof.
  intros He H. unfold get_gps_data, bind at 1 in H.
  destruct (get_gps_offset_returns data g) as (offset & g1 & Ho).
  rewrite Ho in H.
  destruct data as [| b rest].
  { cbn in H. left. split; [congruence | reflexivity]. }
  unfold unpacked, bind at 1, ret at 1 in H.
  destruct (is_azdome_marker b) eqn:Hb.
  - unfold bind at 1 in H.
    destruct (decode_azdome (b :: rest)) as [[sample |] | e' | |] eqn:Haz;
      cbn [fst] in H; try discriminate.
    + cbn [negb andb] in H.
      destruct (0 <=? offset) eqn:E; [| unfold ret in H; discriminate].
      apply Z.leb_le in E.
      destruct (get_gps_offset_room _ _ _ _ Ho E) as (Hroom & _).
      exfalso. exact (decode_standard_raises _ _ cfg e E Hroom He g1 H).
    + injection H as ->. right. split.
      * apply decode_azdome_raises in Haz. destruct Haz; subst; discriminate.
      * exists b, rest. auto.
  - unfold bind at 1, ret at 1 in H. cbn [negb andb] in H.
    destruct (0 <=? offset) eqn:E; [| unfold ret in H; discriminate].
    apply Z.leb_le in E.
    destruct (get_gps_offset_room _ _ _ _ Ho E) as (Hroom & _).
    exfalso. exact (decode_standard_raises _ _ cfg e E Hroom He g1 H).
Qed.

(** X7.  The reads of [get_gps_data] stay inside the region: [struct.error] is
    raised on the empty region and on no other, whose first byte cannot be
    read.  [UnboundLocalError] comes from the obfuscated decode alone. *)
Theorem get_gps_data_reads_in_range (data : bytes) (cfg : Settings) (g : Globals) :
  (fst (get_gps_data data cfg g) = Raise StructError <-> data = [])
  /\ (fst (get_gps_data data cfg g) = Raise UnboundLocalError
      <-> exists b rest, data = b :: rest /\ is_azdome_marker b = true
                         /\ decode_azdome data = Raise UnboundLocalError)
  /\ fst (get_gps_data data cfg g) <> OutOfFuel.
Proof.
  split; [| split; [| apply no_fuel_get_gps_data]].
  - split.
    + intros H.
      destruct (get_gps_data_raises data cfg g StructError (or_introl eq_refl) H)
        as [[_ E] | [E _]]; [exact E | congruence].
    + intros ->. unfold get_gps_data, bind.
      destruct (get_gps_offset_returns [] g) as (o & g1 & ->). reflexivity.
  - split.
    + intros H.
      destruct (get_gps_data_raises data cfg g UnboundLocalError (or_intror eq_refl) H)
        as [[E _] | [_ E]]; [discriminate | exact E].
    + intros (b & rest & -> & Hb & Haz). unfold get_gps_data, bind at 1.
      destruct (get_gps_offset_returns (b :: rest) g) as (o & g1 & ->).
      unfold unpacked, bind at 1, ret at 1. rewrite Hb.
      unfold bind. rewrite Haz. reflexivity.
Qed.

(** X8.  A region that starts with 0x05 or 0xF0 and whose six obfuscated date
    fields read as a valid date stops the program: the obfuscated decode
    tests a variable it has not bound, and nothing catches the
    [UnboundLocalError].  The search has run before and its count
    stands. *)
Theorem obfuscated_date_raises (b : byte) (rest : bytes) (cfg : Settings)
    (g : Globals) (y mo d h mi s t : Z) :
  is_azdome_marker b = true ->
  py_int (slice 14 18 (map xor_AA (b :: rest))) = Some y ->
  py_int (slice 18 20 (map xor_AA (b :: rest))) = Some mo ->
  py_int (slice 20 22 (map xor_AA (b :: rest))) = Some d ->
  py_int (slice 22 24 (map xor_AA (b :: rest))) = Some h ->
  py_int (slice 24 26 (map xor_AA (b :: rest))) = Some mi ->
  py_int (slice 26 28 (map xor_AA (b :: rest))) = Some s ->
  datetime (y + 2000) mo d h mi s = inr t ->
  decode_azdome (b :: rest) = Raise UnboundLocalError
  /\ get_gps_data (b :: rest) cfg g
     = (Raise UnboundLocalError, snd (get_gps_offset (b :: rest) g)).
Proof.
  intros Hb Hy Hmo Hd Hh Hmi Hs Ht.
  assert (Haz : decode_azdome (b :: rest) = Raise UnboundLocalError).
  { unfold decode_azdome. rewrite Hy, Hmo, Hd, Hh, Hmi, Hs, Ht. reflexivity. }
  split; [exact Haz |].
  unfold get_gps_data, bind at 1.
  destruct (get_gps_offset_returns (b :: rest) g) as (o & g1 & ->).
  unfold unpacked, bind at 1, ret at 1. rewrite Hb.
  unfold bind. rewrite Haz. reflexivity.
Qed.

Lemma obfuscated_date_raises_witness :
  decode_azdome region_obfuscated_date = Raise UnboundLocalError
  /\ get_gps_data region_obfuscated_date plain_settings initial_globals
     = (Raise UnboundLocalError,
        snd (get_gps_offset region_obfuscated_date initial_globals)).
Proof.
  apply (obfuscated_date_raises x05 (repeat x00 13 ++ obfuscated "00230724120030")
           plain_settings initial_globals 23 7 24 12 0 30
           (ymd2ord 2023 7 24 * 86400 + 12 * 3600 + 0 * 60 + 30));
    reflexivity.
Defined.

(** The marker at a pointer gives the hemisphere letters the decode reads
    there. *)
Lemma pattern_hemispheres (data : bytes) (p : Z) (a n e : byte) (lat lon : string) :
  pattern_at data p = true ->
  unpack_from 3 unpack_sss data p = Some (a, n, e) ->
  decode1 n = Some lat -> decode1 e = Some lon ->
  (lat = "N" \/ lat = "S")%string /\ (lon = "E" \/ lon = "W")%string.
Proof.
  intros Hpat Hu Hn He. unfold pattern_at in Hpat.
  destruct (byte_at data p) as [a' |] eqn:Ea; [| discriminate].
  destruct (byte_at data (p + 1)) as [n' |] eqn:En; [| discriminate].
  destruct (byte_at data (p + 2)) as [e' |] eqn:Ee; [| discriminate].
  assert (Hp : 0 <= p).
  { unfold byte_at in Ea. destruct (p <? 0) eqn:E; [discriminate |].
    apply Z.ltb_ge in E. exact E. }
  assert (Hl : p + 3 <= len data).
  { unfold byte_at in Ee. destruct (p + 2 <? 0); [discriminate |].
    assert (nth_error data (Z.to_nat (p + 2)) <> None) by congruence.
    apply nth_error_Some in H. unfold len. lia. }
  destruct (unpack_sss_at data p Hp Hl) as (a0 & n0 & e0 & Ha0 & Hn0 & He0 & Hu0).
  rewrite Hu in Hu0. injection Hu0 as <- <- <-.
  rewrite Ea in Ha0. rewrite En in Hn0. rewrite Ee in He0.
  injection Ha0 as <-. injection Hn0 as <-. injection He0 as <-.
  apply andb_true_iff in Hpat as [Hpat HE].
  apply andb_true_iff in Hpat as [_ HN].
  apply orb_true_iff in HN. apply orb_true_iff in HE.
  split.
  - destruct HN as [HN | HN]; apply Byte.byte_dec_bl in HN; subst n';
      injection Hn as <-; auto.
  - destruct HE as [HE | HE]; apply Byte.byte_dec_bl in HE; subst e';
      injection He as <-; auto.
Qed.

(** What a sample returned by the standard decode holds beside its
    time. *)
Lemma decode_standard_fields (data : bytes) (offset : Z) (cfg : Settings)
    (g : Globals) (s : GPS) (g' : Globals) :
  decode_standard data offset cfg g = (Return (Some s), g') ->
  exists a n e ts bearing g0 start,
    unpack_from 3 unpack_sss data (offset + 24) = Some (a, n, e)
    /\ FrameTimePosition s = ts - start
    /\ videoStartTs g' = Some start
    /\ (forall t, videoStartTs g = Some t -> start = t)
    /\ decode1 n = Some (LatHemi s) /\ decode1 e = Some (LonHemi s)
    /\ DT s = strftime ts
    /\ Epoch s = ts - UNIX_EPOCH - utc_offset cfg ts
    /\ Bearing s = correct_bearing_float bearing (bearingCorrection cfg)
    /\ isFrameFarEnoughFromPrevious
         (fix_coordinates (LatHemi s) (LatRaw s) (deobfuscate cfg))
         (fix_coordinates (LonHemi s) (LonRaw s) (deobfuscate cfg)) g0
       = (Return (FrameIsFarEnough s), g')
    /\ previousLatitude g0 = previousLatitude g
    /\ previousLongitude g0 = previousLongitude g
    /\ (LatFloat s, LonFloat s)
       = (if negb (doNotBearingDistance cfg)
          then distance_position_if_bearingCorrection
                 (fix_coordinates (LatHemi s) (LatRaw s) (deobfuscate cfg))
                 (fix_coordinates (LonHemi s) (LonRaw s) (deobfuscate cfg))
                 bearing (bearingCorrection cfg)
          else (fix_coordinates (LatHemi s) (LatRaw s) (deobfuscate cfg),
                fix_coordinates (LonHemi s) (LonRaw s) (deobfuscate cfg)))
    /\ datetime (Year s + 2000) (Month s) (Day s) (Hour s) (Minute s) (Second s)
       = inr (ts + 1)
    /\ (exists lat_w lon_w speed_w bearing_w lat0 lon0 speed0,
          unpack_from 8 unpack_ff_le data (offset + 28) = Some (lat_w, lon_w)
          /\ unpack_from 8 unpack_ff_le data (offset + 36) = Some (speed_w, bearing_w)
          /\ f32_value lat_w = Some lat0 /\ f32_value lon_w = Some lon0
          /\ f32_value speed_w = Some speed0 /\ f32_value bearing_w = Some bearing
          /\ (LatRaw s, LonRaw s)
             = (if deobfuscate cfg then deobfuscate_coord lat0 lon0 else (lat0, lon0))
          /\ Speed s = fix_speed speed0).
Proof.
  intros H. unfold decode_standard in H.
  bind_step H. destruct a as [[hour minute] second].
  bind_step H. destruct a as [[year month] day].
  bind_step H. destruct a as [[active lat_hemi] lon_hemi].
  bind_step H. destruct a as [lat_w lon_w].
  bind_step H. bind_step H.
  bind_step H. destruct a1 as [speed_w bearing_w].
  bind_step H. bind_step H.
  destruct (decode1 active), (decode1 lat_hemi) eqn:En, (decode1 lon_hemi) eqn:Ee;
    try (unfold ret in H; discriminate H).
  destruct (if deobfuscate cfg then _ else _) as [lat_raw lon_raw] eqn:Eraw.
  bind_step H. bind_step H. bind_step H.
  bind_step H.
  destruct (if negb (doNotBearingDistance cfg) then _ else _) as [lat lon] eqn:Epos.
  unfold ret in H. injection H as <- <-.
  cbn [LatHemi LonHemi DT Epoch Bearing LatRaw LonRaw LatFloat LonFloat
       FrameIsFarEnough Year Month Day Hour Minute Second Speed].
  cbn [FrameTimePosition].
  exists active, lat_hemi, lon_hemi, a4, a2, g0, a5.
  replace (offset + 24) with (offset + 3 * 4 + 3 * 4) by lia.
  split; [exact H2 |]. split; [reflexivity |].
  split.
  { destruct (far_enough_returns
                (fix_coordinates s1 lat_raw (deobfuscate cfg))
                (fix_coordinates s2 lon_raw (deobfuscate cfg)) g0)
      as (far & g2 & Hfar & Hts & _).
    rewrite Hfar in H12. injection H12 as _ <-. rewrite Hts.
    destruct (videoStartTs g) eqn:Eg.
    - injection H11 as <- <-. exact Eg.
    - destruct (datetime_sub a4 (videoStartWrongAtoms g)); [discriminate |].
      injection H11 as <- <-. reflexivity. }
  split.
  { intros t Et. rewrite Et in H11. injection H11 as <- _. reflexivity. }
  split; [exact En |]. split; [exact Ee |].
  split; [reflexivity |]. split; [reflexivity |]. split; [reflexivity |].
  split; [exact H12 |].
  assert (Hg0 : previousLatitude g0 = previousLatitude g
                /\ previousLongitude g0 = previousLongitude g).
  { destruct (videoStartTs g).
    - injection H11 as _ <-. auto.
    - destruct (datetime_sub a4 (videoStartWrongAtoms g)); [discriminate |].
      injection H11 as _ <-. auto. }
  split; [apply Hg0 |]. split; [apply Hg0 |].
  split; [symmetry; exact Epos |].
  split.
  { unfold datetime_sub in H10.
    destruct (a3 - 1 <? DATETIME_MIN); [discriminate |]. injection H10 as <-.
    replace (a3 - 1 + 1) with a3 by lia. exact H9. }
  exists lat_w, lon_w, speed_w, bearing_w, a, a0, a1.
  replace (offset + 3 * 4 + 3 * 4 + 28 - 24) with (offset + 28) by lia.
  replace (offset + 28) with (offset + 3 * 4 + 3 * 4 + 4) by lia.
  replace (offset + 36) with (offset + 3 * 4 + 3 * 4 + 4 + 2 * 4) by lia.
  split; [exact H3 |]. split; [exact H6 |].
  split; [exact H4 |]. split; [exact H5 |]. split; [exact H7 |]. split; [exact H8 |].
  split; [symmetry; exact Eraw | reflexivity].
Qed.

(** X9.  Every sample that [get_gps_data] returns from a record whose
    four binary32 fields are finite, which are the samples of this
    embedding: the region has at least 44 bytes; the hemisphere letters
    are those of the marker the search found, N or S for the latitude and
    E or W for the longitude; the raw coordinates, the speed and the
    bearing are computed from the four finite values, by
    [deobfuscate_coord] when the option asks for it, by [fix_speed] and by
    [correct_bearing]; the bearing lies between 0 and 360, both ends
    included (the upper end is met on floats only, by rounding); the
    epoch is the time of the sample read as local time, counted with the
    offset the zone has at that time; the flag is Y or N, and the
    position tested against the previous one, and remembered when the
    flag is Y, is the position before the bearing correction moves it. *)
Theorem sample_fields (data : bytes) (cfg : Settings)
    (g : Globals) (s : GPS) (g' : Globals) :
  get_gps_data data cfg g = (Return (Some s), g') ->
  let lat := fix_coordinates (LatHemi s) (LatRaw s) (deobfuscate cfg) in
  let lon := fix_coordinates (LonHemi s) (LonRaw s) (deobfuscate cfg) in
  44 <= len data
  /\ (LatHemi s = "N" \/ LatHemi s = "S")%string
  /\ (LonHemi s = "E" \/ LonHemi s = "W")%string
  /\ (exists offset lat_w lon_w speed_w bearing_w lat0 lon0 speed0 bearing0,
        0 <= offset /\ offset + 44 <= len data
        /\ unpack_from 8 unpack_ff_le data (offset + 28) = Some (lat_w, lon_w)
        /\ unpack_from 8 unpack_ff_le data (offset + 36) = Some (speed_w, bearing_w)
        /\ f32_value lat_w = Some lat0 /\ f32_value lon_w = Some lon0
        /\ f32_value speed_w = Some speed0 /\ f32_value bearing_w = Some bearing0
        /\ (LatRaw s, LonRaw s)
           = (if deobfuscate cfg then deobfuscate_coord lat0 lon0 else (lat0, lon0))
        /\ Speed s = fix_speed speed0
        /\ Bearing s = correct_bearing_float bearing0 (bearingCorrection cfg))
  /\ (0 <= Bearing s <= 360)%R
  /\ (exists ts, DT s = strftime ts
                 /\ datetime (Year s + 2000) (Month s) (Day s)
                             (Hour s) (Minute s) (Second s) = inr (ts + 1)
                 /\ Epoch s = ts - UNIX_EPOCH - utc_offset cfg ts)
  /\ (doNotBearingDistance cfg = true \/ bearingCorrection cfg = 0 ->
      LatFloat s = lat /\ LonFloat s = lon)
  /\ (FrameIsFarEnough s = "Y"%string
      /\ previousLatitude g' = lat /\ previousLongitude g' = lon
      \/ FrameIsFarEnough s = "N"%string
         /\ previousLatitude g' = previousLatitude g
         /\ previousLongitude g' = previousLongitude g).
Proof.
  intros H lat lon.
  destruct (get_gps_data_some data cfg g s g' H) as (p & Hp & Hpat & _ & Hd).
  destruct (decode_standard_fields data (p - 24) cfg g s g' Hd)
    as (a & n & e & ts & bearing & g0 & start & Hu & _ & _ & _
        & Hn & He & Hdt & Hep & Hb & Hfar
        & Hlat0 & Hlon0 & Hpos & Hdate & Hfloats).
  destruct Hfloats as (lat_w & lon_w & speed_w & bearing_w & lat0 & lon0 & speed0
                       & Hll & Hsb & Hf1 & Hf2 & Hf3 & Hf4 & Hraw & Hspeed).
  replace (p - 24 + 24) with p in Hu by lia.
  destruct (pattern_hemispheres data p a n e _ _ Hpat Hu Hn He) as [HN HE].
  split; [lia |]. split; [exact HN |]. split; [exact HE |].
  split.
  { exists (p - 24), lat_w, lon_w, speed_w, bearing_w, lat0, lon0, speed0, bearing.
    split; [lia |]. split; [lia |].
    split; [exact Hll |]. split; [exact Hsb |].
    split; [exact Hf1 |]. split; [exact Hf2 |]. split; [exact Hf3 |].
    split; [exact Hf4 |]. split; [exact Hraw |]. split; [exact Hspeed | exact Hb]. }
  split.
  { rewrite Hb. unfold correct_bearing_float.
    pose proof (py_fmod_range (bearing + IZR (bearingCorrection cfg)) 360
                  ltac:(lra)). lra. }
  split; [exists ts; auto |].
  split.
  { intros Hc. fold lat lon in Hpos.
    unfold distance_position_if_bearingCorrection in Hpos.
    destruct Hc as [Hc | Hc]; rewrite Hc in Hpos; cbn in Hpos;
      [| destruct (negb (doNotBearingDistance cfg))];
      injection Hpos as -> ->; auto. }
  fold lat lon in Hfar. unfold isFrameFarEnoughFromPrevious in Hfar.
  destruct (Req_dec_T (previousLatitude g0) 0);
    [| destruct (Rgt_dec _ _)]; injection Hfar as <- <-.
  - left. auto.
  - left. auto.
  - right. auto.
Qed.

Lemma sample_fields_witness :
  exists s g',
    get_gps_data region_A plain_settings initial_globals = (Return (Some s), g')
    /\ 44 <= len region_A
    /\ (LatHemi s = "N" \/ LatHemi s = "S")%string
    /\ (LonHemi s = "E" \/ LonHemi s = "W")%string
    /\ (exists offset lat_w lon_w speed_w bearing_w lat0 lon0 speed0 bearing0,
          0 <= offset /\ offset + 44 <= len region_A
          /\ unpack_from 8 unpack_ff_le region_A (offset + 28) = Some (lat_w, lon_w)
          /\ unpack_from 8 unpack_ff_le region_A (offset + 36)
             = Some (speed_w, bearing_w)
          /\ f32_value lat_w = Some lat0 /\ f32_value lon_w = Some lon0
          /\ f32_value speed_w = Some speed0 /\ f32_value bearing_w = Some bearing0
          /\ (LatRaw s, LonRaw s)
             = (if deobfuscate plain_settings then deobfuscate_coord lat0 lon0
                else (lat0, lon0))
          /\ Speed s = fix_speed speed0
          /\ Bearing s
             = correct_bearing_float bearing0 (bearingCorrection plain_settings))
    /\ (0 <= Bearing s <= 360)%R
    /\ (exists ts, DT s = strftime ts
                   /\ datetime (Year s + 2000) (Month s) (Day s)
                               (Hour s) (Minute s) (Second s) = inr (ts + 1)
                   /\ Epoch s = ts - UNIX_EPOCH - utc_offset plain_settings ts)
    /\ (doNotBearingDistance plain_settings = true
        \/ bearingCorrection plain_settings = 0 ->
        LatFloat s = fix_coordinates (LatHemi s) (LatRaw s) (deobfuscate plain_settings)
        /\ LonFloat s = fix_coordinates (LonHemi s) (LonRaw s) (deobfuscate plain_settings))
    /\ (FrameIsFarEnough s = "Y"%string
        /\ previousLatitude g'
           = fix_coordinates (LatHemi s) (LatRaw s) (deobfuscate plain_settings)
        /\ previousLongitude g'
           = fix_coordinates (LonHemi s) (LonRaw s) (deobfuscate plain_settings)
        \/ FrameIsFarEnough s = "N"%string
           /\ previousLatitude g' = previousLatitude initial_globals
           /\ previousLongitude g' = previousLongitude initial_globals).
Proof.
  assert (H : exists s g',
             get_gps_data region_A plain_settings initial_globals
             = (Return (Some s), g')).
  { do 2 eexists. run. rewrite far_enough_first by reflexivity. run. reflexivity. }
  destruct H as (s & g' & H).
  exists s, g'. split; [exact H |].
  exact (sample_fields _ _ _ _ _ H).
Defined.

(** X10.  A standard record whose fields do not form a date stops the program:
    [datetime.datetime] raises [ValueError], or [OverflowError] for a field
    beyond a C int, and the decode does not catch it; only the conversion
    to the epoch is guarded.  The state is as the search left it. *)
Theorem invalid_date_raises (data : bytes) (cfg : Settings) (g g1 : Globals)
    (offset hour minute second year month day lat_w lon_w speed_w bearing_w : Z)
    (e : exn) :
  decode_azdome data = Return None \/ hd_error (map is_azdome_marker data) = Some false ->
  get_gps_offset data g = (Return offset, g1) -> 0 <= offset ->
  unpack_from 12 unpack_III_le data offset = Some (hour, minute, second) ->
  unpack_from 12 unpack_III_le data (offset + 12) = Some (year, month, day) ->
  unpack_from 8 unpack_ff_le data (offset + 28) = Some (lat_w, lon_w) ->
  unpack_from 8 unpack_ff_le data (offset + 36) = Some (speed_w, bearing_w) ->
  f32_value lat_w <> None -> f32_value lon_w <> None ->
  f32_value speed_w <> None -> f32_value bearing_w <> None ->
  datetime (year + 2000) month day hour minute second = inl e ->
  get_gps_data data cfg g = (Raise e, g)
  /\ (e = ValueError \/ e = OverflowError).
Proof.
  intros Haz Ho Hoff Ht Hd Hll Hsb Hlat Hlon Hsp Hbe Hdate.
  destruct (get_gps_offset_room data g offset g1 Ho Hoff) as (Hroom & Hpat & ->).
  split; [| exact (datetime_raises _ _ _ _ _ _ _ Hdate)].
  assert (Hstd : get_gps_data data cfg g = decode_standard data offset cfg g).
  { unfold get_gps_data, bind at 1. rewrite Ho.
    destruct data as [| b rest]; [unfold len in Hroom; cbn in Hroom; lia |].
    unfold unpacked, bind at 1, ret at 1.
    replace (0 <=? offset) with true by (symmetry; apply Z.leb_le; lia).
    destruct Haz as [Haz | Haz].
    - destruct (is_azdome_marker b); unfold bind; [rewrite Haz |]; reflexivity.
    - cbn in Haz. injection Haz as ->. reflexivity. }
  rewrite Hstd. unfold decode_standard.
  destruct (unpack_sss_at data (offset + 24) ltac:(lia) ltac:(lia))
    as (a & n & c & _ & _ & _ & Hu).
  destruct (f32_value lat_w) as [lat |] eqn:E1; [| contradiction].
  destruct (f32_value lon_w) as [lon |] eqn:E2; [| contradiction].
  destruct (f32_value speed_w) as [speed |] eqn:E3; [| contradiction].
  destruct (f32_value bearing_w) as [bearing |] eqn:E4; [| contradiction].
  replace (offset + 3 * 4) with (offset + 12) by lia.
  replace (offset + 12 + 3 * 4) with (offset + 24) by lia.
  replace (offset + 24 + 4) with (offset + 28) by lia.
  replace (offset + 28 + 2 * 4) with (offset + 36) by lia.
  rewrite Ht, Hd, Hu, Hll, Hsb.
  unfold unpacked, finite, bind at 1, ret at 1.
  unfold bind at 1, ret at 1. unfold bind at 1, ret at 1.
  unfold bind at 1, ret at 1. rewrite E1. unfold bind at 1, ret at 1.
  rewrite E2. unfold bind at 1, ret at 1. unfold bind at 1, ret at 1.
  rewrite E3. unfold bind at 1, ret at 1. rewrite E4. unfold bind at 1, ret at 1.
  destruct (unpack_sss_at data (offset + 24) ltac:(lia) ltac:(lia))
    as (a' & n' & c' & Ha' & Hn' & Hc' & Hu').
  rewrite Hu in Hu'. injection Hu' as <- <- <-.
  assert (Hdec : exists sa sn sc,
             decode1 a = Some sa /\ decode1 n = Some sn /\ decode1 c = Some sc).
  { unfold pattern_at in Hpat. rewrite Ha', Hn', Hc' in Hpat.
    apply andb_true_iff in Hpat as [Hpat HE].
    apply andb_true_iff in Hpat as [HA HN].
    apply orb_true_iff in HN. apply orb_true_iff in HE.
    apply Byte.byte_dec_bl in HA. subst a.
    destruct HN as [HN | HN]; apply Byte.byte_dec_bl in HN; subst n;
      destruct HE as [HE | HE]; apply Byte.byte_dec_bl in HE; subst c;
      do 3 eexists; (split; [reflexivity | split; reflexivity]). }
  destruct Hdec as (sa & sn & sc & -> & -> & ->).
  destruct (if deobfuscate cfg then _ else _) as [lat_raw lon_raw].
  rewrite Hdate. reflexivity.
Qed.

Lemma invalid_date_raises_witness :
  get_gps_data region_month_13 plain_settings initial_globals
  = (Raise ValueError, initial_globals)
  /\ (ValueError = ValueError \/ ValueError = OverflowError).
Proof.
  apply (invalid_date_raises region_month_13 plain_settings
           initial_globals initial_globals 0 12 0 30 23 13 24
           w_4530 w_1200 w_10 w_90 ValueError);
    try reflexivity; try lia; try discriminate.
  right. reflexivity.
Defined.

Lemma start_kept_refl (g : Globals) : start_kept g g.
Proof. unfold start_kept. destruct (videoStartTs g); auto. lia. Qed.

Lemma start_kept_trans (a b c : Globals) :
  start_kept a b -> start_kept b c -> start_kept a c.
Proof.
  unfold start_kept. intros Hab Hbc.
  destruct (videoStartTs a) as [t |].
  - destruct Hab as (E1 & E2 & E3). rewrite E1 in Hbc.
    destruct Hbc as (F1 & F2 & F3). repeat split; congruence.
  - destruct (videoStartTs b) as [t |].
    + destruct Hbc as (_ & _ & F3). lia.
    + lia.
Qed.

(** X11.  Within a stream the frame time positions of two samples differ
    as their times do: both are counted from the one video start, which
    no step of the program moves once it is set.  Their epochs differ by
    the same amount less the change of the offset of the local zone
    between the two times; so the two differences agree exactly when the
    zone has one offset at both times. *)
Theorem time_positions_and_epochs (d1 d2 : bytes) (cfg : Settings)
    (g g1 g2 g3 : Globals) (s1 s2 : GPS) :
  get_gps_data d1 cfg g = (Return (Some s1), g1) ->
  start_kept g1 g2 ->
  get_gps_data d2 cfg g2 = (Return (Some s2), g3) ->
  exists ts1 ts2,
    datetime (Year s1 + 2000) (Month s1) (Day s1) (Hour s1) (Minute s1) (Second s1)
    = inr (ts1 + 1)
    /\ datetime (Year s2 + 2000) (Month s2) (Day s2) (Hour s2) (Minute s2) (Second s2)
       = inr (ts2 + 1)
    /\ DT s1 = strftime ts1 /\ DT s2 = strftime ts2
    /\ FrameTimePosition s2 - FrameTimePosition s1 = ts2 - ts1
    /\ Epoch s2 - Epoch s1
       = ts2 - ts1 - (utc_offset cfg ts2 - utc_offset cfg ts1)
    /\ (FrameTimePosition s2 - FrameTimePosition s1 = Epoch s2 - Epoch s1
        <-> utc_offset cfg ts1 = utc_offset cfg ts2).
Proof.
  intros H1 Hk H2.
  destruct (get_gps_data_some d1 cfg g s1 g1 H1) as (p1 & _ & _ & _ & Hd1).
  destruct (get_gps_data_some d2 cfg g2 s2 g3 H2) as (p2 & _ & _ & _ & Hd2).
  destruct (decode_standard_fields _ _ _ _ _ _ Hd1)
    as (_ & _ & _ & ts1 & _ & _ & start1 & _ & Hf1 & Hs1 & _ & _ & _ & Hdt1 & He1
        & _ & _ & _ & _ & _ & Hdate1 & _).
  destruct (decode_standard_fields _ _ _ _ _ _ Hd2)
    as (_ & _ & _ & ts2 & _ & _ & start2 & _ & Hf2 & _ & Hs2 & _ & _ & Hdt2 & He2
        & _ & _ & _ & _ & _ & Hdate2 & _).
  unfold start_kept in Hk. rewrite Hs1 in Hk. destruct Hk as (Hk & _).
  rewrite (Hs2 start1 Hk) in Hf2.
  exists ts1, ts2.
  split; [exact Hdate1 |]. split; [exact Hdate2 |].
  split; [exact Hdt1 |]. split; [exact Hdt2 |].
  split; [lia |]. split; [lia |].
  split; intros; lia.
Qed.

Lemma time_positions_and_epochs_witness :
  exists s1 g1 s2 g3,
    (get_gps_data region_A plain_settings initial_globals = (Return (Some s1), g1)
     /\ get_gps_data region_B plain_settings g1 = (Return (Some s2), g3))
    /\ exists ts1 ts2,
         datetime (Year s1 + 2000) (Month s1) (Day s1)
                  (Hour s1) (Minute s1) (Second s1) = inr (ts1 + 1)
         /\ datetime (Year s2 + 2000) (Month s2) (Day s2)
                     (Hour s2) (Minute s2) (Second s2) = inr (ts2 + 1)
         /\ DT s1 = strftime ts1 /\ DT s2 = strftime ts2
         /\ FrameTimePosition s2 - FrameTimePosition s1 = ts2 - ts1
         /\ Epoch s2 - Epoch s1
            = ts2 - ts1
              - (utc_offset plain_settings ts2 - utc_offset plain_settings ts1)
         /\ (FrameTimePosition s2 - FrameTimePosition s1 = Epoch s2 - Epoch s1
             <-> utc_offset plain_settings ts1 = utc_offset plain_settings ts2).
Proof.
  assert (H : exists s1 g1 s2 g3,
             get_gps_data region_A plain_settings initial_globals
             = (Return (Some s1), g1)
             /\ get_gps_data region_B plain_settings g1 = (Return (Some s2), g3)).
  { do 4 eexists. split.
    - run. rewrite far_enough_first by reflexivity. run. reflexivity.
    - run. far_same_place. run. reflexivity. }
  destruct H as (s1 & g1 & s2 & g3 & H1 & H2).
  exists s1, g1, s2, g3. split; [split; assumption |].
  exact (time_positions_and_epochs _ _ _ _ _ _ _ _ _ H1 (start_kept_refl g1) H2).
Defined.

(** ** A relation kept by every region is kept by the whole run *)

Section KeptRelation.

Variable rel : Globals -> Globals -> Prop.
Hypothesis rel_refl : forall g, rel g g.
Hypothesis rel_trans : forall a b c, rel a b -> rel b c -> rel a c.

Lemma keeps_still {A : Type} (o : outcome A) : keeps rel (fun g => (o, g)).
Proof. intros g. apply rel_refl. Qed.

Lemma keeps_ret {A : Type} (a : A) : keeps rel (ret a).
Proof. apply keeps_still. Qed.

Lemma keeps_unpacked {A : Type} (o : option A) : keeps rel (unpacked o).
Proof. destruct o; apply keeps_still. Qed.

Lemma keeps_dated (r : exn + Z) : keeps rel (dated r).
Proof. destruct r; apply keeps_still. Qed.

Lemma keeps_finite (w : Z) : keeps rel (finite w).
Proof. unfold finite. destruct (f32_value w); apply keeps_still. Qed.

Lemma keeps_bind {A B : Type} (m : M A) (k : A -> M B) :
  keeps rel m -> (forall a, keeps rel (k a)) -> keeps rel (bind m k).
Proof.
  intros Hm Hk g. unfold bind. specialize (Hm g).
  destruct (m g) as [[a | e | |] g1]; cbn in *; try exact Hm.
  apply rel_trans with g1; [exact Hm | apply Hk].
Qed.

Hypothesis keeps_get_gps_data :
  forall data cfg, keeps rel (get_gps_data data cfg).

Lemma keeps_get_gps_atom (info : Z * Z) (content : bytes) (cfg : Settings) :
  keeps rel (get_gps_atom info content cfg).
Proof.
  unfold get_gps_atom. destruct info as [atom_pos atom_size].
  destruct ((atom_size =? 0) || (atom_pos =? 0)); [apply keeps_ret |].
  apply keeps_bind; [apply keeps_unpacked | intros [[atom_size1 atom_type] magic]].
  destruct (_ || _); [apply keeps_ret | apply keeps_get_gps_data].
Qed.

Lemma keeps_gps_entries (content : bytes) (cfg : Settings) (stop : Z) :
  forall fuel gps_offset gps_data,
    keeps rel (gps_entries fuel content cfg gps_offset stop gps_data).
Proof.
  induction fuel as [| fuel IH]; intros gps_offset gps_data; cbn [gps_entries];
    destruct (gps_offset <? stop); try apply keeps_ret; try apply keeps_still.
  apply keeps_bind; [apply keeps_unpacked | intros info].
  apply keeps_bind; [apply keeps_get_gps_atom | intros data].
  apply IH.
Qed.

Lemma keeps_sub_atoms (content : bytes) (cfg : Settings) (stop : Z) :
  forall fuel sub_offset gps_data,
    keeps rel (sub_atoms fuel content cfg sub_offset stop gps_data).
Proof.
  induction fuel as [| fuel IH]; intros sub_offset gps_data; cbn [sub_atoms];
    destruct (sub_offset <? stop); try apply keeps_ret; try apply keeps_still.
  destruct (get_atom_info (pread content sub_offset 8)) as [sub_atom_size sub_atom_type].
  apply keeps_bind.
  - destruct (bytes_eqb sub_atom_type b_gps);
      [apply keeps_gps_entries | apply keeps_ret].
  - intros gps_data'.
    destruct (sub_atom_size =? 0); [apply keeps_still | apply IH].
Qed.

Lemma keeps_top_atoms (content : bytes) (cfg : Settings) :
  forall fuel offset gps_data is_moov,
    keeps rel (top_atoms fuel content cfg offset gps_data is_moov).
Proof.
  induction fuel as [| fuel IH]; intros offset gps_data is_moov; cbn [top_atoms];
    destruct (get_atom_info (pread content offset 8)) as [atom_size atom_type];
    destruct (atom_size =? 0); try apply keeps_ret; try apply keeps_still.
  apply keeps_bind.
  - destruct (bytes_eqb atom_type b_moov); [| apply keeps_ret].
    apply keeps_bind; [apply keeps_sub_atoms | intros ?; apply keeps_ret].
  - intros [gps_data' is_moov']. apply IH.
Qed.

Lemma keeps_parse_moov (content : bytes) (cfg : Settings) :
  keeps rel (parse_moov content cfg).
Proof. apply keeps_top_atoms. Qed.

Lemma keeps_ts_packets (content : bytes) (cfg : Settings) :
  forall fuel position partial gps_data,
    keeps rel (ts_packets fuel content cfg position partial gps_data).
Proof.
  induction fuel as [| fuel IH]; intros position partial gps_data;
    cbn [ts_packets]; [apply keeps_still |].
  apply keeps_bind.
  - destruct (_ || _); [| apply keeps_ret].
    destruct (bytes_eqb _ _).
    + apply keeps_bind; [apply keeps_get_gps_data | intros [s |]; apply keeps_ret].
    + destruct partial; [apply keeps_ret |].
      apply keeps_bind; [apply keeps_unpacked | intros first].
      apply keeps_bind; [apply keeps_get_gps_data | intros data; apply keeps_ret].
  - intros [gps_data' partial'].
    destruct (pread content position 4); [apply keeps_ret | apply IH].
Qed.

Lemma keeps_parse_ts (content : bytes) (cfg : Settings) :
  keeps rel (parse_ts content cfg).
Proof.
  unfold parse_ts. destruct (_ && _); [| apply keeps_ret].
  apply keeps_bind; [apply keeps_ts_packets | intros ?; apply keeps_ret].
Qed.

Lemma keeps_process_file (content : bytes) (cfg : Settings) :
  keeps rel (process_file content cfg).
Proof.
  unfold process_file.
  apply keeps_bind; [apply keeps_parse_moov | intros [gps_data is_moov]].
  apply keeps_bind; [| intros ?; apply keeps_ret].
  destruct is_moov; [apply keeps_ret |].
  apply keeps_bind; [apply keeps_parse_ts | intros [? ?]; apply keeps_ret].
Qed.

Lemma keeps_process_files (cfg : Settings) :
  forall in_files, keeps rel (process_files in_files cfg).
Proof.
  induction in_files as [| in_file rest IH]; cbn [process_files];
    [apply keeps_ret |].
  apply keeps_bind; [apply keeps_process_file | intros track].
  apply keeps_bind; [apply IH | intros ?; apply keeps_ret].
Qed.

Lemma keeps_main_single (in_files : list bytes) (cfg : Settings) (sort_by_d : bool) :
  keeps rel (main_single in_files cfg sort_by_d).
Proof.
  unfold main_single.
  apply keeps_bind; [apply keeps_process_files | intros ?; apply keeps_ret].
Qed.

End KeptRelation.

(** ** The start of the video, once set, stays *)

Lemma start_kept_get_gps_offset (data : bytes) :
  keeps start_kept (get_gps_offset data).
Proof.
  intros g. unfold get_gps_offset.
  destruct (scan_marker data _) as [[p |] | | |]; cbn [snd];
    try apply start_kept_refl.
  unfold start_kept. destruct (videoStartTs g) eqn:E; cbn; rewrite ?E; auto; lia.
Qed.

Lemma start_kept_far_enough (lat lon : R) :
  keeps start_kept (isFrameFarEnoughFromPrevious lat lon).
Proof.
  intros g. destruct (far_enough_returns lat lon g) as (far & g' & H & Hts & Hi & Hw).
  rewrite H. cbn [snd]. unfold start_kept. rewrite Hts, Hi, Hw.
  destruct (videoStartTs g); auto. lia.
Qed.

Lemma start_kept_decode_standard (data : bytes) (offset : Z) (cfg : Settings) :
  keeps start_kept (decode_standard data offset cfg).
Proof.
  pose proof start_kept_refl as Hr. pose proof start_kept_trans as Ht.
  unfold decode_standard.
  apply keeps_bind; [assumption | apply keeps_unpacked; assumption |].
  intros [[hour minute] second].
  apply keeps_bind; [assumption | apply keeps_unpacked; assumption |].
  intros [[year month] day].
  apply keeps_bind; [assumption | apply keeps_unpacked; assumption |].
  intros [[active lat_hemi] lon_hemi].
  apply keeps_bind; [assumption | apply keeps_unpacked; assumption |].
  intros [lat_w lon_w].
  apply keeps_bind; [assumption | apply keeps_finite; assumption | intros lat_raw].
  apply keeps_bind; [assumption | apply keeps_finite; assumption | intros lon_raw].
  apply keeps_bind; [assumption | apply keeps_unpacked; assumption |].
  intros [speed_w bearing_w].
  apply keeps_bind; [assumption | apply keeps_finite; assumption | intros speed].
  apply keeps_bind; [assumption | apply keeps_finite; assumption | intros bearing].
  destruct (decode1 active), (decode1 lat_hemi), (decode1 lon_hemi);
    try (apply keeps_ret; assumption).
  destruct (if deobfuscate cfg then _ else _) as [lat_raw' lon_raw'].
  apply keeps_bind; [assumption | apply keeps_dated; assumption | intros ts1].
  apply keeps_bind; [assumption | apply keeps_dated; assumption | intros ts].
  apply keeps_bind; [assumption | |].
  { intros g. unfold start_kept. destruct (videoStartTs g) eqn:E; cbn [snd].
    - rewrite ?E. auto.
    - destruct (datetime_sub ts (videoStartWrongAtoms g)); cbn; rewrite ?E; lia. }
  intros start.
  apply keeps_bind; [assumption | apply start_kept_far_enough | intros far].
  destruct (if negb (doNotBearingDistance cfg) then _ else _) as [lat lon].
  apply keeps_ret; assumption.
Qed.

Lemma start_kept_get_gps_data (data : bytes) (cfg : Settings) :
  keeps start_kept (get_gps_data data cfg).
Proof.
  pose proof start_kept_refl as Hr. pose proof start_kept_trans as Ht.
  unfold get_gps_data.
  apply keeps_bind; [assumption | apply start_kept_get_gps_offset | intros offset].
  apply keeps_bind; [assumption | apply keeps_unpacked; assumption | intros b0].
  apply keeps_bind; [assumption | |].
  - destruct (is_azdome_marker b0); [| apply keeps_ret; assumption].
    intros g. destruct (decode_azdome data) as [[? |] | | |]; apply Hr.
  - intros azdome.
    destruct (negb azdome && (0 <=? offset));
      [apply start_kept_decode_standard | apply keeps_ret; assumption].
Qed.

(** X12.  Once [videoStartTs] is set, nothing the program does afterwards
    changes it, its message or the count of failed regions: not another
    region, not the rest of the file, not the next file of the run,
    whatever the outcome, an exception included.  Until it is set the
    count does not go down. *)
Theorem video_start_is_kept (cfg : Settings) (g : Globals) :
  (forall data, start_kept g (snd (get_gps_data data cfg g)))
  /\ (forall content, start_kept g (snd (parse_moov content cfg g)))
  /\ (forall content, start_kept g (snd (parse_ts content cfg g)))
  /\ (forall content, start_kept g (snd (process_file content cfg g)))
  /\ (forall in_files, start_kept g (snd (process_files in_files cfg g)))
  /\ (forall in_files sort_by_d,
        start_kept g (snd (main_single in_files cfg sort_by_d g)))
  /\ (forall g' t, start_kept g g' -> videoStartTs g = Some t ->
                   videoStartTs g' = Some t
                   /\ videoStartWrongAtoms g' = videoStartWrongAtoms g).
Proof.
  pose proof start_kept_refl as Hr. pose proof start_kept_trans as Ht.
  pose proof start_kept_get_gps_data as Hd.
  split; [intros data; apply Hd |].
  split; [intros content; apply (keeps_parse_moov start_kept Hr Ht Hd) |].
  split; [intros content; apply (keeps_parse_ts start_kept Hr Ht Hd) |].
  split; [intros content; apply (keeps_process_file start_kept Hr Ht Hd) |].
  split; [intros in_files; apply (keeps_process_files start_kept Hr Ht Hd) |].
  split; [intros in_files sort_by_d; apply (keeps_main_single start_kept Hr Ht Hd) |].
  intros g' t Hk E. unfold start_kept in Hk. rewrite E in Hk. tauto.
Qed.

(** ** Files that are cut short, and files that are neither MP4 nor TS *)

Lemma unpack_I4s4s_none (data : bytes) :
  unpack_I4s4s data = None <-> len data < 12.
Proof.
  unfold len.
  do 12 (destruct data as [| ? data]; [cbn; split; [lia | reflexivity] |]).
  cbn [unpack_I4s4s List.length]. split; [discriminate | lia].
Qed.

Lemma get_gps_data_empty (data : bytes) (cfg : Settings) (g : Globals) :
  fst (get_gps_data data cfg g) = Raise StructError <-> data = [].
Proof.
  split.
  - intros H.
    destruct (get_gps_data_raises data cfg g StructError (or_introl eq_refl) H)
      as [[_ E] | [E _]]; [exact E | congruence].
  - intros ->. unfold get_gps_data, bind.
    destruct (get_gps_offset_returns [] g) as (o & g1 & ->). reflexivity.
Qed.

(** X13.  [get_gps_atom] raises [struct.error] in two cases and no other: fewer
    than twelve bytes could be read at the position the descriptor names,
    or the atom is a well-formed ['free'] atom of exactly twelve bytes,
    whose empty region [get_gps_data] cannot read. *)
Theorem get_gps_atom_struct_error (atom_pos atom_size : Z) (content : bytes)
    (cfg : Settings) (g : Globals) :
  fst (get_gps_atom (atom_pos, atom_size) content cfg g) = Raise StructError
  <-> atom_size <> 0 /\ atom_pos <> 0
      /\ (len (pread content atom_pos atom_size) < 12
          \/ unpack_I4s4s (pread content atom_pos atom_size)
             = Some (atom_size, b_free, b_GPS)
             /\ len (pread content atom_pos atom_size) = 12).
Proof.
  unfold get_gps_atom.
  destruct (atom_size =? 0) eqn:Es.
  { apply Z.eqb_eq in Es. cbn. split; [discriminate | tauto]. }
  destruct (atom_pos =? 0) eqn:Ep.
  { apply Z.eqb_eq in Ep. cbn. split; [discriminate | tauto]. }
  apply Z.eqb_neq in Es. apply Z.eqb_neq in Ep. cbn [orb].
  set (data := pread content atom_pos atom_size).
  destruct (unpack_I4s4s data) as [[[atom_size1 atom_type] magic] |] eqn:Eu.
  - assert (Hlen : 12 <= len data).
    { destruct (Z.lt_ge_cases (len data) 12) as [H | H]; [| exact H].
      apply unpack_I4s4s_none in H. congruence. }
    assert (Hskip : zskip 12 data = [] <-> len data = 12).
    { pose proof (zskip_length data 12 ltac:(lia)) as Hz.
      split; intros H.
      - rewrite H in Hz. unfold len in Hz at 1. cbn in Hz. lia.
      - destruct (zskip 12 data); [reflexivity |].
        unfold len in Hz at 1. cbn [List.length] in Hz. lia. }
    unfold unpacked, bind, ret.
    destruct (atom_size =? atom_size1) eqn:E1; cbn [negb orb].
    2:{ apply Z.eqb_neq in E1. split; [discriminate |].
        intros (_ & _ & [H | [H _]]); [lia | congruence]. }
    apply Z.eqb_eq in E1. subst atom_size1.
    destruct (bytes_eqb atom_type b_free) eqn:E2; cbn [negb orb].
    2:{ split; [discriminate |].
        intros (_ & _ & [H | [H _]]); [lia |].
        injection H as -> _. rewrite (proj2 (bytes_eqb_eq b_free b_free) eq_refl) in E2.
        discriminate. }
    apply bytes_eqb_eq in E2. subst atom_type.
    destruct (bytes_eqb magic b_GPS) eqn:E3; cbn [negb].
    2:{ split; [discriminate |].
        intros (_ & _ & [H | [H _]]); [lia |].
        injection H as ->. rewrite (proj2 (bytes_eqb_eq b_GPS b_GPS) eq_refl) in E3.
        discriminate. }
    apply bytes_eqb_eq in E3. subst magic.
    rewrite get_gps_data_empty, Hskip. split.
    + intros H. split; [exact Es |]. split; [exact Ep |]. right. auto.
    + intros (_ & _ & [H | [_ H]]); [lia | exact H].
  - unfold unpacked, bind, raise. cbn [fst].
    apply unpack_I4s4s_none in Eu.
    split; [intros _ | reflexivity].
    split; [exact Es |]. split; [exact Ep |]. left. exact Eu.
Qed.

(** X14.  A file with no atom to read at its start and without the sync bytes
    of a transport stream, the empty file for one, gives no sample and
    leaves the state as it was; a run over such a file alone has nothing
    to write and reports failure. *)
Theorem unreadable_file_gives_nothing (content : bytes) (cfg : Settings)
    (g : Globals) (sort_by_d : bool) :
  fst (get_atom_info (pread content 0 8)) = 0 ->
  pread content 0 1 <> [x47] \/ pread content 188 1 <> [x47]
  \/ pread content 376 1 <> [x47] ->
  parse_moov content cfg g = (Return ([], false), g)
  /\ parse_ts content cfg g = (Return ([], false), g)
  /\ process_file content cfg g = (Return [], g)
  /\ main_single [content] cfg sort_by_d g = (Return ([], false), g).
Proof.
  intros Hatom Hsync.
  assert (Hm : parse_moov content cfg g = (Return ([], false), g)).
  { unfold parse_moov. apply top_atoms_stop. exact Hatom. }
  assert (Ht : parse_ts content cfg g = (Return ([], false), g)).
  { unfold parse_ts.
    destruct (bytes_eqb (pread content 0 1) (pread content 188 1)
              && bytes_eqb (pread content 188 1) (pread content 376 1)
              && bytes_eqb (pread content 376 1) [x47]) eqn:E; [| reflexivity].
    exfalso.
    apply andb_true_iff in E as [E E3]. apply andb_true_iff in E as [E1 E2].
    apply bytes_eqb_eq in E1, E2, E3.
    rewrite E1, E2, E3 in Hsync. tauto. }
  assert (Hp : process_file content cfg g = (Return [], g)).
  { unfold process_file, bind at 1. rewrite Hm.
    unfold bind at 1, bind at 1. rewrite Ht. unfold ret at 1, ret at 1.
    cbn [filter_none].
    destruct (del_outliers cfg), (del_duplicates cfg); reflexivity. }
  split; [exact Hm |]. split; [exact Ht |]. split; [exact Hp |].
  unfold main_single, bind at 1. cbn [process_files]. unfold bind at 1.
  rewrite Hp. unfold bind, ret. cbn [List.concat app].
  destruct sort_by_d; reflexivity.
Qed.

Lemma unreadable_file_gives_nothing_witness :
  parse_moov [] plain_settings initial_globals = (Return ([], false), initial_globals)
  /\ parse_ts [] plain_settings initial_globals = (Return ([], false), initial_globals)
  /\ process_file [] plain_settings initial_globals = (Return [], initial_globals)
  /\ main_single [[]] plain_settings true initial_globals
     = (Return ([], false), initial_globals).
Proof.
  apply (unreadable_file_gives_nothing [] plain_settings initial_globals true).
  - reflexivity.
  - left. discriminate.
Defined.

(** The sub-atom loop on a header it cannot read: the size reads as zero,
    the offset stays where it is, and the loop does not end. *)
Lemma sub_atoms_past_end (fuel : nat) (content : bytes) (cfg : Settings)
    (sub_offset stop : Z) (gps_data : list (option GPS)) (g : Globals) :
  0 <= sub_offset -> sub_offset < stop -> len content < sub_offset + 8 ->
  sub_atoms (S fuel) content cfg sub_offset stop gps_data g = (Diverge, g).
Proof.
  intros H0 Hlt Hlen. cbn [sub_atoms].
  replace (sub_offset <? stop) with true by (symmetry; apply Z.ltb_lt; lia).
  rewrite get_atom_info_truncated by assumption.
  cbn. reflexivity.
Qed.

(** X15.  A file that ends inside its ['moov'] atom, before the header of a
    sub-atom the atom's size promises, makes the program loop for ever:
    the read at the end of the file gives a sub-atom of size zero, and
    the loop over the sub-atoms does not advance. *)
Theorem truncated_moov_never_ends (content : bytes) (cfg : Settings)
    (g : Globals) (atom_size : Z) :
  get_atom_info (pread content 0 8) = (atom_size, b_moov) ->
  8 < atom_size -> len content < 16 ->
  parse_moov content cfg g = (Diverge, g)
  /\ process_file content cfg g = (Diverge, g).
Proof.
  intros Hatom Hsize Hlen.
  assert (Hm : parse_moov content cfg g = (Diverge, g)).
  { unfold parse_moov. cbn [top_atoms]. rewrite Hatom.
    replace (atom_size =? 0) with false by (symmetry; apply Z.eqb_neq; lia).
    rewrite (proj2 (bytes_eqb_eq b_moov b_moov) eq_refl).
    unfold bind at 1, bind at 1.
    rewrite sub_atoms_past_end by lia. reflexivity. }
  split; [exact Hm |].
  unfold process_file, bind at 1. rewrite Hm. reflexivity.
Qed.

Lemma truncated_moov_never_ends_witness :
  parse_moov file_moov_header_only plain_settings initial_globals
  = (Diverge, initial_globals)
  /\ process_file file_moov_header_only plain_settings initial_globals
     = (Diverge, initial_globals).
Proof.
  apply (truncated_moov_never_ends file_moov_header_only plain_settings
           initial_globals 1000).
  - reflexivity.
  - lia.
  - vm_compute. reflexivity.
Defined.

(** ** The one endless loop *)

Lemma halts_ret {A : Type} (a : A) : halts (ret a).
Proof. intros g. discriminate. Qed.

Lemma halts_raise {A : Type} (e : exn) : halts (@raise A e).
Proof. intros g. discriminate. Qed.

Lemma halts_bind {A B : Type} (m : M A) (k : A -> M B) :
  halts m -> (forall a, halts (k a)) -> halts (bind m k).
Proof.
  intros Hm Hk g. unfold bind. specialize (Hm g).
  destruct (m g) as [[a | e | |] g1]; cbn in *; try discriminate.
  - apply Hk.
  - congruence.
Qed.

Lemma halts_unpacked {A : Type} (o : option A) : halts (unpacked o).
Proof. destruct o; [apply halts_ret | apply halts_raise]. Qed.

Lemma halts_dated (r : exn + Z) : halts (dated r).
Proof. destruct r; [apply halts_raise | apply halts_ret]. Qed.

Lemma halts_finite (w : Z) : halts (finite w).
Proof.
  unfold finite. destruct (f32_value w); [apply halts_ret | apply halts_raise].
Qed.

Lemma halts_far_enough (lat lon : R) : halts (isFrameFarEnoughFromPrevious lat lon).
Proof.
  intros g. destruct (far_enough_returns lat lon g) as (far & g' & H & _).
  rewrite H. discriminate.
Qed.

Lemma halts_get_gps_offset (data : bytes) : halts (get_gps_offset data).
Proof.
  intros g. destruct (get_gps_offset_returns data g) as (o & g' & H).
  rewrite H. discriminate.
Qed.

Ltac halts_steps :=
  repeat match goal with
         | |- halts (ret _) => apply halts_ret
         | |- halts (raise _) => apply halts_raise
         | |- halts (unpacked _) => apply halts_unpacked
         | |- halts (dated _) => apply halts_dated
         | |- halts (finite _) => apply halts_finite
         | |- halts (isFrameFarEnoughFromPrevious _ _) => apply halts_far_enough
         | |- halts (get_gps_offset _) => apply halts_get_gps_offset
         | |- halts (bind _ _) => apply halts_bind; [| intros ?]
         | |- halts (let '(_, _) := ?x in _) => destruct x
         | |- halts (match ?x with _ => _ end) => destruct x
         end.

Lemma halts_decode_standard (data : bytes) (offset : Z) (cfg : Settings) :
  halts (decode_standard data offset cfg).
Proof.
  unfold decode_standard. halts_steps.
  intros g. destruct (videoStartTs g); [discriminate |].
  destruct (datetime_sub _ _); discriminate.
Qed.

Lemma halts_get_gps_data (data : bytes) (cfg : Settings) :
  halts (get_gps_data data cfg).
Proof.
  unfold get_gps_data.
  apply halts_bind; [apply halts_get_gps_offset | intros offset].
  apply halts_bind; [apply halts_unpacked | intros b0].
  apply halts_bind.
  - destruct (is_azdome_marker b0); [| apply halts_ret].
    intros g. destruct (decode_azdome_outcome data) as [E | [e E]];
      rewrite E; discriminate.
  - intros azdome.
    destruct (negb azdome && (0 <=? offset));
      [apply halts_decode_standard | apply halts_ret].
Qed.

Lemma halts_get_gps_atom (info : Z * Z) (content : bytes) (cfg : Settings) :
  halts (get_gps_atom info content cfg).
Proof.
  unfold get_gps_atom. destruct info as [atom_pos atom_size].
  destruct ((atom_size =? 0) || (atom_pos =? 0)); [apply halts_ret |].
  apply halts_bind; [apply halts_unpacked | intros [[atom_size1 atom_type] magic]].
  destruct (_ || _); [apply halts_ret | apply halts_get_gps_data].
Qed.

Lemma halts_gps_entries (content : bytes) (cfg : Settings) (stop : Z) :
  forall fuel gps_offset gps_data,
    halts (gps_entries fuel content cfg gps_offset stop gps_data).
Proof.
  induction fuel as [| fuel IH]; intros gps_offset gps_data; cbn [gps_entries];
    destruct (gps_offset <? stop); try apply halts_ret;
    [intros g; discriminate |].
  apply halts_bind; [apply halts_unpacked | intros info].
  apply halts_bind; [apply halts_get_gps_atom | intros data].
  apply IH.
Qed.

Lemma halts_ts_packets (content : bytes) (cfg : Settings) :
  forall fuel position partial gps_data,
    halts (ts_packets fuel content cfg position partial gps_data).
Proof.
  induction fuel as [| fuel IH]; intros position partial gps_data;
    cbn [ts_packets]; [intros g; discriminate |].
  apply halts_bind.
  - halts_steps; apply halts_get_gps_data.
  - intros [gps_data' partial'].
    destruct (pread content position 4); [apply halts_ret | apply IH].
Qed.

Lemma halts_parse_ts (content : bytes) (cfg : Settings) :
  halts (parse_ts content cfg).
Proof.
  unfold parse_ts. destruct (_ && _); [| apply halts_ret].
  apply halts_bind; [apply halts_ts_packets | intros ?; apply halts_ret].
Qed.

Lemma get_atom_info_size_nonneg (eight_bytes : bytes) :
  0 <= fst (get_atom_info eight_bytes).
Proof.
  unfold get_atom_info.
  do 9 (destruct eight_bytes as [| ? eight_bytes]; cbn [fst]; try lia).
  apply be32_nonneg.
Qed.

Lemma atom_chain_le (content : bytes) (start off : Z) :
  atom_chain content start off -> start <= off.
Proof.
  induction 1 as [off | start off Hs _ IH]; [lia |].
  pose proof (get_atom_info_size_nonneg (pread content start 8)). lia.
Qed.

(** The loop over the sub-atoms loops for ever only on a header of size
    zero that its walk reaches before the end of the atom. *)
Lemma sub_atoms_diverges (content : bytes) (cfg : Settings) (stop : Z) :
  forall fuel sub_offset gps_data g,
    fst (sub_atoms fuel content cfg sub_offset stop gps_data g) = Diverge ->
    exists off, atom_chain content sub_offset off
                /\ off < stop
                /\ fst (get_atom_info (pread content off 8)) = 0.
Proof.
  induction fuel as [| fuel IH]; intros sub_offset gps_data g; cbn [sub_atoms];
    destruct (sub_offset <? stop) eqn:Elt; try discriminate.
  apply Z.ltb_lt in Elt.
  destruct (get_atom_info (pread content sub_offset 8))
    as [sub_atom_size sub_atom_type] eqn:Einfo.
  assert (Hrest : forall gd g1,
             fst ((if sub_atom_size =? 0 then fun g => (Diverge, g)
                   else sub_atoms fuel content cfg (sub_offset + sub_atom_size)
                                  stop gd) g1) = Diverge ->
             exists off, atom_chain content sub_offset off
                         /\ off < stop
                         /\ fst (get_atom_info (pread content off 8)) = 0).
  { intros gd g1. destruct (sub_atom_size =? 0) eqn:E0.
    - intros _. apply Z.eqb_eq in E0. exists sub_offset.
      split; [apply chain_here |]. split; [exact Elt |].
      rewrite Einfo. exact E0.
    - intros H. apply Z.eqb_neq in E0.
      apply IH in H as (off & Hchain & Hoff & Hz).
      exists off. split; [| split; assumption].
      apply chain_next; rewrite Einfo; cbn [fst]; assumption. }
  unfold bind at 1.
  destruct (bytes_eqb sub_atom_type b_gps).
  - pose proof (halts_gps_entries content cfg (sub_offset + sub_atom_size)
                  (S (List.length content)) (16 + sub_offset) gps_data g) as Hh.
    destruct (gps_entries (S (List.length content)) content cfg (16 + sub_offset)
                (sub_offset + sub_atom_size) gps_data g)
      as [[gps_data' | e | |] g1]; cbn [fst] in *; try discriminate;
      [apply Hrest | congruence].
  - unfold ret at 1. apply Hrest.
Qed.

(** When the loop over the sub-atoms returns, no header its walk reaches
    before the end of the atom has size zero. *)
Lemma sub_atoms_returns (content : bytes) (cfg : Settings) (stop : Z)
    (sub_offset off : Z) :
  atom_chain content sub_offset off ->
  forall fuel gps_data g out g',
    sub_atoms fuel content cfg sub_offset stop gps_data g = (Return out, g') ->
    off < stop ->
    fst (get_atom_info (pread content off 8)) <> 0.
Proof.
  induction 1 as [off | sub_offset off Hs Hchain IH];
    intros fuel gps_data g out g' H Hoff.
  - destruct fuel as [| fuel]; cbn [sub_atoms] in H;
      replace (off <? stop) with true in H by (symmetry; apply Z.ltb_lt; lia);
      [discriminate |].
    destruct (get_atom_info (pread content off 8)) as [sub_atom_size sub_atom_type].
    cbn [fst]. intros ->.
    apply bind_return in H as (gd & g1 & _ & H). discriminate H.
  - pose proof (atom_chain_le _ _ _ Hchain) as Hle.
    pose proof (get_atom_info_size_nonneg (pread content sub_offset 8)) as Hnn.
    destruct fuel as [| fuel]; cbn [sub_atoms] in H;
      replace (sub_offset <? stop) with true in H
        by (symmetry; apply Z.ltb_lt; lia);
      [discriminate |].
    destruct (get_atom_info (pread content sub_offset 8))
      as [sub_atom_size sub_atom_type].
    cbn [fst] in *.
    apply bind_return in H as (gd & g1 & _ & H).
    replace (sub_atom_size =? 0) with false in H
      by (symmetry; apply Z.eqb_neq; assumption).
    exact (IH _ _ _ _ _ H Hoff).
Qed.

Lemma top_atoms_diverges (content : bytes) (cfg : Settings) :
  forall fuel offset gps_data is_moov g,
    fst (top_atoms fuel content cfg offset gps_data is_moov g) = Diverge ->
    exists moov_offset atom_size off,
      atom_chain content offset moov_offset
      /\ get_atom_info (pread content moov_offset 8) = (atom_size, b_moov)
      /\ atom_size <> 0
      /\ atom_chain content (moov_offset + 8) off
      /\ off < moov_offset + atom_size
      /\ fst (get_atom_info (pread content off 8)) = 0.
Proof.
  induction fuel as [| fuel IH]; intros offset gps_data is_moov g;
    cbn [top_atoms];
    destruct (get_atom_info (pread content offset 8)) as [atom_size atom_type]
      eqn:Einfo;
    destruct (atom_size =? 0) eqn:E0; try discriminate.
  apply Z.eqb_neq in E0.
  assert (Hnext : forall gd im g1,
             fst (top_atoms fuel content cfg (offset + atom_size) gd im g1)
             = Diverge ->
             exists moov_offset atom_size0 off,
               atom_chain content offset moov_offset
               /\ get_atom_info (pread content moov_offset 8) = (atom_size0, b_moov)
               /\ atom_size0 <> 0
               /\ atom_chain content (moov_offset + 8) off
               /\ off < moov_offset + atom_size0
               /\ fst (get_atom_info (pread content off 8)) = 0).
  { intros gd im g1 H.
    apply IH in H as (o & sz & off & Hchain & Hrest).
    exists o, sz, off. split; [| exact Hrest].
    apply chain_next; rewrite Einfo; cbn [fst]; assumption. }
  unfold bind at 1.
  destruct (bytes_eqb atom_type b_moov) eqn:Etype.
  - apply bytes_eqb_eq in Etype. subst atom_type.
    unfold bind at 1.
    destruct (sub_atoms (S (List.length content)) content cfg (offset + 8)
                (offset + atom_size) gps_data g) as [[gps_data' | e | |] g1] eqn:Es;
      cbn [fst]; try discriminate.
    + unfold ret at 1. apply Hnext.
    + intros _.
      pose proof (sub_atoms_diverges content cfg (offset + atom_size)
                    (S (List.length content)) (offset + 8) gps_data g) as Hd.
      rewrite Es in Hd. destruct (Hd eq_refl) as (off & Hchain & Hoff & Hz).
      exists offset, atom_size, off.
      split; [apply chain_here |]. split; [exact Einfo |]. auto.
  - unfold ret at 1. apply Hnext.
Qed.

Lemma top_atoms_returns (content : bytes) (cfg : Settings)
    (offset moov_offset : Z) :
  atom_chain content offset moov_offset ->
  forall fuel gps_data is_moov g out g' atom_size off,
    top_atoms fuel content cfg offset gps_data is_moov g = (Return out, g') ->
    get_atom_info (pread content moov_offset 8) = (atom_size, b_moov) ->
    atom_size <> 0 ->
    atom_chain content (moov_offset + 8) off ->
    off < moov_offset + atom_size ->
    fst (get_atom_info (pread content off 8)) <> 0.
Proof.
  induction 1 as [moov_offset | offset moov_offset Hs Hchain IH];
    intros fuel gps_data is_moov g out g' atom_size off H Hinfo Hsize Hsub Hoff.
  - destruct fuel as [| fuel]; cbn [top_atoms] in H; rewrite Hinfo in H;
      replace (atom_size =? 0) with false in H
        by (symmetry; apply Z.eqb_neq; assumption);
      [discriminate |].
    rewrite (proj2 (bytes_eqb_eq b_moov b_moov) eq_refl) in H.
    apply bind_return in H as ([gd im] & g1 & H & _).
    apply bind_return in H as (gd' & g2 & H & _).
    exact (sub_atoms_returns _ _ _ _ _ Hsub _ _ _ _ _ H Hoff).
  - destruct fuel as [| fuel]; cbn [top_atoms] in H;
      destruct (get_atom_info (pread content offset 8)) as [size type];
      cbn [fst] in *;
      replace (size =? 0) with false in H
        by (symmetry; apply Z.eqb_neq; assumption);
      [discriminate |].
    apply bind_return in H as ([gd im] & g1 & _ & H).
    exact (IH _ _ _ _ _ _ _ _ H Hinfo Hsize Hsub Hoff).
Qed.

(** X16.  The program loops for ever on one kind of file only.
    [process_file] loops for ever exactly when [parse_moov] does; the
    scan of a transport stream always ends.  [parse_moov] loops for ever
    exactly when it raises no exception on a file in which the scan
    meets a sub-atom of size zero: walking the top-level atoms from the
    start of the file by their sizes it comes to a ['moov'] atom, and
    walking the sub-atoms of that atom from eight bytes after its start
    it comes, before the end the atom's size gives, to a header whose
    size reads as zero, a header cut off by the end of the file
    included.  On such a file neither function returns. *)
Theorem endless_loop_only_at_zero_size (content : bytes) (cfg : Settings)
    (g : Globals) :
  (fst (process_file content cfg g) = Diverge
   <-> fst (parse_moov content cfg g) = Diverge)
  /\ (fst (parse_moov content cfg g) = Diverge
      <-> zero_size_sub_atom content
          /\ forall e, fst (parse_moov content cfg g) <> Raise e)
  /\ (zero_size_sub_atom content ->
      (forall out, fst (parse_moov content cfg g) <> Return out)
      /\ (forall out, fst (process_file content cfg g) <> Return out)).
Proof.
  assert (Hret : zero_size_sub_atom content ->
                 forall out, fst (parse_moov content cfg g) <> Return out).
  { intros (o & sz & off & Hchain & Hinfo & Hsize & Hsub & Hoff & Hz) out H.
    destruct (parse_moov content cfg g) as [r g1] eqn:Em. cbn [fst] in H.
    subst r. unfold parse_moov in Em.
    exact (top_atoms_returns _ _ _ _ Hchain _ _ _ _ _ _ _ _ Em Hinfo Hsize
             Hsub Hoff Hz). }
  split; [| split].
  - unfold process_file, bind at 1.
    destruct (parse_moov content cfg g) as [[[gps_data is_moov] | e | |] g1];
      cbn [fst]; split; try discriminate; try reflexivity.
    intros H. exfalso. unfold bind at 1 in H.
    destruct is_moov.
    + unfold ret in H. discriminate.
    + unfold bind at 1 in H.
      pose proof (halts_parse_ts content cfg g1) as Hh.
      destruct (parse_ts content cfg g1) as [[[d ts] | e | |] g2];
        cbn [fst] in *; try discriminate.
      congruence.
  - split.
    + intros H. split; [| intros e He; rewrite H in He; discriminate].
      unfold parse_moov in H. exact (top_atoms_diverges _ _ _ _ _ _ _ H).
    + intros [Hz Hraise].
      pose proof (Hret Hz) as Hr.
      pose proof (no_fuel_parse_moov content cfg g) as Hf.
      destruct (fst (parse_moov content cfg g)) as [out | e | |];
        [exfalso; exact (Hr out eq_refl) | exfalso; exact (Hraise e eq_refl)
         | reflexivity | congruence].
  - intros Hz. split; [exact (Hret Hz) |].
    intros out H.
    destruct (process_file content cfg g) as [r g1] eqn:Ep. cbn [fst] in H.
    subst r. unfold process_file in Ep.
    apply bind_return in Ep as ([gd im] & g2 & Em & _).
    apply (Hret Hz (gd, im)). rewrite Em. reflexivity.
Qed.

Lemma endless_loop_only_at_zero_size_witness :
  fst (process_file file_moov_header_only plain_settings initial_globals) = Diverge
  /\ fst (parse_moov file_moov_header_only plain_settings initial_globals) = Diverge
  /\ zero_size_sub_atom file_moov_header_only.
Proof.
  destruct (endless_loop_only_at_zero_size file_moov_header_only plain_settings
              initial_globals) as (_ & [H _] & _).
  split; [reflexivity |]. split; [reflexivity |].
  apply H. reflexivity.
Defined.

(** ** The track filters inside [process_file] *)

Lemma bind_same {A B : Type} (m m' : M A) (k k' : A -> M B) :
  (forall g, m g = m' g) -> (forall a g, k a g = k' a g) ->
  forall g, bind m k g = bind m' k' g.
Proof.
  intros Hm Hk g. unfold bind. rewrite Hm.
  destruct (m' g) as [[a | e | |] g1]; [apply Hk | reflexivity ..].
Qed.

(** The decode reads the settings of the decode only. *)
Lemma get_gps_data_without_filters (data : bytes) (cfg : Settings) (g : Globals) :
  get_gps_data data (without_filters cfg) g = get_gps_data data cfg g.
Proof. reflexivity. Qed.












(** ** Sorting the samples of a run by epoch *)

Lemma insert_by_epoch_perm (p : GPS) (l : list GPS) :
  Permutation (insert_by_epoch p l) (p :: l).
Proof.
  induction l as [| q t IH]; cbn; [reflexivity |].
  destruct (Epoch p <=? Epoch q); [reflexivity |].
  rewrite IH. apply perm_swap.
Qed.

Lemma insert_by_epoch_sorted (p : GPS) (l : list GPS) :
  Sorted by_epoch l -> Sorted by_epoch (insert_by_epoch p l).
Proof.
  unfold by_epoch.
  induction l as [| q t IH]; intros Hs; cbn.
  - repeat constructor.
  - destruct (Epoch p <=? Epoch q) eqn:E.
    + apply Z.leb_le in E. constructor; [assumption | constructor; assumption].
    + apply Z.leb_gt in E. inversion Hs as [| ? ? Ht Hhd]; subst.
      constructor; [apply IH; assumption |].
      destruct t as [| r t']; cbn.
      * constructor. lia.
      * destruct (Epoch p <=? Epoch r); constructor; [lia |].
        inversion Hhd; assumption.
Qed.

(** A sample is put after the samples with a smaller epoch and before
    the others, so within its own epoch it comes first. *)
Lemma insert_by_epoch_at_epoch (e : Z) (p : GPS) (l : list GPS) :
  at_epoch e (insert_by_epoch p l) = at_epoch e (p :: l).
Proof.
  unfold at_epoch. induction l as [| q t IH]; [reflexivity |].
  cbn [insert_by_epoch]. destruct (Epoch p <=? Epoch q) eqn:E; [reflexivity |].
  apply Z.leb_gt in E. cbn [filter] in *. rewrite IH.
  destruct (Z.eqb_spec (Epoch p) e) as [Ep | Ep];
    destruct (Z.eqb_spec (Epoch q) e) as [Eq | Eq]; try reflexivity.
  lia.
Qed.

Lemma sort_gps_data_by_dt_at_epoch (e : Z) (l : list GPS) :
  at_epoch e (sort_gps_data_by_dt l) = at_epoch e l.
Proof.
  induction l as [| p t IH]; [reflexivity |].
  cbn [sort_gps_data_by_dt fold_right]. rewrite insert_by_epoch_at_epoch.
  unfold at_epoch in *. cbn [filter]. fold (sort_gps_data_by_dt t).
  rewrite IH. reflexivity.
Qed.

Lemma sort_gps_data_by_dt_perm (l : list GPS) :
  Permutation (sort_gps_data_by_dt l) l.
Proof.
  induction l as [| p t IH]; cbn; [reflexivity |].
  rewrite insert_by_epoch_perm. constructor. exact IH.
Qed.

Lemma sort_gps_data_by_dt_sorted (l : list GPS) :
  Sorted by_epoch (sort_gps_data_by_dt l).
Proof.
  induction l as [| p t IH]; cbn; [constructor | apply insert_by_epoch_sorted, IH].
Qed.

Lemma by_epoch_head_least (p : GPS) (t : list GPS) :
  Sorted by_epoch (p :: t) -> forall q, In q (p :: t) -> Epoch p <= Epoch q.
Proof.
  intros Hs q Hq.
  apply (sorted_head_least GPS by_epoch) with (t := t); try assumption;
    unfold by_epoch; intros; lia.
Qed.

Lemma at_epoch_In (e : Z) (l : list GPS) (p : GPS) :
  In p (at_epoch e l) <-> In p l /\ Epoch p = e.
Proof. unfold at_epoch. rewrite filter_In, Z.eqb_eq. reflexivity. Qed.

(** Two lists in ascending order of epoch that hold, for every epoch, the
    same samples in the same order are one list. *)
Lemma sorted_by_epoch_unique (l1 : list GPS) :
  forall l2,
    Sorted by_epoch l1 -> Sorted by_epoch l2 ->
    (forall e, at_epoch e l1 = at_epoch e l2) -> l1 = l2.
Proof.
  induction l1 as [| x t1 IH]; intros l2 H1 H2 Hg.
  - destruct l2 as [| y t2]; [reflexivity |].
    specialize (Hg (Epoch y)). unfold at_epoch in Hg. cbn in Hg.
    rewrite Z.eqb_refl in Hg. discriminate.
  - destruct l2 as [| y t2].
    { specialize (Hg (Epoch x)). unfold at_epoch in Hg. cbn in Hg.
      rewrite Z.eqb_refl in Hg. discriminate. }
    assert (Hxy : Epoch y <= Epoch x).
    { apply (by_epoch_head_least y t2 H2).
      apply (at_epoch_In (Epoch x)). rewrite <- Hg.
      apply at_epoch_In. split; [left |]; reflexivity. }
    assert (Hyx : Epoch x <= Epoch y).
    { apply (by_epoch_head_least x t1 H1).
      apply (at_epoch_In (Epoch y)). rewrite Hg.
      apply at_epoch_In. split; [left |]; reflexivity. }
    assert (Heq : Epoch x = Epoch y) by lia.
    pose proof (Hg (Epoch x)) as Hhead. unfold at_epoch in Hhead.
    cbn [filter] in Hhead. rewrite <- Heq, Z.eqb_refl in Hhead.
    injection Hhead as Hx Ht. subst y. f_equal.
    apply IH.
    + inversion H1; assumption.
    + inversion H2; assumption.
    + intros e. specialize (Hg e). unfold at_epoch in *. cbn [filter] in Hg.
      destruct (Epoch x =? e); [injection Hg as Hg |]; exact Hg.
Qed.

(** X18.  Sorting by epoch gives the samples in ascending order of epoch, those
    of one epoch in the order they had.  It is the only arrangement with
    these two properties, so the result does not depend on how the stable
    sort works; a track already in order is returned as it is. *)
Theorem sort_gps_data_by_dt_stable (gps_data : list GPS) :
  Sorted by_epoch (sort_gps_data_by_dt gps_data)
  /\ Permutation (sort_gps_data_by_dt gps_data) gps_data
  /\ (forall e, at_epoch e (sort_gps_data_by_dt gps_data) = at_epoch e gps_data)
  /\ (forall l, Sorted by_epoch l ->
                (forall e, at_epoch e l = at_epoch e gps_data) ->
                l = sort_gps_data_by_dt gps_data)
  /\ sort_gps_data_by_dt (sort_gps_data_by_dt gps_data)
     = sort_gps_data_by_dt gps_data.
Proof.
  split; [apply sort_gps_data_by_dt_sorted |].
  split; [apply sort_gps_data_by_dt_perm |].
  split; [intros e; apply sort_gps_data_by_dt_at_epoch |].
  split.
  - intros l Hs Hg. apply sorted_by_epoch_unique.
    + exact Hs.
    + apply sort_gps_data_by_dt_sorted.
    + intros e. rewrite sort_gps_data_by_dt_at_epoch. apply Hg.
  - apply sorted_by_epoch_unique; try apply sort_gps_data_by_dt_sorted.
    intros e. rewrite !sort_gps_data_by_dt_at_epoch. reflexivity.
Qed.

(** X19.  Without [-m] the run hands to the writer the tracks of the files one
    after another, each filtered on its own, in order of epoch when
    [-s d] is given; it succeeds exactly when some file gave a sample. *)
Theorem main_single_track (in_files : list bytes) (cfg : Settings)
    (sort_by_d : bool) (g : Globals) (tracks : list (list GPS)) (g' : Globals) :
  process_files in_files cfg g = (Return tracks, g') ->
  exists gps_data success,
    main_single in_files cfg sort_by_d g = (Return (gps_data, success), g')
    /\ Permutation gps_data (List.concat tracks)
    /\ (sort_by_d = false -> gps_data = List.concat tracks)
    /\ (sort_by_d = true ->
        Sorted by_epoch gps_data
        /\ forall e, at_epoch e gps_data = at_epoch e (List.concat tracks))
    /\ (success = true <-> exists track p, In track tracks /\ In p track).
Proof.
  intros H. unfold main_single, bind. rewrite H. unfold ret.
  set (out := if sort_by_d then sort_gps_data_by_dt (List.concat tracks)
              else List.concat tracks).
  assert (Hperm : Permutation out (List.concat tracks)).
  { unfold out. destruct sort_by_d;
      [apply sort_gps_data_by_dt_perm | apply Permutation_refl]. }
  exists out, (match out with [] => false | _ => true end).
  split; [reflexivity |]. split; [exact Hperm |].
  split; [intros ->; reflexivity |].
  split.
  { intros ->. unfold out. split;
      [apply sort_gps_data_by_dt_sorted | intros e; apply sort_gps_data_by_dt_at_epoch]. }
  split.
  - intros Hs. destruct out as [| p t] eqn:E; [discriminate |].
    assert (Hin : In p (List.concat tracks)).
    { apply (Permutation_in p Hperm). left. reflexivity. }
    apply in_concat in Hin as (track & Ht & Hp). eauto.
  - intros (track & p & Ht & Hp).
    assert (Hin : In p out).
    { apply (Permutation_in p (Permutation_sym Hperm)).
      apply in_concat. eauto. }
    destruct out; [destruct Hin | reflexivity].
Qed.

Lemma main_single_track_witness :
  exists tracks g' gps_data success,
    process_files [file_A; file_B] plain_settings initial_globals
    = (Return tracks, g')
    /\ main_single [file_A; file_B] plain_settings true initial_globals
       = (Return (gps_data, success), g')
    /\ Permutation gps_data (List.concat tracks)
    /\ (true = false -> gps_data = List.concat tracks)
    /\ (true = true ->
        Sorted by_epoch gps_data
        /\ forall e, at_epoch e gps_data = at_epoch e (List.concat tracks))
    /\ (success = true <-> exists track p, In track tracks /\ In p track).
Proof.
  assert (H : exists tracks g',
             process_files [file_A; file_B] plain_settings initial_globals
             = (Return tracks, g')).
  { do 2 eexists. run_file.
    decode_region ltac:(rewrite far_enough_first by reflexivity).
    decode_region ltac:(far_same_place).
    reflexivity. }
  destruct H as (tracks & g' & H).
  destruct (main_single_track _ plain_settings true _ _ _ H)
    as (gps_data & success & Hm).
  exists tracks, g', gps_data, success. split; [exact H | exact Hm].
Defined.

(** ** The position of a merged sample *)

Lemma atan_nonpos (x : R) : (x <= 0)%R -> (atan x <= 0)%R.
Proof.
  intros [H | H].
  - pose proof (atan_increasing x 0 H) as Hi. rewrite atan_0 in Hi. lra.
  - rewrite H, atan_0. lra.
Qed.

Lemma atan_nonneg (x : R) : (0 <= x)%R -> (0 <= atan x)%R.
Proof.
  intros [H | H].
  - pose proof (atan_increasing 0 x H) as Hi. rewrite atan_0 in Hi. lra.
  - rewrite <- H, atan_0. lra.
Qed.

Lemma atan2_range (y x : R) : (- PI <= atan2 y x <= PI)%R.
Proof.
  pose proof PI_RGT_0 as Hpi. unfold atan2.
  pose proof (atan_bound (y / x)) as [Hl Hu].
  destruct (Rlt_dec 0 x) as [Hp | Hnp]; [lra |].
  destruct (Rlt_dec x 0) as [Hn | Hnn].
  - assert (Hi : (/ x < 0)%R) by (apply Rinv_lt_0_compat; exact Hn).
    destruct (Rle_dec 0 y) as [Hy | Hy].
    + assert (Hq : (y / x <= 0)%R) by (unfold Rdiv; nra).
      pose proof (atan_nonpos _ Hq). lra.
    + assert (Hq : (0 <= y / x)%R) by (unfold Rdiv; nra).
      pose proof (atan_nonneg _ Hq). lra.
  - destruct (Rlt_dec 0 y); [lra |]. destruct (Rlt_dec y 0); lra.
Qed.

Lemma atan2_right_half (y x : R) :
  (0 <= x)%R -> (- (PI / 2) <= atan2 y x <= PI / 2)%R.
Proof.
  intros Hx. pose proof PI_RGT_0 as Hpi. unfold atan2.
  pose proof (atan_bound (y / x)) as [Hl Hu].
  destruct (Rlt_dec 0 x) as [Hp | Hnp]; [lra |].
  destruct (Rlt_dec x 0) as [Hn | Hnn]; [lra |].
  destruct (Rlt_dec 0 y); [lra |]. destruct (Rlt_dec y 0); lra.
Qed.

Lemma in_degrees (a k : R) :
  (- (k * PI / 180) <= a <= k * PI / 180)%R -> (- k <= a * 180 / PI <= k)%R.
Proof.
  intros [Hl Hu]. pose proof PI_RGT_0 as Hpi.
  assert (Hi : (0 < / PI)%R) by (apply Rinv_0_lt_compat; exact Hpi).
  assert (Hone : (PI * / PI = 1)%R) by (apply Rinv_r; lra).
  unfold Rdiv in *. set (i := (/ PI)%R) in *.
  assert (H1 : (a * 180 * i <= k * PI * / 180 * 180 * i)%R).
  { apply Rmult_le_compat_r; [lra |]. lra. }
  assert (H2 : (- (k * PI * / 180) * 180 * i <= a * 180 * i)%R).
  { apply Rmult_le_compat_r; [lra |]. lra. }
  replace (k * PI * / 180 * 180 * i)%R with (k * (PI * i))%R in H1 by field.
  replace (- (k * PI * / 180) * 180 * i)%R with (- k * (PI * i))%R in H2 by field.
  rewrite Hone in H1, H2. lra.
Qed.

(** The centroid of any positions is a position on the globe. *)
Lemma spherical_centroid_range (pts : list (R * R)) :
  (-90 <= fst (spherical_centroid pts) <= 90)%R
  /\ (-180 <= snd (spherical_centroid pts) <= 180)%R.
Proof.
  unfold spherical_centroid. cbn [fst snd]. pose proof PI_RGT_0 as Hpi.
  split; apply in_degrees.
  - match goal with
    | |- context [atan2 ?z (sqrt ?h)] =>
        pose proof (atan2_right_half z (sqrt h) (sqrt_pos h)) as H
    end.
    lra.
  - match goal with
    | |- context [atan2 ?y ?x] => pose proof (atan2_range y x) as H
    end.
    lra.
Qed.

(** X20.  Merging keeps positions on the globe: when every sample of a track
    has a latitude in [-90, 90] and a longitude in [-180, 180], so has
    every sample of the merged track, a centroid of several samples
    included. *)
Theorem merged_positions_in_range (gps_data : list GPS) :
  Forall valid_position gps_data ->
  Forall valid_position (merge_duplicates gps_data).
Proof.
  rewrite !Forall_forall. intros Hvalid m Hm.
  rewrite merge_duplicates_groups in Hm.
  apply in_flat_map in Hm as (k & _ & Hm).
  assert (Hsub : forall v, In v (members k gps_data) -> In v gps_data).
  { intros v Hv. unfold members in Hv. apply filter_In in Hv. tauto. }
  destruct (members k gps_data) as [| v0 [| v1 rest]] eqn:E.
  - destruct Hm.
  - destruct Hm as [<- | []]. apply Hvalid, Hsub. left. reflexivity.
  - cbn [merge_members] in Hm. destruct Hm as [<- | []].
    destruct (merge_group_fields v0 (v0 :: v1 :: rest)) as (Hpos & _).
    pose proof (spherical_centroid_range (map position (v0 :: v1 :: rest)))
      as [Hlat Hlon].
    rewrite <- Hpos in Hlat, Hlon. cbn [fst snd] in Hlat, Hlon.
    split; assumption.
Qed.

Lemma merged_positions_in_range_witness :
  Forall valid_position (merge_duplicates track_antimeridian).
Proof.
  apply (merged_positions_in_range track_antimeridian).
  repeat constructor; cbn; lra.
Defined.

Lemma tan_plus_PI (x : R) : cos x <> 0%R -> tan (x + PI) = tan x.
Proof.
  intros H. unfold tan. rewrite neg_sin, neg_cos. field. exact H.
Qed.

(** [atan2] gives back the angle of a point given by its polar
    coordinates. *)
Lemma atan2_polar (r theta : R) :
  (0 < r)%R -> (- PI < theta <= PI)%R ->
  atan2 (r * sin theta) (r * cos theta) = theta.
Proof.
  intros Hr [Hlo Hhi]. pose proof PI_RGT_0 as Hpi.
  assert (Hquot : cos theta <> 0%R ->
                  (r * sin theta / (r * cos theta))%R = tan theta).
  { intros Hc. unfold tan. field. split; [exact Hc | lra]. }
  unfold atan2.
  destruct (Rtotal_order theta (- (PI / 2))) as [Hlt | [Heq | Hgt]].
  - (* third quadrant *)
    assert (Hc : (cos theta < 0)%R).
    { rewrite <- cos_neg. apply cos_lt_0; lra. }
    assert (Hs : (sin theta < 0)%R) by (apply sin_lt_0_var; lra).
    destruct (Rlt_dec 0 (r * cos theta)) as [H | _]; [nra |].
    destruct (Rlt_dec (r * cos theta) 0) as [_ | H]; [| nra].
    destruct (Rle_dec 0 (r * sin theta)) as [H | _]; [nra |].
    rewrite Hquot by lra.
    rewrite <- (tan_plus_PI theta) by lra.
    rewrite atan_tan by lra. ring.
  - subst theta. rewrite cos_neg, sin_neg, cos_PI2, sin_PI2.
    replace (r * 0)%R with 0%R by ring.
    destruct (Rlt_dec 0 0) as [H | _]; [lra |].
    destruct (Rlt_dec 0 (r * - (1))) as [H | _]; [lra |].
    destruct (Rlt_dec (r * - (1)) 0) as [_ | H]; [reflexivity | lra].
  - destruct (Rtotal_order theta (PI / 2)) as [Hlt | [Heq | Hgt']].
    + (* right half plane *)
      assert (Hc : (0 < cos theta)%R) by (apply cos_gt_0; lra).
      destruct (Rlt_dec 0 (r * cos theta)) as [_ | H]; [| nra].
      rewrite Hquot by lra. apply atan_tan. lra.
    + subst theta. rewrite cos_PI2, sin_PI2.
      replace (r * 0)%R with 0%R by ring.
      destruct (Rlt_dec 0 0) as [H | _]; [lra |].
      destruct (Rlt_dec 0 (r * 1)) as [_ | H]; [reflexivity | lra].
    + (* second quadrant *)
      assert (Hc : (cos theta < 0)%R) by (apply cos_lt_0; lra).
      assert (Hs : (0 <= sin theta)%R) by (apply sin_ge_0; lra).
      destruct (Rlt_dec 0 (r * cos theta)) as [H | _]; [nra |].
      destruct (Rlt_dec (r * cos theta) 0) as [_ | H]; [| nra].
      destruct (Rle_dec 0 (r * sin theta)) as [_ | H]; [| nra].
      rewrite Hquot by lra.
      assert (Ht : tan theta = tan (theta - PI)).
      { rewrite <- (tan_plus_PI (theta - PI)).
        - f_equal. ring.
        - replace (theta - PI)%R with (- (PI - theta))%R by ring.
          rewrite cos_neg, Rtrigo_facts.cos_pi_minus. lra. }
      rewrite Ht, atan_tan by lra. ring.
Qed.

Lemma sum_R_repeat (c : R) (n : nat) : sum_R (repeat c n) = (INR n * c)%R.
Proof.
  unfold sum_R. induction n as [| n IH]; [cbn; ring |].
  cbn [repeat fold_right]. rewrite IH, S_INR. ring.
Qed.

Lemma mean_repeat (c : R) (n : nat) : (0 < n)%nat -> mean (repeat c n) = c.
Proof.
  intros Hn. unfold mean. rewrite sum_R_repeat, repeat_length.
  field. apply not_0_INR. lia.
Qed.

Lemma map_constant {A B : Type} (f : A -> B) (c : B) (l : list A) :
  Forall (fun x => f x = c) l -> map f l = repeat c (List.length l).
Proof.
  induction 1 as [| x t Hx _ IH]; [reflexivity |].
  cbn. rewrite Hx, IH. reflexivity.
Qed.

(** The centroid of copies of one position, away from the poles, is that
    position. *)
Lemma spherical_centroid_of_one_position (lat lon : R) (n : nat) :
  (0 < n)%nat -> (-90 < lat < 90)%R -> (-180 < lon <= 180)%R ->
  spherical_centroid (repeat (lat, lon) n) = (lat, lon).
Proof.
  intros Hn Hlat Hlon. pose proof PI_RGT_0 as Hpi.
  unfold spherical_centroid. rewrite !map_repeat.
  cbn [fst snd unit_vector]. rewrite !mean_repeat by exact Hn.
  set (phi := (lat * PI / 180)%R). set (lam := (lon * PI / 180)%R).
  assert (Hphi : (- (PI / 2) < phi < PI / 2)%R).
  { unfold phi. split.
    - replace (- (PI / 2))%R with (-90 * PI / 180)%R by field.
      unfold Rdiv. apply Rmult_lt_compat_r; [lra |].
      apply Rmult_lt_compat_r; lra.
    - replace (PI / 2)%R with (90 * PI / 180)%R by field.
      unfold Rdiv. apply Rmult_lt_compat_r; [lra |].
      apply Rmult_lt_compat_r; lra. }
  assert (Hlam : (- PI < lam <= PI)%R).
  { unfold lam. split.
    - replace (- PI)%R with (-180 * PI / 180)%R by field.
      unfold Rdiv. apply Rmult_lt_compat_r; [lra |].
      apply Rmult_lt_compat_r; lra.
    - replace PI with (180 * PI / 180)%R at 2 by field.
      unfold Rdiv. apply Rmult_le_compat_r; [lra |].
      apply Rmult_le_compat_r; lra. }
  assert (Hc : (0 < cos phi)%R) by (apply cos_gt_0; lra).
  assert (Hhyp : sqrt (cos phi * cos lam * (cos phi * cos lam)
                       + cos phi * sin lam * (cos phi * sin lam)) = cos phi).
  { replace (cos phi * cos lam * (cos phi * cos lam)
             + cos phi * sin lam * (cos phi * sin lam))%R
      with (cos phi * cos phi * ((sin lam)² + (cos lam)²))%R
      by (unfold Rsqr; ring).
    rewrite sin2_cos2, Rmult_1_r. apply sqrt_square. lra. }
  rewrite Hhyp.
  replace (atan2 (sin phi) (cos phi)) with (atan2 (1 * sin phi) (1 * cos phi))
    by (rewrite !Rmult_1_l; reflexivity).
  rewrite atan2_polar by lra.
  rewrite atan2_polar by lra.
  unfold phi, lam. f_equal; field; lra.
Qed.

(** X21.  Samples of one timestamp that were recorded at one position, away
    from the poles, merge into a sample at that position. *)
Theorem merge_at_one_position (v0 v1 : GPS) (rest : list GPS) (lat lon : R) :
  Forall (fun v => position v = (lat, lon)) (v0 :: v1 :: rest) ->
  (-90 < lat < 90)%R -> (-180 < lon <= 180)%R ->
  GetCenterFromDegrees (map LatFloat (v0 :: v1 :: rest))
                       (map LonFloat (v0 :: v1 :: rest)) = (lat, lon)
  /\ exists m, merge_members (v0 :: v1 :: rest) = [m] /\ position m = (lat, lon).
Proof.
  intros Hall Hlat Hlon.
  set (values := v0 :: v1 :: rest) in *.
  assert (Hc : spherical_centroid (map position values) = (lat, lon)).
  { rewrite (map_constant position (lat, lon) values Hall).
    apply spherical_centroid_of_one_position; [cbn; lia | assumption ..]. }
  split.
  - replace (map LatFloat values) with (map fst (map position values))
      by (rewrite map_map; reflexivity).
    replace (map LonFloat values) with (map snd (map position values))
      by (rewrite map_map; reflexivity).
    rewrite GetCenterFromDegrees_centroid. exact Hc.
  - exists (merge_group v0 values). split; [reflexivity |].
    destruct (merge_group_fields v0 values) as (Hpos & _).
    unfold position. rewrite Hpos. exact Hc.
Qed.

Lemma merge_at_one_position_witness :
  GetCenterFromDegrees
    (map LatFloat [sample_at 45.5 12 100 "t" 10 90 "N";
                   sample_at 45.5 12 100 "t" 20 100 "Y"])
    (map LonFloat [sample_at 45.5 12 100 "t" 10 90 "N";
                   sample_at 45.5 12 100 "t" 20 100 "Y"]) = (45.5, 12)%R
  /\ exists m, merge_members [sample_at 45.5 12 100 "t" 10 90 "N";
                              sample_at 45.5 12 100 "t" 20 100 "Y"] = [m]
               /\ position m = (45.5, 12)%R.
Proof.
  apply (merge_at_one_position (sample_at 45.5 12 100 "t" 10 90 "N")
           (sample_at 45.5 12 100 "t" 20 100 "Y") [] 45.5 12).
  - repeat constructor.
  - lra.
  - lra.
Defined.

(** ** The position moved for the bearing correction *)






(** ** A marker too close to the start of its region *)

(** After the search, on a region the obfuscated decode does not take. *)
Lemma get_gps_data_after_search (data : bytes) (cfg : Settings)
    (g g1 : Globals) (offset : Z) :
  decode_azdome data = Return None \/ hd_error (map is_azdome_marker data) = Some false ->
  data <> [] ->
  get_gps_offset data g = (Return offset, g1) ->
  get_gps_data data cfg g
  = if 0 <=? offset then decode_standard data offset cfg g1 else (Return None, g1).
Proof.
  intros Haz Hne Ho. unfold get_gps_data, bind at 1. rewrite Ho.
  destruct data as [| b rest]; [contradiction |].
  unfold unpacked, bind at 1, ret at 1.
  assert (Hflag : forall g2,
             (if is_azdome_marker b
              then fun g =>
                     match decode_azdome (b :: rest) with
                     | Return (Some _) => (Return true, g)
                     | Return None => (Return false, g)
                     | Raise e => (Raise e, g)
                     | Diverge => (Diverge, g)
                     | OutOfFuel => (OutOfFuel, g)
                     end
              else ret false) g2 = (Return false, g2)).
  { intros g2. destruct Haz as [Haz | Haz].
    - destruct (is_azdome_marker b); [rewrite Haz |]; reflexivity.
    - cbn in Haz. injection Haz as ->. reflexivity. }
  unfold bind. rewrite Hflag. cbn [negb andb].
  destruct (0 <=? offset); reflexivity.
Qed.

(** X23.  When the highest marker of a region lies in its first 24 bytes, no
    record can start 24 bytes before it: the region gives no sample.  The
    search has found its marker, so the region is not counted as failed
    either, even before the first sample, and the state stays as it
    was. *)
Theorem early_marker_gives_nothing (data : bytes) (cfg : Settings)
    (g : Globals) (p : Z) :
  decode_azdome data = Return None \/ hd_error (map is_azdome_marker data) = Some false ->
  0 < p < 24 -> p <= len data - 20 ->
  pattern_at data p = true ->
  (forall q, p < q <= len data - 20 -> pattern_at data q = false) ->
  get_gps_offset data g = (Return (p - 24), g)
  /\ get_gps_data data cfg g = (Return None, g).
Proof.
  intros Haz Hp Hlen Hpat Hhigh.
  assert (Ho : get_gps_offset data g = (Return (p - 24), g))
    by (apply get_gps_offset_found; [lia | assumption ..]).
  split; [exact Ho |].
  rewrite (get_gps_data_after_search data cfg g g (p - 24) Haz); [| | exact Ho].
  - replace (0 <=? p - 24) with false by (symmetry; apply Z.leb_gt; lia).
    reflexivity.
  - intros ->. unfold len in Hlen. cbn in Hlen. lia.
Qed.

Lemma early_marker_gives_nothing_witness :
  get_gps_offset region_early_marker initial_globals
  = (Return (10 - 24), initial_globals)
  /\ get_gps_data region_early_marker plain_settings initial_globals
     = (Return None, initial_globals).
Proof.
  destruct (highest_pattern_by_scan region_early_marker 10 eq_refl)
    as (Hp & Hpat & Hq).
  apply (early_marker_gives_nothing region_early_marker plain_settings
           initial_globals 10).
  - right. reflexivity.
  - lia.
  - lia.
  - exact Hpat.
  - exact Hq.
Defined.

(** ** A transport stream without navigation packets *)

Lemma pread_past_end (content : bytes) (pos n : Z) :
  0 <= pos -> 0 <= n -> len content <= pos -> pread content pos n = [].
Proof.
  intros Hp Hn Hl.
  assert (H : len (pread content pos n) = 0).
  { unfold pread. rewrite ztake_length, zskip_length by lia. lia. }
  destruct (pread content pos n); [reflexivity |].
  unfold len in H. cbn in H. lia.
Qed.

Lemma ts_packets_idle (content : bytes) (cfg : Settings)
    (gps_data : list (option GPS)) (g : Globals) :
  (forall k, 0 <= k ->
     bytes_eqb (slice 1 3 (pread content (188 * k) 4)) [x43; x00] = false
     /\ bytes_eqb (slice 1 3 (pread content (188 * k) 4)) [x03; x00] = false) ->
  forall fuel k,
    0 <= k -> (1 <= fuel)%nat ->
    (188 * k < len content -> len content - 188 * k < Z.of_nat fuel - 1) ->
    ts_packets fuel content cfg (188 * k) [] gps_data g = (Return gps_data, g).
Proof.
  intros Hidle.
  induction fuel as [| fuel IH]; intros k Hk H1 Hf; [lia |].
  cbn [ts_packets].
  destruct (Hidle k Hk) as [-> ->]. cbn [orb].
  unfold bind at 1, ret at 1.
  destruct (pread content (188 * k) 4) as [| b r] eqn:E; [reflexivity |].
  assert (Hlt : 188 * k < len content).
  { destruct (Z.lt_ge_cases (188 * k) (len content)) as [H | H]; [exact H |].
    rewrite pread_past_end in E by lia. discriminate. }
  replace (188 * k + 188) with (188 * (k + 1)) by lia.
  apply IH; lia.
Qed.

(** X24.  A transport stream none of whose packets has the header bytes of a
    navigation packet is recognised as a transport stream and gives no
    sample; the scan ends at the end of the file and leaves the state as
    it was. *)
Theorem ts_without_navigation_gives_nothing (content : bytes) (cfg : Settings)
    (g : Globals) :
  pread content 0 1 = [x47] -> pread content 188 1 = [x47] ->
  pread content 376 1 = [x47] ->
  (forall k, 0 <= k ->
     bytes_eqb (slice 1 3 (pread content (188 * k) 4)) [x43; x00] = false
     /\ bytes_eqb (slice 1 3 (pread content (188 * k) 4)) [x03; x00] = false) ->
  parse_ts content cfg g = (Return ([], true), g).
Proof.
  intros H1 H2 H3 Hidle. unfold parse_ts. rewrite H1, H2, H3.
  rewrite (proj2 (bytes_eqb_eq [x47] [x47]) eq_refl).
  cbn [andb]. unfold bind.
  pose proof (ts_packets_idle content cfg [] g Hidle
                (S (S (List.length content))) 0) as Hp.
  change (188 * 0) with 0 in Hp.
  rewrite Hp; [reflexivity | lia | lia |].
  intros _. unfold len. lia.
Qed.

Lemma ts_without_navigation_gives_nothing_witness :
  parse_ts file_ts_idle plain_settings initial_globals
  = (Return ([], true), initial_globals).
Proof.
  apply (ts_without_navigation_gives_nothing file_ts_idle plain_settings
           initial_globals); try reflexivity.
  intros k Hk.
  destruct (Z.eq_dec k 0) as [-> | H0]; [split; reflexivity |].
  destruct (Z.eq_dec k 1) as [-> | H1]; [split; reflexivity |].
  destruct (Z.eq_dec k 2) as [-> | H2]; [split; reflexivity |].
  rewrite pread_past_end; [split; reflexivity | lia | lia |].
  change (len file_ts_idle) with 564. lia.
Defined.

(** ** A well-formed MP4 file *)

Lemma byte_val_of_Z (n : Z) : byte_val (byte_of_Z n) = n mod 256.
Proof.
  unfold byte_of_Z, byte_val.
  pose proof (Z.mod_pos_bound n 256 ltac:(lia)) as Hb.
  destruct (Byte.of_N (Z.to_N (n mod 256))) as [b |] eqn:E.
  - apply Byte.to_of_N in E. rewrite E. apply Z2N.id. lia.
  - apply Byte.of_N_None_iff in E. lia.
Qed.

(** A size written as four big-endian bytes is read back. *)
Lemma be32_of_bytes (n : Z) (rest : bytes) :
  0 <= n < 2 ^ 32 ->
  exists a b c d, (be32_bytes n ++ rest)%list = a :: b :: c :: d :: rest
                  /\ be32 a b c d = n.
Proof.
  intros Hn. unfold be32_bytes, le32_bytes. cbn [rev app].
  do 4 eexists. split; [reflexivity |].
  unfold be32. rewrite !byte_val_of_Z.
  pose proof (Z.div_mod n 256 ltac:(lia)) as H0.
  pose proof (Z.div_mod (n / 256) 256 ltac:(lia)) as H1.
  pose proof (Z.div_mod (n / 65536) 256 ltac:(lia)) as H2.
  replace (n / 256 / 256) with (n / 65536) in H1
    by (rewrite Z.div_div by lia; reflexivity).
  replace (n / 65536 / 256) with (n / 16777216) in H2
    by (rewrite Z.div_div by lia; reflexivity).
  assert (H3 : 0 <= n / 16777216 < 256).
  { split; [apply Z.div_pos; lia | apply Z.div_lt_upper_bound; lia]. }
  rewrite (Z.mod_small (n / 16777216) 256 H3). lia.
Qed.

Lemma be32_bytes_length (n : Z) : List.length (be32_bytes n) = 4%nat.
Proof. reflexivity. Qed.

Lemma zskip_app {A : Type} (pre r : list A) : zskip (len pre) (pre ++ r) = r.
Proof.
  unfold len. induction pre as [| x t IH].
  - cbn. destruct r; reflexivity.
  - cbn [app zskip List.length].
    replace (Z.of_nat (S (List.length t)) <=? 0) with false
      by (symmetry; apply Z.leb_gt; lia).
    replace (Z.of_nat (S (List.length t)) - 1) with (Z.of_nat (List.length t)) by lia.
    exact IH.
Qed.

Lemma ztake_app {A : Type} (x post : list A) : ztake (len x) (x ++ post) = x.
Proof.
  unfold len. induction x as [| a t IH].
  - cbn. destruct post; reflexivity.
  - cbn [app ztake List.length].
    replace (Z.of_nat (S (List.length t)) <=? 0) with false
      by (symmetry; apply Z.leb_gt; lia).
    replace (Z.of_nat (S (List.length t)) - 1) with (Z.of_nat (List.length t)) by lia.
    rewrite IH. reflexivity.
Qed.

Lemma pread_at (pre x post : bytes) (pos n : Z) :
  pos = len pre -> n = len x -> pread (pre ++ x ++ post) pos n = x.
Proof.
  intros -> ->. unfold pread. rewrite zskip_app. apply ztake_app.
Qed.

Lemma len_app {A : Type} (a b : list A) : len (a ++ b) = len a + len b.
Proof. unfold len. rewrite length_app. lia. Qed.

Lemma free_atom_length (region : bytes) : len (free_atom region) = 12 + len region.
Proof.
  unfold free_atom, len. rewrite !length_app, be32_bytes_length.
  change (List.length b_free) with 4%nat. change (List.length b_GPS) with 4%nat.
  lia.
Qed.

Lemma descriptor_entries_length (atoms : list bytes) :
  forall pos, len (descriptor_entries pos atoms) = 8 * len atoms.
Proof.
  induction atoms as [| a rest IH]; intros pos; [reflexivity |].
  cbn [descriptor_entries]. rewrite !len_app, IH.
  unfold len. cbn [List.length]. rewrite !be32_bytes_length. lia.
Qed.

(** The layout of the descriptor and the atoms it names, inside a file. *)
Lemma laid_out_in_file (regions : list bytes) :
  forall (pre mid post : bytes) (off pos : Z),
    off = len pre ->
    pos = off + 8 * len regions + len mid ->
    0 < pos ->
    pos + len (List.concat (map free_atom regions)) < 2 ^ 32 ->
    laid_out (pre ++ descriptor_entries pos (map free_atom regions) ++ mid
              ++ List.concat (map free_atom regions) ++ post)%list
             off pos regions.
Proof.
  induction regions as [| region rest IH]; intros pre mid post off pos Ho Hp H0 Hlt;
    [exact I |].
  cbn [map descriptor_entries List.concat laid_out] in *.
  rewrite len_app in Hlt. rewrite free_atom_length in *.
  pose proof (Zle_0_nat (List.length (List.concat (map free_atom rest)))) as Hnn.
  fold (len (List.concat (map free_atom rest))) in Hnn.
  set (D := descriptor_entries (pos + (12 + len region)) (map free_atom rest)) in *.
  set (C := List.concat (map free_atom rest)) in *.
  set (e1 := be32_bytes pos). set (e2 := be32_bytes (12 + len region)).
  assert (HD : len D = 8 * len rest).
  { unfold D. rewrite descriptor_entries_length. unfold len.
    rewrite length_map. reflexivity. }
  assert (He : len e1 = 4 /\ len e2 = 4) by (split; reflexivity).
  assert (Hcons : len (region :: rest) = len rest + 1)
    by (unfold len; cbn [List.length]; lia).
  split; [| split; [| split; [lia | split; [lia |]]]].
  - replace (pre ++ (e1 ++ e2 ++ D) ++ mid ++ (free_atom region ++ C) ++ post)%list
      with (pre ++ (e1 ++ e2) ++ (D ++ mid ++ (free_atom region ++ C) ++ post))%list
      by (rewrite <- !app_assoc; reflexivity).
    apply pread_at; [exact Ho | reflexivity].
  - replace (pre ++ (e1 ++ e2 ++ D) ++ mid ++ (free_atom region ++ C) ++ post)%list
      with ((pre ++ e1 ++ e2 ++ D ++ mid) ++ free_atom region ++ (C ++ post))%list
      by (rewrite <- !app_assoc; reflexivity).
    apply pread_at; [| symmetry; apply free_atom_length].
    rewrite !len_app. unfold len in *. cbn [List.length] in *. lia.
  - replace (pre ++ (e1 ++ e2 ++ D) ++ mid ++ (free_atom region ++ C) ++ post)%list
      with ((pre ++ e1 ++ e2) ++ D ++ (mid ++ free_atom region) ++ C ++ post)%list
      by (rewrite <- !app_assoc; reflexivity).
    replace (pos + 12 + len region) with (pos + (12 + len region)) by lia.
    apply IH.
    + rewrite !len_app. lia.
    + rewrite len_app, free_atom_length.
      unfold len in *. cbn [List.length] in *. lia.
    + unfold len in *. lia.
    + fold C. unfold len in *. lia.
Qed.

Lemma bind_assoc {A B C : Type} (m : M A) (k : A -> M B) (h : B -> M C) (g : Globals) :
  bind (bind m k) h g = bind m (fun a => bind (k a) h) g.
Proof.
  unfold bind. destruct (m g) as [[a | e | |] g1]; reflexivity.
Qed.

(** A well-formed ['free'] atom at the place its entry names is decoded
    as its region. *)
Lemma get_gps_atom_free (content : bytes) (cfg : Settings) (pos : Z)
    (region : bytes) (g : Globals) :
  pread content pos (12 + len region) = free_atom region ->
  0 < pos -> 12 + len region < 2 ^ 32 ->
  get_gps_atom (pos, 12 + len region) content cfg g = get_gps_data region cfg g.
Proof.
  intros Hread Hpos Hsize.
  assert (Hnn : 0 <= len region) by (unfold len; lia).
  unfold get_gps_atom. rewrite Hread.
  replace (12 + len region =? 0) with false by (symmetry; apply Z.eqb_neq; lia).
  replace (pos =? 0) with false by (symmetry; apply Z.eqb_neq; lia).
  cbn [orb].
  assert (Hskip : zskip 12 (free_atom region) = region).
  { unfold free_atom.
    replace (be32_bytes (12 + len region) ++ b_free ++ b_GPS ++ region)%list
      with ((be32_bytes (12 + len region) ++ b_free ++ b_GPS) ++ region)%list
      by (rewrite <- !app_assoc; reflexivity).
    apply (zskip_app (be32_bytes (12 + len region) ++ b_free ++ b_GPS)%list region). }
  rewrite Hskip. unfold free_atom.
  destruct (be32_of_bytes (12 + len region) (b_free ++ b_GPS ++ region)%list
              ltac:(lia)) as (a & b & c & d & -> & Hbe).
  change (b_free ++ b_GPS ++ region)%list
    with (x66 :: x72 :: x65 :: x65 :: x47 :: x50 :: x53 :: x20 :: region).
  cbn [unpack_I4s4s].
  unfold unpacked, bind, ret. rewrite Hbe, Z.eqb_refl.
  reflexivity.
Qed.

Lemma get_gps_atom_info_entry (pos size : Z) :
  0 <= pos < 2 ^ 32 -> 0 <= size < 2 ^ 32 ->
  get_gps_atom_info (be32_bytes pos ++ be32_bytes size) = Some (pos, size).
Proof.
  intros Hp Hs.
  destruct (be32_of_bytes pos (be32_bytes size) Hp) as (a & b & c & d & -> & <-).
  destruct (be32_of_bytes size [] Hs) as (a' & b' & c' & d' & E & <-).
  rewrite app_nil_r in E. rewrite E. reflexivity.
Qed.

(** The loop over the descriptor decodes the regions of the atoms it
    names, in their order. *)
Lemma gps_entries_laid_out (content : bytes) (cfg : Settings) :
  forall regions fuel off pos acc g,
    laid_out content off pos regions ->
    (List.length regions <= fuel)%nat ->
    gps_entries fuel content cfg off (off + 8 * len regions) acc g
    = bind (decode_regions regions cfg) (fun more => ret (acc ++ more)) g.
Proof.
  induction regions as [| region rest IH]; intros fuel off pos acc g Hlay Hfuel.
  - replace (off + 8 * len (@nil bytes)) with off by (unfold len; cbn; lia).
    destruct fuel; cbn [gps_entries]; rewrite Z.ltb_irrefl;
      cbn [decode_regions]; unfold bind, ret; rewrite app_nil_r; reflexivity.
  - destruct fuel as [| fuel]; [cbn in Hfuel; lia |].
    cbn [laid_out] in Hlay. destruct Hlay as (Hentry & Hatom & Hpos & Hend & Hrest).
    assert (Hnn : 0 <= len region) by (unfold len; lia).
    assert (Hstop : off + 8 * len (region :: rest) = off + 8 + 8 * len rest)
      by (unfold len; cbn [List.length]; lia).
    cbn [gps_entries decode_regions].
    replace (off <? off + 8 * len (region :: rest)) with true
      by (symmetry; apply Z.ltb_lt; unfold len; cbn [List.length]; lia).
    rewrite Hentry, get_gps_atom_info_entry by lia.
    unfold unpacked. unfold bind at 1, ret at 1.
    rewrite bind_assoc.
    apply bind_same; [intros g1; apply get_gps_atom_free; [exact Hatom | lia | lia] |].
    intros data g1. rewrite Hstop.
    rewrite (IH fuel (off + 8) (pos + 12 + len region) (acc ++ [data]) g1 Hrest)
      by (cbn in Hfuel; lia).
    rewrite bind_assoc.
    apply bind_same; [reflexivity |].
    intros more g2. unfold bind, ret. rewrite <- app_assoc. reflexivity.
Qed.

Lemma get_atom_info_header (size : Z) (t0 t1 t2 t3 : byte) :
  0 <= size < 2 ^ 32 ->
  get_atom_info (be32_bytes size ++ [t0; t1; t2; t3]) = (size, [t0; t1; t2; t3]).
Proof.
  intros Hs.
  destruct (be32_of_bytes size [t0; t1; t2; t3] Hs) as (a & b & c & d & -> & <-).
  reflexivity.
Qed.

Lemma sub_atoms_done (fuel : nat) (content : bytes) (cfg : Settings)
    (sub_offset stop : Z) (gps_data : list (option GPS)) (g : Globals) :
  stop <= sub_offset ->
  sub_atoms fuel content cfg sub_offset stop gps_data g = (Return gps_data, g).
Proof.
  intros H. destruct fuel; cbn [sub_atoms];
    replace (sub_offset <? stop) with false by (symmetry; apply Z.ltb_ge; lia);
    reflexivity.
Qed.

(** After the ['moov'] atom the top-level loop steps over the ['free']
    atoms to the end of the file. *)
Lemma top_atoms_free_atoms (cfg : Settings) (gps_data : list (option GPS))
    (g : Globals) :
  forall regions pre fuel,
    len (pre ++ List.concat (map free_atom regions)) < 2 ^ 32 ->
    (List.length regions <= fuel)%nat ->
    top_atoms fuel (pre ++ List.concat (map free_atom regions)) cfg (len pre)
              gps_data true g
    = (Return (gps_data, true), g).
Proof.
  induction regions as [| region rest IH]; intros pre fuel Hlen Hfuel.
  - cbn [map List.concat] in *. apply top_atoms_stop_truncated.
    + unfold len. lia.
    + rewrite app_nil_r. lia.
  - destruct fuel as [| fuel]; [cbn in Hfuel; lia |].
    cbn [map List.concat] in *.
    assert (Hnn : 0 <= len region) by (unfold len; lia).
    assert (Hsize : 12 + len region < 2 ^ 32).
    { rewrite !len_app, free_atom_length in Hlen. unfold len in *. lia. }
    cbn [top_atoms].
    assert (Hread : pread (pre ++ free_atom region
                           ++ List.concat (map free_atom rest)) (len pre) 8
                    = (be32_bytes (12 + len region) ++ [x66; x72; x65; x65])%list).
    { unfold free_atom at 1.
      replace ((be32_bytes (12 + len region) ++ b_free ++ b_GPS ++ region)
               ++ List.concat (map free_atom rest))%list
        with ((be32_bytes (12 + len region) ++ [x66; x72; x65; x65])
              ++ (b_GPS ++ region) ++ List.concat (map free_atom rest))%list
        by (rewrite <- !app_assoc; reflexivity).
      apply pread_at; reflexivity. }
    rewrite Hread, get_atom_info_header by lia.
    replace (12 + len region =? 0) with false by (symmetry; apply Z.eqb_neq; lia).
    change (bytes_eqb [x66; x72; x65; x65] b_moov) with false.
    unfold bind at 1, ret at 1.
    replace (len pre + (12 + len region)) with (len (pre ++ free_atom region))
      by (rewrite len_app, free_atom_length; reflexivity).
    rewrite app_assoc. apply IH.
    + rewrite <- app_assoc. exact Hlen.
    + cbn in Hfuel. lia.
Qed.

Lemma parse_moov_of_regions (regions : list bytes) (cfg : Settings)
    (g : Globals) :
  len (mp4_file (map free_atom regions)) < 2 ^ 32 ->
  parse_moov (mp4_file (map free_atom regions)) cfg g
  = bind (decode_regions regions cfg) (fun samples => ret (samples, true)) g.
Proof.
  intros Hlen.
  set (atoms := map free_atom regions) in *.
  set (n := len atoms) in *.
  assert (Hn : n = len regions) by (unfold n, atoms, len; rewrite length_map; reflexivity).
  assert (Hn0 : 0 <= n) by (unfold n, len; lia).
  set (hdr := (be32_bytes (24 + 8 * n) ++ [x6d; x6f; x6f; x76]
               ++ be32_bytes (16 + 8 * n) ++ [x67; x70; x73; x20]
               ++ le32_bytes 0 ++ be32_bytes n)%list).
  assert (Hhdr : len hdr = 24) by reflexivity.
  assert (Hfile : mp4_file atoms
                  = (hdr ++ descriptor_entries (24 + 8 * n) atoms
                     ++ [] ++ List.concat atoms ++ [])%list).
  { unfold mp4_file, hdr. fold n. rewrite app_nil_r. cbn [app].
    rewrite <- !app_assoc. reflexivity. }
  assert (Hbound : 24 + 8 * n + len (List.concat atoms) < 2 ^ 32).
  { rewrite Hfile in Hlen. rewrite !len_app, descriptor_entries_length in Hlen.
    fold n in Hlen. unfold len in *. cbn [List.length] in Hlen. lia. }
  assert (Hcc : 0 <= len (List.concat atoms)) by (unfold len; lia).
  assert (Hlay : laid_out (mp4_file atoms) 24 (24 + 8 * n) regions).
  { rewrite Hfile. apply laid_out_in_file.
    - symmetry. exact Hhdr.
    - unfold len at 2. cbn [List.length]. lia.
    - lia.
    - exact Hbound. }
  assert (Hfuel : (List.length regions <= List.length (mp4_file atoms))%nat).
  { rewrite Hfile, !length_app.
    pose proof (descriptor_entries_length atoms (24 + 8 * n)) as Hd.
    assert (Hla : List.length atoms = List.length regions)
      by (unfold atoms; apply length_map).
    unfold len in Hd. lia. }
  unfold parse_moov. cbn [top_atoms].
  assert (Hmoov : pread (mp4_file atoms) 0 8
                  = (be32_bytes (24 + 8 * n) ++ [x6d; x6f; x6f; x76])%list).
  { unfold mp4_file. fold n.
    change b_moov with [x6d; x6f; x6f; x76].
    rewrite (app_assoc (be32_bytes (24 + 8 * n))).
    apply (pread_at [] _ _ 0 8); reflexivity. }
  rewrite Hmoov, get_atom_info_header by lia.
  replace (24 + 8 * n =? 0) with false by (symmetry; apply Z.eqb_neq; lia).
  change (bytes_eqb [x6d; x6f; x6f; x76] b_moov) with true.
  cbn [sub_atoms].
  replace (0 + 8 <? 0 + (24 + 8 * n)) with true by (symmetry; apply Z.ltb_lt; lia).
  assert (Hgps : pread (mp4_file atoms) (0 + 8) 8
                 = (be32_bytes (16 + 8 * n) ++ [x67; x70; x73; x20])%list).
  { unfold mp4_file. fold n.
    change b_moov with [x6d; x6f; x6f; x76]. change b_gps with [x67; x70; x73; x20].
    rewrite (app_assoc (be32_bytes (24 + 8 * n))).
    rewrite (app_assoc (be32_bytes (16 + 8 * n))).
    apply pread_at; reflexivity. }
  rewrite Hgps, get_atom_info_header by lia.
  change (bytes_eqb [x67; x70; x73; x20] b_gps) with true.
  replace (16 + 8 * n =? 0) with false by (symmetry; apply Z.eqb_neq; lia).
  replace (16 + (0 + 8)) with 24 by lia.
  replace (0 + 8 + (16 + 8 * n)) with (24 + 8 * len regions) by lia.
  replace (0 + (24 + 8 * n)) with (24 + 8 * len regions) by lia.
  rewrite !bind_assoc.
  transitivity
    (bind (bind (decode_regions regions cfg) (fun more => ret ([] ++ more)))
          (fun samples => ret (samples, true)) g).
  2:{ rewrite bind_assoc. apply bind_same; reflexivity. }
  apply bind_same.
  - intros g1. apply (gps_entries_laid_out _ cfg regions _ 24 (24 + 8 * n));
      [exact Hlay | lia].
  - intros gps_data g1. unfold bind at 1.
    rewrite sub_atoms_done by lia.
    unfold bind, ret.
    replace (24 + 8 * len regions)
      with (len (hdr ++ descriptor_entries (24 + 8 * n) atoms)).
    2:{ rewrite len_app, descriptor_entries_length, Hhdr. fold n. lia. }
    assert (Hfile' : mp4_file atoms
                     = ((hdr ++ descriptor_entries (24 + 8 * n) atoms)
                        ++ List.concat (map free_atom regions))%list).
    { rewrite Hfile. fold atoms. rewrite app_nil_r, <- app_assoc. reflexivity. }
    rewrite Hfile'. apply top_atoms_free_atoms.
    + rewrite <- Hfile'. exact Hlen.
    + rewrite <- Hfile'. exact Hfuel.
Qed.

(** X25.  A well-formed MP4 file: a ['moov'] atom with one ['gps '] descriptor
    that lists ['free'] atoms laid out behind it, each with the magic and
    a region.  The scan decodes the regions in the order of the
    descriptor, each from the state the one before left, and reports the
    ['moov'] atom; whatever a region raises ends the scan there. *)
Theorem parse_moov_well_formed (regions : list bytes) (cfg : Settings)
    (g : Globals) :
  len (mp4_file (map free_atom regions)) < 2 ^ 32 ->
  parse_moov (mp4_file (map free_atom regions)) cfg g
  = bind (decode_regions regions cfg) (fun samples => ret (samples, true)) g
  /\ process_file (mp4_file (map free_atom regions)) cfg g
     = bind (decode_regions regions cfg)
            (fun samples => ret (filtered cfg (filter_none samples))) g.
Proof.
  intros Hlen. split; [apply parse_moov_of_regions; exact Hlen |].
  unfold process_file.
  rewrite (bind_same _ (bind (decode_regions regions cfg)
                             (fun samples => ret (samples, true))) _ _
             (fun g1 => parse_moov_of_regions regions cfg g1 Hlen)
             (fun a g1 => eq_refl)).
  rewrite bind_assoc. apply bind_same; reflexivity.
Qed.

Lemma parse_moov_well_formed_witness :
  parse_moov (mp4_file (map free_atom [region_A; region_B])) plain_settings
             initial_globals
  = bind (decode_regions [region_A; region_B] plain_settings)
         (fun samples => ret (samples, true)) initial_globals
  /\ process_file (mp4_file (map free_atom [region_A; region_B])) plain_settings
                  initial_globals
     = bind (decode_regions [region_A; region_B] plain_settings)
            (fun samples => ret (filtered plain_settings (filter_none samples)))
            initial_globals.
Proof.
  apply (parse_moov_well_formed [region_A; region_B] plain_settings initial_globals).
  vm_compute. reflexivity.
Defined.

(** ** A well-formed transport stream *)





